(** * Gomoku search engine ([gomoku_ai.py]): shallow embedding and checked properties

    The board is a Python list of 15 lists of 15 optional colour strings.
    Functions that only read the board are embedded as pure functions;
    functions that write to it ([try_move_is_win], [ordered_candidates], the
    candidate capping, [minimax], [ai_search]) take the board and hand the
    final board back next to their result, so that what the search leaves on
    the board is a statement about that second component.  The rows of a
    board are distinct list objects (the callers build it with a nested
    comprehension), so no aliasing between rows is modelled. *)

From Stdlib Require Import String ZArith List Bool Lia Permutation Sorted.
Import ListNotations.
Open Scope string_scope.
Open Scope list_scope.
Open Scope Z_scope.

(** ** Data model *)

Definition Cell : Type := option string.
Definition State : Type := list (list Cell).
Definition Move : Type := (Z * Z)%type.

Definition BOARD_SIZE : Z := 15.
Definition CENTER : Z := 7.

(** Python's [range(lo, hi)]. *)
Definition zrange (lo hi : Z) : list Z :=
  map (fun k => lo + Z.of_nat k) (seq 0 (Z.to_nat (hi - lo))).

(** The guard [0 <= r < BOARD_SIZE and 0 <= c < BOARD_SIZE]. *)
Definition in_bounds (r c : Z) : bool :=
  (0 <=? r) && (r <? BOARD_SIZE) && (0 <=? c) && (c <? BOARD_SIZE).

(** A board as the callers build it: 15 rows of 15 cells. *)
Definition wf_board (s : State) : bool :=
  (length s =? Z.to_nat BOARD_SIZE)%nat
  && forallb (fun row => (length row =? Z.to_nat BOARD_SIZE)%nat) s.

(** [state[r][c]] where the source has the index in range (under the guard
    [in_bounds], inside [range(BOARD_SIZE)] loops, at candidate moves). *)
Definition cell (s : State) (r c : Z) : Cell :=
  nth (Z.to_nat c) (nth (Z.to_nat r) s []) None.

Fixpoint list_set {A : Type} (l : list A) (n : nat) (x : A) : list A :=
  match l, n with
  | [], _ => []
  | _ :: t, O => x :: t
  | h :: t, S k => h :: list_set t k x
  end.

(** [state[r][c] = v].  The engine writes at candidate moves only, which are
    in range (lemma [candidate_moves_in_bounds]); outside the board the model
    leaves the board alone. *)
Definition set_cell (s : State) (r c : Z) (v : Cell) : State :=
  if in_bounds r c
  then list_set s (Z.to_nat r) (list_set (nth (Z.to_nat r) s []) (Z.to_nat c) v)
  else s.

Definition is_empty (v : Cell) : bool :=
  match v with None => true | Some _ => false end.

(** [v == color] for a cell [v]. *)
Definition cell_is (v : Cell) (color : string) : bool :=
  match v with Some x => String.eqb x color | None => false end.

(** ** Python indexing with its failure

    [l[i]] for any integer [i]: an index in [[-len, 0)] counts from the end,
    an index outside [[-len, len)] raises [IndexError], here [None]. *)
Module Py.

Definition item {A : Type} (l : list A) (i : Z) : option A :=
  let n := Z.of_nat (length l) in
  if (0 <=? i) && (i <? n) then nth_error l (Z.to_nat i)
  else if (- n <=? i) && (i <? 0) then nth_error l (Z.to_nat (i + n))
  else None.

(** [state[r][c]]; [None] is the raised [IndexError]. *)
Definition getitem (s : State) (r c : Z) : option Cell :=
  match item s r with
  | Some row => item row c
  | None => None
  end.

End Py.

(** ** Helpers *)

(** All coordinates in the order of
    [for r in range(BOARD_SIZE) for c in range(BOARD_SIZE)]. *)
Definition all_cells : list Move :=
  flat_map (fun r => map (fun c => (r, c)) (zrange 0 BOARD_SIZE)) (zrange 0 BOARD_SIZE).

Definition get_empty_cells (s : State) : list Move :=
  filter (fun m => is_empty (cell s (fst m) (snd m))) all_cells.

Definition neighbors_exist (s : State) (r c : Z) (dist : Z) : bool :=
  existsb (fun dr =>
    existsb (fun dc =>
      if (dr =? 0) && (dc =? 0) then false
      else
        let rr := r + dr in
        let cc := c + dc in
        in_bounds rr cc && negb (is_empty (cell s rr cc)))
      (zrange (- dist) (dist + 1)))
    (zrange (- dist) (dist + 1)).

Definition candidate_moves (s : State) : list Move :=
  let empties := get_empty_cells s in
  let any_stone := existsb (fun m => negb (is_empty (cell s (fst m) (snd m)))) all_cells in
  if negb any_stone then [(CENTER, CENTER)]
  else
    let cand := filter (fun m => neighbors_exist s (fst m) (snd m) 2) empties in
    match cand with
    | [] => empties
    | _ :: _ => cand
    end.

(** The four axis directions of [is_win_at], [count_threat_level] and
    [is_open_threat]. *)
Definition directions : list (Z * Z) := [(0, 1); (1, 0); (1, 1); (1, -1)].

(** The loop
    [while 0 <= r < BOARD_SIZE and 0 <= c < BOARD_SIZE and state[r][c] == color:
       cnt += 1; r += dx; c += dy]
    on its three variables.  [fuel] bounds the number of iterations; lemma
    [walk_exits] shows that [walk_fuel] iterations always reach the exit. *)
Fixpoint walk (fuel : nat) (s : State) (color : string) (dx dy : Z)
    (cnt r c : Z) : Z * Z * Z :=
  match fuel with
  | O => (cnt, r, c)
  | S k =>
      if in_bounds r c && cell_is (cell s r c) color
      then walk k s color dx dy (cnt + 1) (r + dx) (c + dy)
      else (cnt, r, c)
  end.

Definition walk_fuel : nat := S (Z.to_nat BOARD_SIZE).

(** The body of the [for dx, dy in directions] loop shared by the three
    scanning functions: the run length through [(row, col)] along one axis,
    and the two cells at which the forward and backward loops stopped. *)
Definition axis_scan (s : State) (row col : Z) (color : string) (d : Z * Z)
    : Z * (Z * Z) * (Z * Z) :=
  let '(dx, dy) := d in
  let cnt := 1 in
  let '(cnt, rf, cf) := walk walk_fuel s color dx dy cnt (row + dx) (col + dy) in
  let '(cnt, rb, cb) := walk walk_fuel s color (- dx) (- dy) cnt (row - dx) (col - dy) in
  (cnt, (rf, cf), (rb, cb)).

Definition is_win_at (s : State) (row col : Z) (color : string) : bool :=
  existsb (fun d => let '(cnt, _, _) := axis_scan s row col color d in 5 <=? cnt)
          directions.

(** [try_move_is_win] writes the stone, tests, and writes [None] back. *)
Definition try_move_is_win (s : State) (r c : Z) (color : string) : bool * State :=
  let s1 := set_cell s r c (Some color) in
  let win := is_win_at s1 r c color in
  let s2 := set_cell s1 r c None in
  (win, s2).

Definition is_open_threat (s : State) (row col : Z) (color : string) (min_count : Z) : bool :=
  if negb (is_empty (cell s row col)) then false
  else
    existsb (fun d =>
      let '(cnt, (rf, cf), (rb, cb)) := axis_scan s row col color d in
      let right_open := in_bounds rf cf && is_empty (cell s rf cf) in
      let left_open := in_bounds rb cb && is_empty (cell s rb cb) in
      (min_count <=? cnt) && (left_open || right_open))
      directions.

(** ** The scanning functions on Python's raising index

    [is_win_at] and [count_threat_level] once more, with every [state[r][c]]
    read through [Py.getitem], so that a raised [IndexError] shows up as
    [None].  On a 15x15 board [PyScan.is_win_at] never raises and agrees with
    [is_win_at] (lemma [py_is_win_at_total]). *)
Module PyScan.

Fixpoint walk (fuel : nat) (s : State) (color : string) (dx dy : Z)
    (cnt r c : Z) : option (Z * Z * Z) :=
  match fuel with
  | O => Some (cnt, r, c)
  | S k =>
      if in_bounds r c then
        match Py.getitem s r c with
        | None => None
        | Some v =>
            if cell_is v color
            then walk k s color dx dy (cnt + 1) (r + dx) (c + dy)
            else Some (cnt, r, c)
        end
      else Some (cnt, r, c)
  end.

Definition axis_scan (s : State) (row col : Z) (color : string) (d : Z * Z)
    : option (Z * (Z * Z) * (Z * Z)) :=
  let '(dx, dy) := d in
  let cnt := 1 in
  match walk walk_fuel s color dx dy cnt (row + dx) (col + dy) with
  | None => None
  | Some (cnt, rf, cf) =>
      match walk walk_fuel s color (- dx) (- dy) cnt (row - dx) (col - dy) with
      | None => None
      | Some (cnt, rb, cb) => Some (cnt, (rf, cf), (rb, cb))
      end
  end.

(** The [for dx, dy in directions] loop of [is_win_at] with its early
    [return True]. *)
Fixpoint win_loop (s : State) (row col : Z) (color : string)
    (ds : list (Z * Z)) : option bool :=
  match ds with
  | [] => Some false
  | d :: ds' =>
      match axis_scan s row col color d with
      | None => None
      | Some (cnt, _, _) =>
          if 5 <=? cnt then Some true else win_loop s row col color ds'
      end
  end.

Definition is_win_at (s : State) (row col : Z) (color : string) : option bool :=
  win_loop s row col color directions.

Fixpoint threat_loop (s : State) (row col : Z) (color : string)
    (ds : list (Z * Z)) (max_count : Z) : option Z :=
  match ds with
  | [] => Some max_count
  | d :: ds' =>
      match axis_scan s row col color d with
      | None => None
      | Some (cnt, _, _) => threat_loop s row col color ds' (Z.max max_count cnt)
      end
  end.

Definition count_threat_level (s : State) (row col : Z) (color : string) : option Z :=
  match Py.getitem s row col with
  | None => None
  | Some (Some _) => Some 0
  | Some None => threat_loop s row col color directions 0
  end.

End PyScan.

(** ** Heuristic evaluation *)

Definition W_FIVE : Z := 100000.
Definition W_OPEN_FOUR : Z := 10000.
Definition W_CLOSED_FOUR : Z := 3000.
Definition W_OPEN_THREE : Z := 1000.
Definition W_CLOSED_THREE : Z := 200.
Definition W_OPEN_TWO : Z := 50.

Definition zlen {A : Type} (l : list A) : Z := Z.of_nat (length l).

(** The list [lines] built at the start of [score_color]. *)
Definition board_lines (s : State) : list (list Cell) :=
  let n := BOARD_SIZE in
  let rows := map (fun r => map (fun c => cell s r c) (zrange 0 n)) (zrange 0 n) in
  let cols := map (fun c => map (fun r => cell s r c) (zrange 0 n)) (zrange 0 n) in
  let diags :=
    flat_map (fun d =>
      let diag1 :=
        flat_map (fun r =>
          let c1 := r + d in
          if (0 <=? c1) && (c1 <? n) then [cell s r c1] else []) (zrange 0 n) in
      let diag2 :=
        flat_map (fun r =>
          let c2 := (n - 1) - r - d in
          if (0 <=? c2) && (c2 <? n) then [cell s r c2] else []) (zrange 0 n) in
      (if 5 <=? zlen diag1 then [diag1] else [])
        ++ (if 5 <=? zlen diag2 then [diag2] else []))
      (zrange (- (n - 5)) (n - 4)) in
  rows ++ cols ++ diags.

(** [1 if v == color else (0 if v is None else -1)]. *)
Definition stone_code (color : string) (v : Cell) : Z :=
  if cell_is v color then 1 else if is_empty v then 0 else -1.

(** [window.count(x)]. *)
Definition count_z (x : Z) (l : list Z) : Z :=
  Z.of_nat (count_occ Z.eq_dec l x).

(** One round of the loop [for i in range(n - 4)] of [seq_score]: the amount
    added to [s] for the window starting at [i]. *)
Definition window_score (color : string) (seq : list Cell) (i : Z) : Z :=
  let n := zlen seq in
  let stones := map (stone_code color) seq in
  let window := firstn 5 (skipn (Z.to_nat i) stones) in
  let my_cnt := count_z 1 window in
  let opp_cnt := count_z (-1) window in
  let empty_cnt := count_z 0 window in
  let left_open := (0 <? i) && is_empty (nth (Z.to_nat (i - 1)) seq None) in
  let right_open := (i + 5 <? n) && is_empty (nth (Z.to_nat (i + 5)) seq None) in
  if opp_cnt =? 0 then
    if my_cnt =? 5 then W_FIVE
    else if (my_cnt =? 4) && (empty_cnt =? 1) then
      if left_open || right_open then W_OPEN_FOUR else W_CLOSED_FOUR
    else if (my_cnt =? 3) && (empty_cnt =? 2) then
      if left_open && right_open then W_OPEN_THREE else W_CLOSED_THREE
    else if (my_cnt =? 2) && (empty_cnt =? 3) then
      if left_open || right_open then W_OPEN_TWO else 0
    else 0
  else 0.

Definition seq_score (color : string) (seq : list Cell) : Z :=
  fold_left (fun s i => s + window_score color seq i) (zrange 0 (zlen seq - 4)) 0.

Definition score_color (s : State) (color : string) : Z :=
  fold_left (fun score ln => score + seq_score color ln) (board_lines s) 0.

(** ["white" if color == "black" else "black"]. *)
Definition other_color (color : string) : string :=
  if String.eqb color "black" then "white" else "black".

Definition evaluate (s : State) (perspective_color : string) : Z :=
  let opp := other_color perspective_color in
  score_color s perspective_color - score_color s opp.

(** ** Move ordering and search *)

Definition move_eqb (a b : Move) : bool :=
  (fst a =? fst b) && (snd a =? snd b).

(** [m in l]. *)
Definition mem (m : Move) (l : list Move) : bool := existsb (move_eqb m) l.

(** The loop [for r, c in candidate_moves(state)] of [ordered_candidates],
    on the four lists it appends to and on the board. *)
Fixpoint classify (ai_color opp : string) (cands : list Move) (s : State)
    (wins blocks defensive rest : list Move)
    : (list Move * list Move * list Move * list Move) * State :=
  match cands with
  | [] => ((wins, blocks, defensive, rest), s)
  | (r, c) :: tl =>
      let '(w, s1) := try_move_is_win s r c ai_color in
      if w then classify ai_color opp tl s1 (wins ++ [(r, c)]) blocks defensive rest
      else
        let '(b, s2) := try_move_is_win s1 r c opp in
        if b then classify ai_color opp tl s2 wins (blocks ++ [(r, c)]) defensive rest
        else if is_open_threat s2 r c opp 3
        then classify ai_color opp tl s2 wins blocks (defensive ++ [(r, c)]) rest
        else classify ai_color opp tl s2 wins blocks defensive (rest ++ [(r, c)])
  end.

Definition ordered_candidates (s : State) (ai_color : string) : list Move * State :=
  let opp := other_color ai_color in
  let '((wins, blocks, defensive, rest), s') :=
    classify ai_color opp (candidate_moves s) s [] [] [] [] in
  (wins ++ blocks ++ defensive ++ rest, s').

(** A comprehension [[m for m in l if p(m)]] whose test may write to the
    board. *)
Fixpoint filter_st (p : Move -> State -> bool * State) (l : list Move) (s : State)
    : list Move * State :=
  match l with
  | [] => ([], s)
  | m :: tl =>
      let '(b, s1) := p m s in
      let '(res, s2) := filter_st p tl s1 in
      (if b then m :: res else res, s2)
  end.

(** The block under [if max_candidates is not None], which the source
    repeats in [ai_search] and in both branches of [minimax]; [mover] is the
    side to move and [opp] the other side as the caller names it. *)
Definition cap_candidates (mover opp : string) (max_candidates : Z)
    (oc : list Move) (s : State) : list Move * State :=
  let '(wins, s1) :=
    filter_st (fun m st => try_move_is_win st (fst m) (snd m) mover) oc s in
  let '(blocks, s2) :=
    filter_st (fun m st =>
      if negb (mem m wins) then try_move_is_win st (fst m) (snd m) opp
      else (false, st)) oc s1 in
  let defensive :=
    filter (fun m =>
      negb (mem m wins) && negb (mem m blocks)
      && is_open_threat s2 (fst m) (snd m) opp 3) oc in
  let rest :=
    filter (fun m =>
      negb (mem m wins) && negb (mem m blocks) && negb (mem m defensive)) oc in
  let remaining_slots :=
    Z.max 0 (max_candidates - zlen wins - zlen blocks - zlen defensive) in
  (wins ++ blocks ++ defensive ++ firstn (Z.to_nat remaining_slots) rest, s2).

Definition capped (mover opp : string) (max_candidates : option Z)
    (oc : list Move) (s : State) : list Move * State :=
  match max_candidates with
  | Some k => cap_candidates mover opp k oc s
  | None => (oc, s)
  end.

(** [10**9], the initial bound of the search. *)
Definition INF : Z := 1000000000.
Definition WIN_VALUE : Z := 100000.

Section Loops.

(** [rec st alpha beta] stands for the recursive call
    [minimax(state, depth - 1, ..., alpha, beta, use_ab, max_candidates)]
    on the board [st]. *)
Variable rec : State -> Z -> Z -> option (Z * State).
Variable use_ab : bool.

(** The [for r, c in oc] loop of the maximizing branch. *)
Fixpoint max_loop (ai_color : string) (oc : list Move) (s : State)
    (value alpha beta : Z) : option (Z * State) :=
  match oc with
  | [] => Some (value, s)
  | (r, c) :: oc' =>
      let s1 := set_cell s r c (Some ai_color) in
      match (if is_win_at s1 r c ai_color then Some (WIN_VALUE, s1)
             else rec s1 alpha beta) with
      | None => None
      | Some (evalv, s2) =>
          let s3 := set_cell s2 r c None in
          let value := if value <? evalv then evalv else value in
          if use_ab then
            let alpha := if alpha <? value then value else alpha in
            if beta <=? alpha then Some (value, s3)
            else max_loop ai_color oc' s3 value alpha beta
          else max_loop ai_color oc' s3 value alpha beta
      end
  end.

(** The [for r, c in oc] loop of the minimizing branch. *)
Fixpoint min_loop (opp_color : string) (oc : list Move) (s : State)
    (value alpha beta : Z) : option (Z * State) :=
  match oc with
  | [] => Some (value, s)
  | (r, c) :: oc' =>
      let s1 := set_cell s r c (Some opp_color) in
      match (if is_win_at s1 r c opp_color then Some (- WIN_VALUE, s1)
             else rec s1 alpha beta) with
      | None => None
      | Some (evalv, s2) =>
          let s3 := set_cell s2 r c None in
          let value := if evalv <? value then evalv else value in
          if use_ab then
            let beta := if value <? beta then value else beta in
            if beta <=? alpha then Some (value, s3)
            else min_loop opp_color oc' s3 value alpha beta
          else min_loop opp_color oc' s3 value alpha beta
      end
  end.

(** The [for r, c in oc] loop of [ai_search], on [best_move],
    [best_score], [alpha] and the board. *)
Fixpoint root_loop (ai_color : string) (oc : list Move) (s : State)
    (best_move : option Move) (best_score alpha beta : Z)
    : option (option Move * Z * State) :=
  match oc with
  | [] => Some (best_move, best_score, s)
  | (r, c) :: oc' =>
      let s1 := set_cell s r c (Some ai_color) in
      match rec s1 alpha beta with
      | None => None
      | Some (val, s2) =>
          let s3 := set_cell s2 r c None in
          let '(best_score, best_move) :=
            if best_score <? val then (val, Some (r, c))
            else (best_score, best_move) in
          if use_ab then
            let alpha := if alpha <? best_score then best_score else alpha in
            if beta <=? alpha then Some (best_move, best_score, s3)
            else root_loop ai_color oc' s3 best_move best_score alpha beta
          else root_loop ai_color oc' s3 best_move best_score alpha beta
      end
  end.

End Loops.

Definition is_nil {A : Type} (l : list A) : bool :=
  match l with [] => true | _ :: _ => false end.

(** [minimax].  Each level of the recursion puts one stone on the board, so
    the recursion is at most as deep as the board has empty cells, whatever
    [depth] is (a negative [depth] never meets [depth == 0]); [fuel] counts
    the levels and [None] means that it ran out (lemma
    [minimax_restores]: more fuel than empty cells is enough). *)
Fixpoint minimax (fuel : nat) (s : State) (depth : Z) (maximizing : bool)
    (ai_color opp_color : string) (alpha beta : Z) (use_ab : bool)
    (max_candidates : option Z) : option (Z * State) :=
  match fuel with
  | O => None
  | S k =>
      let cand := candidate_moves s in
      if (depth =? 0) || is_nil cand then Some (evaluate s ai_color, s)
      else
        let rec := fun st a b =>
          minimax k st (depth - 1) (negb maximizing) ai_color opp_color a b
                  use_ab max_candidates in
        if maximizing then
          let value := - INF in
          let '(oc, s1) := ordered_candidates s ai_color in
          let '(oc, s2) := capped ai_color opp_color max_candidates oc s1 in
          max_loop rec use_ab ai_color oc s2 value alpha beta
        else
          let value := INF in
          let '(oc, s1) := ordered_candidates s opp_color in
          let '(oc, s2) := capped opp_color ai_color max_candidates oc s1 in
          min_loop rec use_ab opp_color oc s2 value alpha beta
  end.

(** [ai_search] with the local [best_score] kept next to the returned move.
    The two debugging comprehensions and the final [is_block] test only
    print, but they call [try_move_is_win], which writes to the board, so
    they stay in the model. *)
Definition ai_search_scored (fuel : nat) (s : State) (ai_color opp_color : string)
    (depth : Z) (use_alpha_beta : bool) (max_candidates : option Z)
    : option (option Move * Z * State) :=
  let best_move : option Move := None in
  let best_score := - INF in
  let alpha := - INF in
  let beta := INF in
  let '(oc, s1) := ordered_candidates s ai_color in
  let '(blocks_in_oc, s2) :=
    filter_st (fun m st => try_move_is_win st (fst m) (snd m) opp_color) oc s1 in
  let defensive_in_oc :=
    filter (fun m =>
      negb (mem m blocks_in_oc) && is_open_threat s2 (fst m) (snd m) opp_color 3) oc in
  let '(oc, s3) := capped ai_color opp_color max_candidates oc s2 in
  let rec := fun st a b =>
    minimax fuel st (depth - 1) false ai_color opp_color a b
            use_alpha_beta max_candidates in
  match root_loop rec use_alpha_beta ai_color oc s3 best_move best_score alpha beta with
  | None => None
  | Some (best_move, best_score, s4) =>
      let '(is_block, s5) :=
        match best_move with
        | Some (r, c) => try_move_is_win s4 r c opp_color
        | None => (false, s4)
        end in
      Some (best_move, best_score, s5)
  end.

Definition ai_search (fuel : nat) (s : State) (ai_color opp_color : string)
    (depth : Z) (use_alpha_beta : bool) (max_candidates : option Z)
    : option (option Move * State) :=
  match ai_search_scored fuel s ai_color opp_color depth use_alpha_beta
                         max_candidates with
  | None => None
  | Some (best_move, _, s') => Some (best_move, s')
  end.

(** ** Boards for examples *)

Definition empty_board : State := repeat (repeat None 15%nat) 15%nat.

Definition place (color : string) (s : State) (m : Move) : State :=
  set_cell s (fst m) (snd m) (Some color).

Definition with_stones (color : string) (ms : list Move) (s : State) : State :=
  fold_left (place color) ms s.

(** A row of four black stones at [(7,3) .. (7,6)]; [(7,7)] is empty. *)
Definition four_in_row : State :=
  with_stones "black" [(7, 3); (7, 4); (7, 5); (7, 6)] empty_board.

(** The loop test of [walk] at a position. *)
Definition walk_test (s : State) (color : string) (r c : Z) : bool :=
  in_bounds r c && cell_is (cell s r c) color.

(** A step of one of the four axes, in either sense. *)
Definition unit_step (dx dy : Z) : Prop :=
  -1 <= dx <= 1 /\ -1 <= dy <= 1 /\ (dx <> 0 \/ dy <> 0).

(** How many cells lie ahead of [(r, c)], itself included, before the step
    leaves the board. *)
Definition room (dx dy r c : Z) : Z :=
  if dx =? 1 then 15 - r
  else if dx =? -1 then r + 1
  else if dy =? 1 then 15 - c
  else c + 1.

(** White holds [(5,6) .. (5,9)] with black at [(5,10)]: white wins at
    [(5,5)] only.  Black has three in row 6. *)
Definition winning_board : State :=
  with_stones "black" [(5, 10); (6, 6); (6, 7); (6, 8)]
    (with_stones "white" [(5, 6); (5, 7); (5, 8); (5, 9)] empty_board).

(** A board on which black holds [(0,0) .. (3,0)]. *)
Definition column_of_four : State :=
  with_stones "black" [(0, 0); (1, 0); (2, 0); (3, 0)] empty_board.

(** The words of the candidate rule: empty cells, stones, Chebyshev
    distance, row-major order. *)
Definition empty_cell (s : State) (m : Move) : Prop :=
  in_bounds (fst m) (snd m) = true /\ cell s (fst m) (snd m) = None.

Definition stone_at (s : State) (m : Move) : Prop :=
  in_bounds (fst m) (snd m) = true /\ cell s (fst m) (snd m) <> None.

Definition chebyshev (a b : Move) : Z :=
  Z.max (Z.abs (fst a - fst b)) (Z.abs (snd a - snd b)).

Definition near_stone (s : State) (m : Move) : Prop :=
  exists m', stone_at s m' /\ chebyshev m m' <= 2.

Definition row_major (a b : Move) : Prop :=
  fst a < fst b \/ (fst a = fst b /\ snd a < snd b).

Definition row_majorb (a b : Move) : bool :=
  (fst a <? fst b) || ((fst a =? fst b) && (snd a <? snd b)).

Fixpoint ascending (a : Move) (l : list Move) : bool :=
  match l with
  | [] => true
  | b :: t => row_majorb a b && ascending b t
  end.

(** One black stone in the middle of the board. *)
Definition one_stone : State := with_stones "black" [(7, 7)] empty_board.

(** The four tiers of the move ordering, in the words of the ordering rule:
    a win completes five for the mover when played; a block is, among the
    remaining moves, one that would complete five for the opponent; a
    defensive move is, among the remaining ones, one where the opponent
    would get an open threat of length 3 or more. *)
Inductive Tier : Type := Win | Block | Defensive | Rest.

Definition tier_eqb (a b : Tier) : bool :=
  match a, b with
  | Win, Win | Block, Block | Defensive, Defensive | Rest, Rest => true
  | _, _ => false
  end.

(** Playing [m] as [color] completes five in a row. *)
Definition wins_now (s : State) (color : string) (m : Move) : bool :=
  is_win_at (place color s m) (fst m) (snd m) color.

Definition tier (s : State) (mover : string) (m : Move) : Tier :=
  if wins_now s mover m then Win
  else if wins_now s (other_color mover) m then Block
  else if is_open_threat s (fst m) (snd m) (other_color mover) 3 then Defensive
  else Rest.

(** The moves of [l] in tier [t], in the order of [l]. *)
Definition tier_moves (s : State) (mover : string) (t : Tier) (l : list Move) : list Move :=
  filter (fun m => tier_eqb (tier s mover m) t) l.

(** White to move; black threatens five at [(7,2)] and [(7,7)], and has a
    second pair at [(9,9)], [(9,10)]. *)
Definition threat_board : State :=
  with_stones "white" [(3, 3)]
    (with_stones "black" [(7, 3); (7, 4); (7, 5); (7, 6); (9, 9); (9, 10)] empty_board).

(** The tier of a move as the capping block computes it, with the other
    side [opp] named by the caller. *)
Definition tier_against (s : State) (mover opp : string) (m : Move) : Tier :=
  if wins_now s mover m then Win
  else if wins_now s opp m then Block
  else if is_open_threat s (fst m) (snd m) opp 3 then Defensive
  else Rest.

Definition tier_filter (s : State) (mover opp : string) (t : Tier) (l : list Move)
    : list Move :=
  filter (fun m => tier_eqb (tier_against s mover opp m) t) l.

(** The candidates a node or the root iterates over when [mover] is to move
    against [opp]: the ordered candidates, capped if a cap is given. *)
Definition node_moves (s : State) (mover opp : string) (cap : option Z) : list Move :=
  fst (capped mover opp cap (fst (ordered_candidates s mover)) s).

(** Two sides that are each other's opponent: black and white. *)
Definition opponents (a b : string) : Prop :=
  b = other_color a /\ a = other_color b.

(** The capped list in the words of the capping rule: all wins, all blocks,
    all defensive moves, then the first
    [max(0, cap - |wins| - |blocks| - |defensive|)] rest moves. *)
Definition forcing_then_rest (s : State) (mover : string) (cap : Z) : list Move :=
  let cm := candidate_moves s in
  let wins := tier_moves s mover Win cm in
  let blocks := tier_moves s mover Block cm in
  let defensive := tier_moves s mover Defensive cm in
  let rest := tier_moves s mover Rest cm in
  wins ++ blocks ++ defensive
    ++ firstn (Z.to_nat (Z.max 0 (cap - zlen wins - zlen blocks - zlen defensive))) rest.

(** The number of empty cells: the measure that bounds the depth of the
    recursion of [minimax]. *)
Definition count_empty (s : State) : nat := length (get_empty_cells s).

(** What the loops need from the recursive call [rec]: on the board with
    the stone of [color] at [m] it returns and hands that board back. *)
Definition rec_restores (rec : State -> Z -> Z -> option (Z * State))
    (color : string) (s : State) (m : Move) : Prop :=
  forall a b, exists v,
    rec (set_cell s (fst m) (snd m) (Some color)) a b
    = Some (v, set_cell s (fst m) (snd m) (Some color)).

(** A bound on [evaluate]: at most 72 lines, at most 11 windows in a line,
    at most [W_FIVE] for a window.  It exceeds [WIN_VALUE] and stays below
    [INF]. *)
Definition SCORE_BOUND : Z := 79200000.

Definition in_range (v : Z) : Prop := - SCORE_BOUND <= v <= SCORE_BOUND.

(** The recursive call [rec] on the board with the stone of [color] at [m]
    returns a value in range and hands that board back. *)
Definition rec_bounded (rec : State -> Z -> Z -> option (Z * State))
    (color : string) (s : State) (m : Move) : Prop :=
  forall a b, exists v,
    rec (set_cell s (fst m) (snd m) (Some color)) a b
    = Some (v, set_cell s (fst m) (snd m) (Some color))
    /\ in_range v.

(** No cap, or a cap of at least one. *)
Definition cap_positive (cap : option Z) : Prop :=
  forall k, cap = Some k -> 1 <= k.

(** What a pruned value [r] tells about the exact value [t] of a node
    searched in the window [(alpha, beta)]: it is exact inside the window,
    and outside it lies between [t] and the bound that was crossed. *)
Definition fail_soft (r t alpha beta : Z) : Prop :=
  (t <= alpha -> t <= r <= alpha)
  /\ (beta <= t -> beta <= r <= t)
  /\ (alpha < t < beta -> r = t).

(** [rec_full] is the recursive call without pruning, [rec_ab] the one with
    pruning, both on the board with the stone of [color] at [m]: the first
    returns a value [t] whatever bounds it is given, the second a value that
    is [fail_soft] for [t]; both hand the board back. *)
Definition rec_prunes (rec_full rec_ab : State -> Z -> Z -> option (Z * State))
    (color : string) (s : State) (m : Move) : Prop :=
  let s1 := set_cell s (fst m) (snd m) (Some color) in
  exists t,
    (forall a b, rec_full s1 a b = Some (t, s1))
    /\ (forall a b, - INF <= a -> a < b -> b <= INF ->
                    exists r, rec_ab s1 a b = Some (r, s1) /\ fail_soft r t a b).

(** The lines of the board as lists of coordinates, in the words of the
    scoring rule: the 15 rows, the 15 columns, and the diagonals of both
    families that have at least 5 cells. *)
Definition row_line (r : Z) : list Move := map (fun c => (r, c)) (zrange 0 15).

Definition column_line (c : Z) : list Move := map (fun r => (r, c)) (zrange 0 15).

(** The cells with [col - row = k], top to bottom. *)
Definition diagonal_line (k : Z) : list Move :=
  filter (fun m => in_bounds (fst m) (snd m)) (map (fun r => (r, r + k)) (zrange 0 15)).

(** The cells with [row + col = k], top to bottom. *)
Definition antidiagonal_line (k : Z) : list Move :=
  filter (fun m => in_bounds (fst m) (snd m)) (map (fun r => (r, k - r)) (zrange 0 15)).

Definition at_least_five (line : list Move) : bool := 5 <=? zlen line.

Definition maximal_lines : list (list Move) :=
  map row_line (zrange 0 15)
    ++ map column_line (zrange 0 15)
    ++ filter at_least_five (map diagonal_line (zrange (-14) 15))
    ++ filter at_least_five (map antidiagonal_line (zrange 0 29)).

Definition own_stone (s : State) (color : string) (m : Move) : bool :=
  cell_is (cell s (fst m) (snd m)) color.

Definition vacant (s : State) (m : Move) : bool :=
  is_empty (cell s (fst m) (snd m)).

Definition opponent_stone (s : State) (color : string) (m : Move) : bool :=
  negb (own_stone s color m) && negb (vacant s m).

Definition count_if {A : Type} (p : A -> bool) (l : list A) : Z := zlen (filter p l).

(** The cell of [line] at index [i] is open: it exists and is empty.
    Beyond the ends of the line nothing is open. *)
Definition open_at (s : State) (line : list Move) (i : Z) : bool :=
  (0 <=? i) && (i <? zlen line) && vacant s (nth (Z.to_nat i) line (0, 0)).

(** The contribution of the window of 5 cells that starts at index [i] of
    [line], by the table. *)
Definition window_contribution (s : State) (color : string) (line : list Move) (i : Z) : Z :=
  let window := firstn 5 (skipn (Z.to_nat i) line) in
  let own := count_if (own_stone s color) window in
  let opp := count_if (opponent_stone s color) window in
  let empty := count_if (vacant s) window in
  let before := open_at s line (i - 1) in
  let after := open_at s line (i + 5) in
  if 0 <? opp then 0
  else if own =? 5 then 100000
  else if (own =? 4) && (empty =? 1) then (if before || after then 10000 else 3000)
  else if (own =? 3) && (empty =? 2) then (if before && after then 1000 else 200)
  else if (own =? 2) && (empty =? 3) then (if before || after then 50 else 0)
  else 0.

Definition zsum (l : list Z) : Z := fold_right Z.add 0 l.

(** The sum over every window of every line. *)
Definition line_total (s : State) (color : string) (line : list Move) : Z :=
  zsum (map (window_contribution s color line) (zrange 0 (zlen line - 4))).

Definition table_score (s : State) (color : string) : Z :=
  zsum (map (line_total s color) maximal_lines).

(** The coordinates of the lines in the order in which [score_color]
    builds them. *)
Definition scanned_lines : list (list Move) :=
  let n := BOARD_SIZE in
  let rows := map (fun r => map (fun c => (r, c)) (zrange 0 n)) (zrange 0 n) in
  let cols := map (fun c => map (fun r => (r, c)) (zrange 0 n)) (zrange 0 n) in
  let diags :=
    flat_map (fun d =>
      let diag1 :=
        flat_map (fun r =>
          let c1 := r + d in
          if (0 <=? c1) && (c1 <? n) then [(r, c1)] else []) (zrange 0 n) in
      let diag2 :=
        flat_map (fun r =>
          let c2 := (n - 1) - r - d in
          if (0 <=? c2) && (c2 <? n) then [(r, c2)] else []) (zrange 0 n) in
      (if 5 <=? zlen diag1 then [diag1] else [])
        ++ (if 5 <=? zlen diag2 then [diag2] else []))
      (zrange (- (n - 5)) (n - 4)) in
  rows ++ cols ++ diags.

Definition cell_of (s : State) (m : Move) : Cell := cell s (fst m) (snd m).

Fixpoint moves_eqb (a b : list Move) : bool :=
  match a, b with
  | [], [] => true
  | x :: a', y :: b' => move_eqb x y && moves_eqb a' b'
  | _, _ => false
  end.

(** Takes the first occurrence of [x] out of [l]. *)
Fixpoint take_out (x : list Move) (l : list (list Move)) : option (list (list Move)) :=
  match l with
  | [] => None
  | y :: t =>
      if moves_eqb x y then Some t
      else match take_out x t with
           | Some t' => Some (y :: t')
           | None => None
           end
  end.

Fixpoint same_lines (l1 l2 : list (list Move)) : bool :=
  match l1 with
  | [] => is_nil l2
  | x :: t =>
      match take_out x l2 with
      | Some l2' => same_lines t l2'
      | None => false
      end
  end.

(** The cell at [k] steps from [(row, col)] along [d] is on the board and
    holds [color]. *)
Definition holds_at (s : State) (color : string) (row col : Z) (d : Z * Z) (k : Z) : Prop :=
  walk_test s color (row + k * fst d) (col + k * snd d) = true.

(** Five cells in a row along one of the four axes, [(row, col)] among
    them, the other four holding [color]. *)
Definition five_through (s : State) (row col : Z) (color : string) : Prop :=
  exists d, In d directions /\
    exists k, 0 <= k <= 4 /\
      forall j, 0 <= j <= 4 -> j <> k -> holds_at s color row col d (j - k).

(** The run of [color] through [(row, col)] along [d] reaches exactly [nf]
    cells forward and [nb] cells backward. *)
Definition run_through (s : State) (color : string) (row col : Z) (d : Z * Z)
    (nf nb : Z) : Prop :=
  (forall j, 1 <= j <= nf -> holds_at s color row col d j)
  /\ ~ holds_at s color row col d (nf + 1)
  /\ (forall j, 1 <= j <= nb -> holds_at s color row col d (- j))
  /\ ~ holds_at s color row col d (- (nb + 1)).

(** The cell at [k] steps from [(row, col)] along [d] is on the board and
    empty. *)
Definition open_end (s : State) (row col : Z) (d : Z * Z) (k : Z) : Prop :=
  in_bounds (row + k * fst d) (col + k * snd d) = true
  /\ cell s (row + k * fst d) (col + k * snd d) = None.

(** White holds [(7,5)], [(7,6)] with black at [(7,4)]. *)
Definition pair_board : State :=
  with_stones "black" [(7, 4)] (with_stones "white" [(7, 5); (7, 6)] empty_board).

(** The loop [for r, c in candidate_moves(state): if try_move_is_win(...):
    return (r, c)] of [ai_easy], on the board. *)
Fixpoint first_win (color : string) (cands : list Move) (s : State)
    : option Move * State :=
  match cands with
  | [] => (None, s)
  | (r, c) :: tl =>
      let '(w, s1) := try_move_is_win s r c color in
      if w then (Some (r, c), s1) else first_win color tl s1
  end.

(** [random.choice(cand)] on a non-empty list; [draw] is the number the
    generator draws, and every index of the list occurs for some [draw]. *)
Definition random_choice (draw : nat) (cand : list Move) : Move :=
  nth (draw mod length cand) cand (0, 0).

Definition ai_easy (draw : nat) (s : State) (ai_color opp_color : string)
    : option Move * State :=
  match first_win ai_color (candidate_moves s) s with
  | (Some m, s1) => (Some m, s1)
  | (None, s1) =>
      match first_win opp_color (candidate_moves s1) s1 with
      | (Some m, s2) => (Some m, s2)
      | (None, s2) =>
          let cand := candidate_moves s2 in
          (if is_nil cand then None else Some (random_choice draw cand), s2)
      end
  end.

(** The value [ai_search] computes for the root candidate [m]: [minimax] one
    ply down on the board with the stone at [m], with the bounds the root
    passes when it does not prune. *)
Definition root_value (fuel : nat) (s : State) (ai_color opp_color : string)
    (depth : Z) (cap : option Z) (m : Move) : Z :=
  match minimax fuel (set_cell s (fst m) (snd m) (Some ai_color)) (depth - 1) false
                ai_color opp_color (- INF) INF false cap with
  | Some (v, _) => v
  | None => 0
  end.

(** ** [suggest_moves] *)

(** [count_threat_level] where the source calls it at a candidate move: the
    first read is at a cell of the board. *)
Definition count_threat_level (s : State) (row col : Z) (color : string) : Z :=
  if negb (is_empty (cell s row col)) then 0
  else
    fold_left (fun max_count d =>
                 let '(cnt, _, _) := axis_scan s row col color d in
                 Z.max max_count cnt)
              directions 0.

(** A suggestion [(row, col, score, kind)]. *)
Definition Suggestion : Type := (Z * Z * Z * string)%type.

Definition sug_move (x : Suggestion) : Move := let '(r, c, _, _) := x in (r, c).
Definition sug_score (x : Suggestion) : Z := let '(_, _, sc, _) := x in sc.
Definition sug_kind (x : Suggestion) : string := let '(_, _, _, k) := x in k.

(** The first loop of [suggest_moves], over [candidate_moves(state)], on the
    three lists it appends to and on the board. *)
Fixpoint forcing_loop (player opp : string) (cands : list Move) (s : State)
    (wins blocks defensive : list Suggestion)
    : (list Suggestion * list Suggestion * list Suggestion) * State :=
  match cands with
  | [] => ((wins, blocks, defensive), s)
  | (r, c) :: tl =>
      let '(w, s1) := try_move_is_win s r c player in
      if w then
        forcing_loop player opp tl s1 (wins ++ [(r, c, 1000000000, "win")]) blocks defensive
      else
        let '(b, s2) := try_move_is_win s1 r c opp in
        if b then
          forcing_loop player opp tl s2 wins (blocks ++ [(r, c, 100000000, "block")])
                       defensive
        else if is_open_threat s2 r c opp 3 then
          let threat_level := count_threat_level s2 r c opp in
          forcing_loop player opp tl s2 wins blocks
                       (defensive ++ [(r, c, 10000000 + threat_level * 1000, "defensive")])
        else forcing_loop player opp tl s2 wins blocks defensive
  end.

(** [any((r == rr and c == cc) for rr, cc, *_ in l)]. *)
Definition listed (r c : Z) (l : list Suggestion) : bool :=
  existsb (fun x => let '(rr, cc, _, _) := x in (r =? rr) && (c =? cc)) l.

(** [l.sort(key=lambda x: x[2], reverse=True)]: Python's sort is stable,
    also with [reverse=True], so the result is the one list that is in
    descending order of score with equal scores in their original order; an
    insertion sort that puts an element before the first one that does not
    exceed it computes that list. *)
Fixpoint insert_desc (x : Suggestion) (l : list Suggestion) : list Suggestion :=
  match l with
  | [] => [x]
  | y :: t => if sug_score y <=? sug_score x then x :: y :: t else y :: insert_desc x t
  end.

Definition sort_desc (l : list Suggestion) : list Suggestion :=
  fold_right insert_desc [] l.

(** The slice [l[:k]]: a negative [k] counts from the end. *)
Definition py_take {A : Type} (k : Z) (l : list A) : list A :=
  if 0 <=? k then firstn (Z.to_nat k) l
  else firstn (length l - Z.to_nat (- k)) l.

(** The loop of the Easy branch. *)
Fixpoint easy_loop (player : string) (forcing : list Suggestion) (cand : list Move)
    (s : State) (others : list Suggestion) : list Suggestion * State :=
  match cand with
  | [] => (others, s)
  | (r, c) :: tl =>
      if listed r c forcing then easy_loop player forcing tl s others
      else
        let s1 := set_cell s r c (Some player) in
        let sc := evaluate s1 player in
        let s2 := set_cell s1 r c None in
        easy_loop player forcing tl s2 (others ++ [(r, c, sc, "score")])
  end.

(** The inner loop of the Medium branch, over the opponent's first replies,
    with its [break]. *)
Fixpoint reply_loop (opp : string) (replies : list Move) (s : State)
    (opp_best_threat : Z) : Z * State :=
  match replies with
  | [] => (opp_best_threat, s)
  | (r2, c2) :: tl =>
      let '(w, s1) := try_move_is_win s r2 c2 opp in
      if w then (100000000, s1)
      else
        let s2 := set_cell s1 r2 c2 (Some opp) in
        let opp_eval := evaluate s2 opp in
        let s3 := set_cell s2 r2 c2 None in
        reply_loop opp tl s3 (if opp_best_threat <? opp_eval then opp_eval
                              else opp_best_threat)
  end.

(** The loop of the Medium branch. *)
Fixpoint medium_loop (player opp : string) (forcing : list Suggestion)
    (cand : list Move) (s : State) (others : list Suggestion)
    : list Suggestion * State :=
  match cand with
  | [] => (others, s)
  | (r, c) :: tl =>
      if listed r c forcing then medium_loop player opp forcing tl s others
      else
        let s1 := set_cell s r c (Some player) in
        let my_eval := evaluate s1 player in
        let '(opp_best_threat, s2) :=
          reply_loop opp (firstn 10 (candidate_moves s1)) s1 (- 1000000000) in
        let s3 := set_cell s2 r c None in
        let score := my_eval - opp_best_threat in
        medium_loop player opp forcing tl s3 (others ++ [(r, c, score, "score")])
  end.

(** The loop of the Hard branch; [rec st] stands for the call
    [minimax(state, depth - 1, False, player_color, opp, alpha, beta, True,
    max_candidates)] on the board [st]. *)
Fixpoint hard_loop (rec : State -> option (Z * State)) (player : string)
    (forcing : list Suggestion) (cand : list Move) (s : State)
    (others : list Suggestion) : option (list Suggestion * State) :=
  match cand with
  | [] => Some (others, s)
  | (r, c) :: tl =>
      if listed r c forcing then hard_loop rec player forcing tl s others
      else
        let s1 := set_cell s r c (Some player) in
        match (if is_win_at s1 r c player then Some (100000, s1) else rec s1) with
        | None => None
        | Some (val, s2) =>
            let s3 := set_cell s2 r c None in
            hard_loop rec player forcing tl s3 (others ++ [(r, c, val, "search")])
        end
  end.

(** [suggest_moves]; [fuel] is the fuel of the [minimax] calls of the Hard
    branch, and [None] means that one of them ran out. *)
Definition suggest_moves (fuel : nat) (s : State) (player_color difficulty : string)
    (top_k : Z) (max_candidates : option Z) : option (list Suggestion * State) :=
  let opp := other_color player_color in
  let all_cand := candidate_moves s in
  let '((wins, blocks, defensive), s1) :=
    forcing_loop player_color opp all_cand s [] [] [] in
  let '(cand, s2) := ordered_candidates s1 player_color in
  let '(cand, s3) := capped player_color opp max_candidates cand s2 in
  let forcing := wins ++ blocks ++ defensive in
  if String.eqb difficulty "Easy" then
    let '(others, s4) := easy_loop player_color forcing cand s3 [] in
    Some (py_take top_k (forcing ++ sort_desc others), s4)
  else if String.eqb difficulty "Medium" then
    let '(others, s4) := medium_loop player_color opp forcing cand s3 [] in
    Some (py_take top_k (forcing ++ sort_desc others), s4)
  else
    let depth := 2 in
    let alpha := - 1000000000 in
    let beta := 1000000000 in
    match hard_loop (fun st => minimax fuel st (depth - 1) false player_color opp
                                       alpha beta true max_candidates)
                    player_color forcing cand s3 [] with
    | None => None
    | Some (others, s4) => Some (py_take top_k (forcing ++ sort_desc others), s4)
    end.

(** [compute_suggestions] of [suggestion_overlay.py]. *)
Definition compute_suggestions (fuel : nat) (s : State) (player_color : string)
    (top_k : Z) (difficulty : string) : option (list Suggestion * State) :=
  suggest_moves fuel s player_color difficulty top_k (Some 12).

(** The entries of [suggest_moves] in the words of its docstring and
    comments. *)
Definition win_entry (m : Move) : Suggestion := (fst m, snd m, 1000000000, "win").

Definition block_entry (m : Move) : Suggestion := (fst m, snd m, 100000000, "block").

Definition defensive_entry (s : State) (opp : string) (m : Move) : Suggestion :=
  (fst m, snd m, 10000000 + count_threat_level s (fst m) (snd m) opp * 1000, "defensive").

(** Every immediate win, then every immediate block, then every defensive
    move among the candidates. *)
Definition forcing_entries (s : State) (player : string) : list Suggestion :=
  let cm := candidate_moves s in
  map win_entry (tier_moves s player Win cm)
    ++ map block_entry (tier_moves s player Block cm)
    ++ map (defensive_entry s (other_color player)) (tier_moves s player Defensive cm).

(** The candidates that get a computed score: the rest moves of the
    (capped) ordered candidates. *)
Definition scored_moves (s : State) (player : string) (cap : option Z) : list Move :=
  tier_moves s player Rest (node_moves s player (other_color player) cap).

Definition easy_entry (s : State) (player : string) (m : Move) : Suggestion :=
  (fst m, snd m, evaluate (place player s m) player, "score").

Definition medium_entry (s : State) (player : string) (m : Move) : Suggestion :=
  let s1 := place player s m in
  (fst m, snd m,
   evaluate s1 player
   - fst (reply_loop (other_color player) (firstn 10 (candidate_moves s1)) s1
                     (- 1000000000)),
   "score").

Definition hard_entry (fuel : nat) (s : State) (player : string) (cap : option Z)
    (m : Move) : Suggestion :=
  let s1 := place player s m in
  (fst m, snd m,
   (if is_win_at s1 (fst m) (snd m) player then 100000
    else match minimax fuel s1 1 false player (other_color player)
                       (- 1000000000) 1000000000 true cap with
         | Some (v, _) => v
         | None => 0
         end),
   "search").

Definition scored_entry (fuel : nat) (s : State) (player difficulty : string)
    (cap : option Z) : Move -> Suggestion :=
  if String.eqb difficulty "Easy" then easy_entry s player
  else if String.eqb difficulty "Medium" then medium_entry s player
  else hard_entry fuel s player cap.

(** Descending order of score, the order of [sort(key=lambda x: x[2],
    reverse=True)]. *)
Definition score_ge (a b : Suggestion) : Prop := sug_score b <= sug_score a.

(** The entries of [l] with score [v], in the order of [l]. *)
Definition with_score (v : Z) (l : list Suggestion) : list Suggestion :=
  filter (fun x => sug_score x =? v) l.

(** The kind of a scored entry: ["score"] for Easy and Medium, ["search"]
    for every other difficulty. *)
Definition scored_kind (difficulty : string) : string :=
  if String.eqb difficulty "Easy" then "score"
  else if String.eqb difficulty "Medium" then "score"
  else "search".

(** What the Medium branch subtracts: [10**8] when one of the first ten
    candidates of the board wins for the opponent, else the largest
    evaluation the opponent reaches with one of them, starting from
    [-10**9]. *)
Definition reply_value (opp : string) (s : State) : Z :=
  let replies := firstn 10 (candidate_moves s) in
  if existsb (wins_now s opp) replies then 100000000
  else fold_left (fun best m => Z.max best (evaluate (place opp s m) opp))
                 replies (- 1000000000).

(** ** The [check_winner] methods of the two game windows *)

(** The loop
    [while 0 <= r < 15 and 0 <= c < 15 and test(r, c): count += 1; r += dx; c += dy]
    of both [check_winner] methods, with the test on the cell as a
    parameter; [fuel] bounds the iterations as in [walk]. *)
Fixpoint count_while (fuel : nat) (test : Z -> Z -> bool) (dx dy count r c : Z)
    : Z * Z * Z :=
  match fuel with
  | O => (count, r, c)
  | S k =>
      if in_bounds r c && test r c
      then count_while k test dx dy (count + 1) (r + dx) (c + dy)
      else (count, r, c)
  end.

(** The [for dx, dy in directions] loop of both methods: [True] at the first
    direction with [count >= 5], [False] after the last. *)
Definition line_of_five (test : Z -> Z -> bool) (row col : Z) : bool :=
  existsb (fun d =>
             let '(dx, dy) := d in
             let count := 1 in
             let '(count, _, _) :=
               count_while walk_fuel test dx dy count (row + dx) (col + dy) in
             let '(count, _, _) :=
               count_while walk_fuel test (- dx) (- dy) count (row - dx) (col - dy) in
             5 <=? count)
          directions.

(** [a == b] on cells: [None == None] holds. *)
Definition cell_eqb (a b : Cell) : bool :=
  match a, b with
  | Some x, Some y => String.eqb x y
  | None, None => true
  | _, _ => false
  end.

Module SinglePlayer.

(** [check_winner] of [single_player.py], on [self.state]: the colour is
    read at [(row, col)] with Python's index, and the loops compare with
    it.  [None] is the raised [IndexError]. *)
Definition check_winner (state : State) (row col : Z) : option bool :=
  match Py.getitem state row col with
  | None => None
  | Some color =>
      Some (line_of_five (fun r c => cell_eqb (cell state r c) color) row col)
  end.

End SinglePlayer.

Module PvP.

(** [self.board]: the canvas item of the stone drawn at a cell, or
    [None]. *)
Definition Board : Type := list (list (option Z)).

Definition item_at (board : Board) (r c : Z) : option Z :=
  nth (Z.to_nat c) (nth (Z.to_nat r) board []) None.

(** [self.board[r][c] is not None]. *)
Definition occupied (board : Board) (r c : Z) : bool :=
  match item_at board r c with Some _ => true | None => false end.

(** [check_winner] of [player_vs_player.py], on [self.board]: the loops
    test [self.board[r][c] is not None]. *)
Definition check_winner (board : Board) (row col : Z) : bool :=
  line_of_five (occupied board) row col.

End PvP.

(** Five cells in a row along one of the four axes, [(row, col)] among
    them, the other four on the board and passing [test]. *)
Definition five_line (test : Z -> Z -> bool) (row col : Z) : Prop :=
  exists d, In d directions /\
    exists k, 0 <= k <= 4 /\
      forall j, 0 <= j <= 4 -> j <> k ->
        in_bounds (row + (j - k) * fst d) (col + (j - k) * snd d) = true
        /\ test (row + (j - k) * fst d) (col + (j - k) * snd d) = true.

(** The board that holds a stone exactly where [test] holds. *)
Definition painted (test : Z -> Z -> bool) : State :=
  map (fun r => map (fun c => if test r c then Some "x" else None) (zrange 0 15))
      (zrange 0 15).

(** [self.board] and [self.state] hold stones at the same cells. *)
Definition in_step (board : PvP.Board) (state : State) : Prop :=
  forall r c, in_bounds r c = true ->
    (PvP.item_at board r c = None <-> cell state r c = None).

(** A [self.board] for a state: an item wherever the state holds a stone. *)
Definition drawn (state : State) : PvP.Board :=
  map (map (fun v : Cell => match v with Some _ => Some 1 | None => None end)) state.

(** Black at [(7,3)], [(7,4)], [(7,7)], white at [(7,5)], [(7,6)]: five
    stones in a row, of two colours. *)
Definition mixed_row : State :=
  with_stones "white" [(7, 5); (7, 6)]
    (with_stones "black" [(7, 3); (7, 4); (7, 7)] empty_board).

(** [four_in_row] with a fifth black stone at [(7,7)]. *)
Definition five_in_row : State := place "black" four_in_row (7, 7).

(** ** The game windows: [place_stone] and [undo_move]

    Both windows keep [self.board] (the canvas items) next to [self.state]
    (the colours), and their [place_stone] and [undo_move] methods are the
    same code. *)

(** The two calls the methods make on their tkinter canvas,
    [create_oval(x0, y0, x1, y1, fill=, outline=, width=)], which returns the
    new item, and [delete(item)].  Nothing is assumed about them. *)
Class Tk (Canvas : Type) : Type := {
  create_oval : Canvas -> Z * Z * Z * Z -> string -> string -> Z -> Z * Canvas;
  delete : Canvas -> Z -> Canvas
}.

(** An entry of [self.move_log]. *)
Record LogEntry : Type := {
  entry_move_no : Z;
  entry_player : string;
  entry_row : Z;
  entry_col : Z;
  entry_elapsed_seconds : Z
}.

(** The attributes of a window that the two methods read or write. *)
Record Window (Canvas : Type) : Type := {
  board_canvas : Canvas;
  board : PvP.Board;
  state : State;
  current_player : string;
  timer_seconds : Z;
  move_log : list LogEntry
}.

Arguments board_canvas {Canvas} _.
Arguments board {Canvas} _.
Arguments state {Canvas} _.
Arguments current_player {Canvas} _.
Arguments timer_seconds {Canvas} _.
Arguments move_log {Canvas} _.

(** [self.board[r][c] = v]; like [set_cell], the model leaves the board
    alone outside the 15x15 range, where the callers never write. *)
Definition set_item (b : PvP.Board) (r c : Z) (v : option Z) : PvP.Board :=
  if in_bounds r c
  then list_set b (Z.to_nat r) (list_set (nth (Z.to_nat r) b []) (Z.to_nat c) v)
  else b.

(** A [self.board] as the windows build it: 15 rows of 15 cells. *)
Definition wf_items (b : PvP.Board) : bool :=
  (length b =? Z.to_nat BOARD_SIZE)%nat
  && forallb (fun row => (length row =? Z.to_nat BOARD_SIZE)%nat) b.

Definition place_stone {Canvas : Type} {tk : Tk Canvas} (w : Window Canvas)
    (row col : Z) (color : string) : Window Canvas :=
  let cell_size := 32 in
  let margin := 15 in
  let x := margin + col * cell_size in
  let y := margin + row * cell_size in
  let fill := if String.eqb color "black" then "#1a1a1a" else "white" in
  let outline := if String.eqb color "black" then "#000000" else "#d0d0d0" in
  let '(stone, canvas) :=
    create_oval (board_canvas w) (x - 12, y - 12, x + 12, y + 12) fill outline 2 in
  let board1 := set_item (board w) row col (Some stone) in
  let state1 := set_cell (state w) row col (Some color) in
  let elapsed := timer_seconds w in
  let entry := {| entry_move_no := zlen (move_log w) + 1;
                  entry_player := color;
                  entry_row := row;
                  entry_col := col;
                  entry_elapsed_seconds := elapsed |} in
  {| board_canvas := canvas;
     board := board1;
     state := state1;
     current_player := current_player w;
     timer_seconds := timer_seconds w;
     move_log := move_log w ++ [entry] |}.

(** Python's [range(hi, lo, -1)]. *)
Definition zrange_down (hi lo : Z) : list Z :=
  map (fun k => hi - Z.of_nat k) (seq 0 (Z.to_nat (hi - lo))).

(** The cells in the order of
    [for row in range(14, -1, -1): for col in range(14, -1, -1)]. *)
Definition cells_down : list Move :=
  flat_map (fun r => map (fun c => (r, c)) (zrange_down 14 (-1))) (zrange_down 14 (-1)).

(** [undo_move]: the two loops stop at the first cell with an item, which
    is deleted from the canvas and cleared in [self.board] and
    [self.state]; the player to move is flipped. *)
Definition undo_move {Canvas : Type} {tk : Tk Canvas} (w : Window Canvas)
    : Window Canvas :=
  match find (fun m => PvP.occupied (board w) (fst m) (snd m)) cells_down with
  | None => w
  | Some (row, col) =>
      match PvP.item_at (board w) row col with
      | None => w
      | Some item =>
          {| board_canvas := delete (board_canvas w) item;
             board := set_item (board w) row col None;
             state := set_cell (state w) row col None;
             current_player := other_color (current_player w);
             timer_seconds := timer_seconds w;
             move_log := move_log w |}
      end
  end.

(** A canvas that hands out item numbers in turn and forgets its items. *)
#[export] Instance counter_canvas : Tk Z := {|
  create_oval := fun n _ _ _ _ => (n, n + 1);
  delete := fun n _ => n
|}.

(** A window on a state, with the items of [drawn] on its board. *)
Definition window_of (s : State) (to_move : string) : Window Z :=
  {| board_canvas := 2;
     board := drawn s;
     state := s;
     current_player := to_move;
     timer_seconds := 0;
     move_log := [] |}.

(** ** The worker of [computer_move]

    The move the worker thread of [computer_move] of [single_player.py]
    computes on [self.state] before it hands it to [_apply_ai_move]:
    [draw] is the draw of [random.choice] in [ai_easy], [draw'] the draw of
    the fallback [random.choice(empties)], [fuel] the fuel of the search. *)
Definition worker (fuel draw draw' : nat) (s : State)
    (difficulty ai_color player_color : string) : option (option Move * State) :=
  match (if String.eqb difficulty "Easy" then
           Some (ai_easy draw s ai_color player_color)
         else if String.eqb difficulty "Hard" then
           ai_search fuel s ai_color player_color 3 true (Some 12)
         else
           ai_search fuel s ai_color player_color 2 false (Some 10)) with
  | None => None
  | Some (Some m, s1) => Some (Some m, s1)
  | Some (None, s1) =>
      let empties := get_empty_cells s1 in
      Some (if is_nil empties then None else Some (random_choice draw' empties), s1)
  end.

(** ** [_infer_move_facts] of [gomoku_coach.py] *)

(** [_is_edge_move(row, col, board_size, margin)]. *)
Definition is_edge_move (row col board_size margin : Z) : bool :=
  (row <? margin) || (col <? margin)
  || (board_size - margin <=? row) || (board_size - margin <=? col).

(** The keys of the [facts] dictionary. *)
Record MoveFacts : Type := {
  fact_mover : string;
  fact_row : Z;
  fact_col : Z;
  missed_win : bool;
  missed_block : bool;
  weak_edge : bool;
  low_value : bool;
  better_moves : list (Z * Z * string);
  played_kind : option string
}.

(** [x == k] for [x] a kind or [None]. *)
Definition kind_is (x : option string) (k : string) : bool :=
  match x with Some y => String.eqb y k | None => false end.

(** The loop [for idx, (sr, sc, score, kind) in enumerate(suggestions)] on
    [played_in_suggestions], [played_score_rank] and
    [facts["better_moves"]]. *)
Fixpoint facts_loop (row col : Z) (suggestions : list Suggestion) (idx : Z)
    (played_in_suggestions : option string) (played_score_rank : option Z)
    (better : list (Z * Z * string))
    : option string * option Z * list (Z * Z * string) :=
  match suggestions with
  | [] => (played_in_suggestions, played_score_rank, better)
  | (sr, sc, score, kind) :: tl =>
      let '(played_in_suggestions, played_score_rank) :=
        if (sr =? row) && (sc =? col) then (Some kind, Some idx)
        else (played_in_suggestions, played_score_rank) in
      let better :=
        if String.eqb kind "win" || String.eqb kind "block"
        then better ++ [(sr, sc, kind)] else better in
      facts_loop row col tl (idx + 1) played_in_suggestions played_score_rank better
  end.

(** [_infer_move_facts]; on the 15x15 boards [analyze_game_rule_based]
    builds, [compute_suggestions] raises nothing, so the [except] branch is
    not taken.  [None] means that the search ran out of [fuel]. *)
Definition infer_move_facts (fuel : nat) (temp_state : State) (mover : string)
    (row col : Z) (difficulty : string) : option (MoveFacts * State) :=
  match compute_suggestions fuel temp_state mover 6 difficulty with
  | None => None
  | Some (suggestions, s1) =>
      let has_win := existsb (fun x => String.eqb (sug_kind x) "win") suggestions in
      let has_block := existsb (fun x => String.eqb (sug_kind x) "block") suggestions in
      let '(played_in_suggestions, played_score_rank, better) :=
        facts_loop row col suggestions 0 None None [] in
      let missed_win := has_win && negb (kind_is played_in_suggestions "win") in
      let missed_block :=
        has_block && negb (kind_is played_in_suggestions "win"
                           || kind_is played_in_suggestions "block") in
      let low_value :=
        (kind_is played_in_suggestions "score" || kind_is played_in_suggestions "search")
        && match played_score_rank with Some k => 4 <=? k | None => false end in
      let weak_edge :=
        is_edge_move row col 15 1
        && match played_in_suggestions with None => true | Some _ => false end in
      Some ({| fact_mover := mover;
               fact_row := row;
               fact_col := col;
               missed_win := missed_win;
               missed_block := missed_block;
               weak_edge := weak_edge;
               low_value := low_value;
               better_moves := better;
               played_kind := played_in_suggestions |}, s1)
  end.
(** The list [_infer_move_facts] gets from [compute_suggestions]: the first
    six ranked entries, with the cap of 12. *)
Definition suggested (fuel : nat) (s : State) (mover difficulty : string)
    : list Suggestion :=
  py_take 6 (forcing_entries s mover
               ++ sort_desc (map (scored_entry fuel s mover difficulty (Some 12))
                                 (scored_moves s mover (Some 12)))).

(** The value of the reply [m] of [opp] at a minimizing node one ply above
    the leaves: [-100000] if it completes five, else the evaluation of the
    board with the reply played, from the side of [ai]. *)
Definition reply_score (s : State) (ai opp : string) (m : Move) : Z :=
  if wins_now s opp m then - 100000 else evaluate (place opp s m) ai.

(** The value of the move [m] of [ai] two plies deep: the least
    [reply_score] over the replies of [opp] on the board with [m] played
    (the evaluation of that board if it is full). *)
Definition two_ply_value (s : State) (ai opp : string) (cap : option Z) (m : Move) : Z :=
  let s1 := place ai s m in
  if is_nil (candidate_moves s1) then evaluate s1 ai
  else fold_left (fun v r => Z.min v (reply_score s1 ai opp r))
                 (node_moves s1 opp ai cap) 1000000000.

(** * Properties *)

(** ** The functions on concrete boards *)

Example candidate_moves_empty_board : candidate_moves empty_board = [(7, 7)].
Proof. reflexivity. Qed.

Example candidate_moves_one_stone :
  candidate_moves one_stone
  = [(5, 5); (5, 6); (5, 7); (5, 8); (5, 9); (6, 5); (6, 6); (6, 7); (6, 8); (6, 9);
     (7, 5); (7, 6); (7, 8); (7, 9); (8, 5); (8, 6); (8, 7); (8, 8); (8, 9);
     (9, 5); (9, 6); (9, 7); (9, 8); (9, 9)].
Proof. vm_compute. reflexivity. Qed.

Example is_win_at_four_in_row :
  is_win_at four_in_row 7 7 "black" = true
  /\ is_win_at four_in_row 7 2 "black" = true
  /\ is_win_at four_in_row 7 8 "black" = false
  /\ is_win_at four_in_row 7 7 "white" = false.
Proof. repeat split; vm_compute; reflexivity. Qed.

Example is_open_threat_winning_board :
  is_open_threat winning_board 6 5 "black" 3 = true
  /\ is_open_threat winning_board 0 0 "black" 3 = false
  /\ PyScan.count_threat_level winning_board 6 5 "black" = Some 4.
Proof. repeat split; vm_compute; reflexivity. Qed.

Example evaluate_winning_board : evaluate winning_board "white" = 7150.
Proof. vm_compute. reflexivity. Qed.

(** White completes five at [(5,5)], and a search of depth 1 plays there. *)
Example ai_search_takes_win :
  ai_search 225 winning_board "white" "black" 1 false None
  = Some (Some (5, 5), winning_board).
Proof. vm_compute. reflexivity. Qed.

(** ** Ranges, bounds and board cells *)

Lemma in_zrange (lo hi x : Z) : In x (zrange lo hi) <-> lo <= x < hi.
Proof.
  unfold zrange. rewrite in_map_iff. split.
  - intros [k [<- Hk]]. apply in_seq in Hk. lia.
  - intros H. exists (Z.to_nat (x - lo)). split; [lia|].
    apply in_seq. lia.
Qed.

Lemma zrange_cons (lo hi : Z) :
  lo < hi -> zrange lo hi = lo :: zrange (lo + 1) hi.
Proof.
  intros H. unfold zrange.
  replace (Z.to_nat (hi - lo)) with (S (Z.to_nat (hi - (lo + 1)))) by lia.
  cbn [seq map]. f_equal; [lia|].
  rewrite <- seq_shift, map_map. apply map_ext. intros k. lia.
Qed.

Lemma zrange_nil (lo hi : Z) : hi <= lo -> zrange lo hi = [].
Proof.
  intros H. unfold zrange. replace (Z.to_nat (hi - lo)) with 0%nat by lia.
  reflexivity.
Qed.

Lemma zrange_length (lo hi : Z) : length (zrange lo hi) = Z.to_nat (hi - lo).
Proof. unfold zrange. now rewrite length_map, length_seq. Qed.

Lemma in_bounds_spec (r c : Z) :
  in_bounds r c = true <-> (0 <= r < 15 /\ 0 <= c < 15).
Proof.
  unfold in_bounds, BOARD_SIZE.
  rewrite !andb_true_iff, !Z.leb_le, !Z.ltb_lt. lia.
Qed.

Lemma in_bounds_false (r c : Z) :
  in_bounds r c = false <-> ~ (0 <= r < 15 /\ 0 <= c < 15).
Proof.
  rewrite <- in_bounds_spec. destruct (in_bounds r c); split; congruence.
Qed.

Lemma in_all_cells (m : Move) :
  In m all_cells <-> in_bounds (fst m) (snd m) = true.
Proof.
  unfold all_cells. rewrite in_flat_map, in_bounds_spec. destruct m as [r c]; cbn [fst snd].
  split.
  - intros [r' [Hr Hc]]. apply in_map_iff in Hc. destruct Hc as [c' [E Hc]].
    inversion E; subst. apply in_zrange in Hr, Hc. unfold BOARD_SIZE in *. lia.
  - intros [Hr Hc]. exists r. split; [apply in_zrange; unfold BOARD_SIZE; lia|].
    apply in_map_iff. exists c. split; [reflexivity|].
    apply in_zrange; unfold BOARD_SIZE; lia.
Qed.

Lemma wf_board_spec (s : State) :
  wf_board s = true <->
  (length s = 15%nat /\ forall row, In row s -> length row = 15%nat).
Proof.
  unfold wf_board, BOARD_SIZE. rewrite andb_true_iff, Nat.eqb_eq, forallb_forall.
  change (Z.to_nat 15) with 15%nat.
  split; intros [H1 H2]; split; auto; intros row Hrow.
  - apply Nat.eqb_eq. auto.
  - apply Nat.eqb_eq. auto.
Qed.

Section ListSet.

Context {A : Type}.

Lemma list_set_length (l : list A) (n : nat) (x : A) :
  length (list_set l n x) = length l.
Proof.
  revert n. induction l as [|h t IH]; intros [|n]; cbn; auto.
Qed.

Lemma nth_list_set_same (l : list A) (n : nat) (x d : A) :
  (n < length l)%nat -> nth n (list_set l n x) d = x.
Proof.
  revert n. induction l as [|h t IH]; intros [|n] H; cbn in *; try lia; auto.
  apply IH. lia.
Qed.

Lemma nth_list_set_other (l : list A) (n k : nat) (x d : A) :
  n <> k -> nth k (list_set l n x) d = nth k l d.
Proof.
  revert n k. induction l as [|h t IH]; intros [|n] [|k] H; cbn; auto; try lia.
Qed.

Lemma list_set_same (l : list A) (n : nat) (d : A) :
  list_set l n (nth n l d) = l.
Proof.
  revert n. induction l as [|h t IH]; intros [|n]; cbn; auto.
  now rewrite IH.
Qed.

Lemma list_set_twice (l : list A) (n : nat) (x y : A) :
  list_set (list_set l n x) n y = list_set l n y.
Proof.
  revert n. induction l as [|h t IH]; intros [|n]; cbn; auto.
  now rewrite IH.
Qed.

Lemma in_list_set (l : list A) (n : nat) (x y : A) :
  In y (list_set l n x) -> y = x \/ In y l.
Proof.
  revert n. induction l as [|h t IH]; intros [|n]; cbn; auto.
  - intros [H|H]; auto.
  - intros [H|H]; auto. apply IH in H. tauto.
Qed.

End ListSet.

Lemma wf_set_cell (s : State) (r c : Z) (v : Cell) :
  wf_board s = true -> wf_board (set_cell s r c v) = true.
Proof.
  intros Hwf. unfold set_cell. destruct (in_bounds r c) eqn:Hb; auto.
  apply wf_board_spec in Hwf. destruct Hwf as [Hlen Hrows].
  apply in_bounds_spec in Hb.
  apply wf_board_spec. split.
  - now rewrite list_set_length.
  - intros row Hrow. apply in_list_set in Hrow. destruct Hrow as [->|Hrow]; auto.
    rewrite list_set_length. apply Hrows. apply nth_In. lia.
Qed.

Lemma cell_set_same (s : State) (r c : Z) (v : Cell) :
  wf_board s = true -> in_bounds r c = true -> cell (set_cell s r c v) r c = v.
Proof.
  intros Hwf Hb. unfold set_cell, cell. rewrite Hb.
  apply wf_board_spec in Hwf. destruct Hwf as [Hlen Hrows].
  apply in_bounds_spec in Hb.
  rewrite nth_list_set_same by lia.
  apply nth_list_set_same. rewrite (Hrows (nth (Z.to_nat r) s [])); [lia|].
  apply nth_In. lia.
Qed.

Lemma cell_set_other (s : State) (r c r' c' : Z) (v : Cell) :
  in_bounds r' c' = true -> (r', c') <> (r, c) ->
  cell (set_cell s r c v) r' c' = cell s r' c'.
Proof.
  intros Hb' Hne. unfold set_cell. destruct (in_bounds r c) eqn:Hb; auto.
  unfold cell. apply in_bounds_spec in Hb, Hb'.
  destruct (Z.eq_dec r r') as [->|Hr].
  - destruct (Nat.lt_ge_cases (Z.to_nat r') (length s)) as [Hlt|Hge].
    + rewrite nth_list_set_same by lia.
      apply nth_list_set_other. intros E. apply Hne. f_equal. lia.
    + rewrite (nth_overflow (list_set _ _ _)) by (rewrite list_set_length; lia).
      now rewrite (nth_overflow s) by lia.
  - rewrite nth_list_set_other by lia. reflexivity.
Qed.

Lemma set_cell_twice (s : State) (r c : Z) (v w : Cell) :
  wf_board s = true ->
  set_cell (set_cell s r c v) r c w = set_cell s r c w.
Proof.
  intros Hwf. unfold set_cell. destruct (in_bounds r c) eqn:Hb; auto.
  apply wf_board_spec in Hwf. destruct Hwf as [Hlen _].
  apply in_bounds_spec in Hb.
  rewrite nth_list_set_same by lia.
  now rewrite !list_set_twice.
Qed.

Lemma set_cell_same (s : State) (r c : Z) :
  set_cell s r c (cell s r c) = s.
Proof.
  unfold set_cell, cell. destruct (in_bounds r c); auto.
  now rewrite !list_set_same.
Qed.

(** Writing a stone on an empty cell and writing [None] back restores the
    board. *)
Lemma place_undo (s : State) (r c : Z) (v : Cell) :
  wf_board s = true -> cell s r c = None ->
  set_cell (set_cell s r c v) r c None = s.
Proof.
  intros Hwf He. rewrite set_cell_twice by assumption.
  rewrite <- He. apply set_cell_same.
Qed.

(** ** The scanning loop *)

Lemma walk_exits_gen (s : State) (color : string) (dx dy : Z) :
  unit_step dx dy ->
  forall fuel cnt r c,
    (in_bounds r c = true -> room dx dy r c < Z.of_nat fuel) ->
    let '(_, r', c') := walk fuel s color dx dy cnt r c in
    walk_test s color r' c' = false.
Proof.
  intros Hd. induction fuel as [|k IH]; intros cnt r c Hroom.
  - cbn. unfold walk_test. destruct (in_bounds r c) eqn:Hb; auto.
    specialize (Hroom eq_refl). apply in_bounds_spec in Hb.
    unfold room, unit_step in *.
    destruct (dx =? 1) eqn:E1; [lia|].
    destruct (dx =? -1) eqn:E2; [lia|].
    destruct (dy =? 1) eqn:E3; lia.
  - cbn [walk]. fold (walk_test s color r c).
    destruct (walk_test s color r c) eqn:Ht; [|exact Ht].
    apply IH. intros Hb'.
    unfold walk_test in Ht. apply andb_true_iff in Ht. destruct Ht as [Hb _].
    specialize (Hroom Hb). apply in_bounds_spec in Hb, Hb'.
    unfold room, unit_step in *.
    destruct (dx =? 1) eqn:E1; [lia|].
    destruct (dx =? -1) eqn:E2; [lia|].
    destruct (dy =? 1) eqn:E3; lia.
Qed.

(** [walk_fuel] iterations are enough: the loop is left because its test
    fails. *)
Lemma walk_exits (s : State) (color : string) (dx dy cnt r c : Z) :
  unit_step dx dy ->
  let '(_, r', c') := walk walk_fuel s color dx dy cnt r c in
  walk_test s color r' c' = false.
Proof.
  intros Hd. apply walk_exits_gen; auto.
  intros Hb. apply in_bounds_spec in Hb. unfold room, walk_fuel, BOARD_SIZE.
  destruct (dx =? 1); [lia|]. destruct (dx =? -1); [lia|].
  destruct (dy =? 1); lia.
Qed.

Lemma walk_S (fuel : nat) (s : State) (color : string) (dx dy cnt r c : Z) :
  walk (S fuel) s color dx dy cnt r c =
  if walk_test s color r c
  then walk fuel s color dx dy (cnt + 1) (r + dx) (c + dy)
  else (cnt, r, c).
Proof. reflexivity. Qed.

Lemma walk_stable (s : State) (color : string) (dx dy : Z) :
  forall fuel cnt r c,
    (let '(_, r', c') := walk fuel s color dx dy cnt r c in
     walk_test s color r' c' = false) ->
    walk (S fuel) s color dx dy cnt r c = walk fuel s color dx dy cnt r c.
Proof.
  induction fuel as [|k IH]; intros cnt r c H.
  - rewrite walk_S. cbn in *. now rewrite H.
  - rewrite (walk_S (S k) s color dx dy cnt r c).
    rewrite (walk_S k s color dx dy cnt r c) in H.
    rewrite (walk_S k s color dx dy cnt r c).
    destruct (walk_test s color r c); [apply IH; exact H|reflexivity].
Qed.

(** More fuel than [walk_fuel] changes nothing. *)
Lemma walk_fuel_enough (s : State) (color : string) (dx dy cnt r c : Z) (k : nat) :
  unit_step dx dy ->
  walk (k + walk_fuel) s color dx dy cnt r c = walk walk_fuel s color dx dy cnt r c.
Proof.
  intros Hd. induction k as [|k IH]; [reflexivity|].
  cbn [Nat.add]. rewrite walk_stable; [exact IH|].
  rewrite IH. apply walk_exits; assumption.
Qed.

Lemma directions_unit (d : Z * Z) :
  In d directions -> unit_step (fst d) (snd d) /\ unit_step (- fst d) (- snd d).
Proof.
  unfold directions, unit_step. cbn.
  intros [<-|[<-|[<-|[<-|[]]]]]; cbn; lia.
Qed.

(** [walk] reads only the cells in front of its starting point. *)
Lemma walk_agree (s1 s2 : State) (color : string) (dx dy : Z) :
  forall fuel cnt r c,
    (forall k, 0 <= k -> in_bounds (r + k * dx) (c + k * dy) = true ->
               cell s1 (r + k * dx) (c + k * dy) = cell s2 (r + k * dx) (c + k * dy)) ->
    walk fuel s1 color dx dy cnt r c = walk fuel s2 color dx dy cnt r c.
Proof.
  induction fuel as [|n IH]; intros cnt r c H; [reflexivity|].
  cbn [walk]. destruct (in_bounds r c) eqn:Hb; cbn [andb]; [|reflexivity].
  assert (E : cell s1 r c = cell s2 r c).
  { specialize (H 0). rewrite !Z.mul_0_l, !Z.add_0_r in H. apply H; [lia|assumption]. }
  rewrite E. destruct (cell_is (cell s2 r c) color); [|reflexivity].
  apply IH. intros k Hk Hbk.
  replace (r + dx + k * dx) with (r + (k + 1) * dx) in * by lia.
  replace (c + dy + k * dy) with (c + (k + 1) * dy) in * by lia.
  apply H; [lia|assumption].
Qed.

(** Two boards that differ at most at [(row, col)] give the same scan
    through [(row, col)]. *)
Lemma axis_scan_agree (s1 s2 : State) (row col : Z) (color : string) (d : Z * Z) :
  (fst d <> 0 \/ snd d <> 0) ->
  (forall r c, in_bounds r c = true -> (r, c) <> (row, col) ->
               cell s1 r c = cell s2 r c) ->
  axis_scan s1 row col color d = axis_scan s2 row col color d.
Proof.
  destruct d as [dx dy]. cbn [fst snd]. intros Hd H. unfold axis_scan.
  rewrite (walk_agree s1 s2 color dx dy walk_fuel 1 (row + dx) (col + dy)).
  2:{ intros k Hk Hb. apply H; [assumption|]. intros E. inversion E. nia. }
  destruct (walk walk_fuel s2 color dx dy 1 (row + dx) (col + dy)) as [[cnt rf] cf].
  rewrite (walk_agree s1 s2 color (- dx) (- dy) walk_fuel cnt (row - dx) (col - dy)).
  2:{ intros k Hk Hb. apply H; [assumption|]. intros E. inversion E. nia. }
  reflexivity.
Qed.

Lemma existsb_ext_in {A : Type} (f g : A -> bool) (l : list A) :
  (forall x, In x l -> f x = g x) -> existsb f l = existsb g l.
Proof.
  induction l as [|h t IH]; intros H; cbn; [reflexivity|].
  rewrite H by (left; reflexivity). rewrite IH; [reflexivity|].
  intros x Hx. apply H. right. exact Hx.
Qed.

Lemma is_win_at_agree (s1 s2 : State) (row col : Z) (color : string) :
  (forall r c, in_bounds r c = true -> (r, c) <> (row, col) ->
               cell s1 r c = cell s2 r c) ->
  is_win_at s1 row col color = is_win_at s2 row col color.
Proof.
  intros H. unfold is_win_at. apply existsb_ext_in. intros d Hd.
  rewrite (axis_scan_agree s1 s2 row col color d); auto.
  apply directions_unit in Hd. unfold unit_step in Hd. tauto.
Qed.

Lemma is_win_at_set_cell (s : State) (row col : Z) (color : string) (v : Cell) :
  is_win_at (set_cell s row col v) row col color = is_win_at s row col color.
Proof.
  apply is_win_at_agree. intros r c Hb Hne. now apply cell_set_other.
Qed.

(** ** [is_win_at] and the queried cell *)

(** C10.  [is_win_at] never reads the queried cell: on two boards that agree
    on every cell of the board except [(row, col)] it returns the same
    result.  It counts outward from [(row, col)] as if that cell held
    [color]; whatever is written at [(row, col)], empty or an opponent's
    stone, the result stays what it was, so it can be [true] there. *)
Theorem is_win_at_ignores_queried_cell
    (s1 s2 : State) (row col : Z) (color : string) :
  in_bounds row col = true ->
  (forall r c, in_bounds r c = true -> (r, c) <> (row, col) ->
               cell s1 r c = cell s2 r c) ->
  is_win_at s1 row col color = is_win_at s2 row col color
  /\ (forall v : Cell,
        is_win_at (set_cell s1 row col v) row col color = is_win_at s1 row col color).
Proof.
  intros _ H. split.
  - now apply is_win_at_agree.
  - intros v. apply is_win_at_set_cell.
Qed.

(** On [four_in_row], [is_win_at] answers [true] for black at the empty cell
    [(7,7)], and still does when a white stone lies there. *)
Lemma is_win_at_ignores_queried_cell_witness :
  cell four_in_row 7 7 = None
  /\ cell (place "white" four_in_row (7, 7)) 7 7 = Some "white"
  /\ is_win_at four_in_row 7 7 "black" = true
  /\ is_win_at (place "white" four_in_row (7, 7)) 7 7 "black" = true.
Proof.
  assert (Hagree : forall r c, in_bounds r c = true -> (r, c) <> (7, 7) ->
            cell four_in_row r c = cell (place "white" four_in_row (7, 7)) r c).
  { intros r c Hb Hne. symmetry. apply cell_set_other; assumption. }
  destruct (is_win_at_ignores_queried_cell
              four_in_row (place "white" four_in_row (7, 7)) 7 7 "black"
              eq_refl Hagree) as [Hsame _].
  split; [reflexivity|]. split; [reflexivity|]. split; [reflexivity|].
  rewrite <- Hsame. reflexivity.
Defined.

(** ** Evaluation *)

(** C5.  [evaluate] is antisymmetric in the colour:
    [evaluate(board, "black") == -evaluate(board, "white")] on every
    board. *)
Theorem evaluate_antisymmetric (s : State) :
  evaluate s "black" = - evaluate s "white".
Proof.
  unfold evaluate, other_color. cbn [String.eqb Ascii.eqb Bool.eqb].
  lia.
Qed.

(** ** Out-of-range coordinates *)

Lemma item_in_range {A : Type} (l : list A) (i : Z) :
  - zlen l <= i < zlen l -> exists x, Py.item l i = Some x /\ In x l.
Proof.
  unfold zlen. intros H. unfold Py.item.
  destruct ((0 <=? i) && (i <? Z.of_nat (length l))) eqn:E1.
  - apply andb_true_iff in E1. destruct E1 as [H1 H2].
    apply Z.leb_le in H1. apply Z.ltb_lt in H2.
    destruct (nth_error l (Z.to_nat i)) as [x|] eqn:E.
    + exists x. split; [reflexivity|]. eapply nth_error_In; eassumption.
    + apply nth_error_None in E. lia.
  - assert (Hneg : i < 0).
    { destruct (Z.leb_spec 0 i); destruct (Z.ltb_spec i (Z.of_nat (length l)));
        cbn in E1; try discriminate; lia. }
    replace ((- Z.of_nat (length l) <=? i) && (i <? 0)) with true
      by (symmetry; apply andb_true_iff; split; [apply Z.leb_le|apply Z.ltb_lt]; lia).
    destruct (nth_error l (Z.to_nat (i + Z.of_nat (length l)))) as [x|] eqn:E.
    + exists x. split; [reflexivity|]. eapply nth_error_In; eassumption.
    + apply nth_error_None in E. lia.
Qed.

Lemma item_out_of_range {A : Type} (l : list A) (i : Z) :
  ~ (- zlen l <= i < zlen l) -> Py.item l i = None.
Proof.
  unfold zlen. intros H. unfold Py.item.
  destruct (Z.leb_spec 0 i); destruct (Z.ltb_spec i (Z.of_nat (length l)));
    destruct (Z.leb_spec (- Z.of_nat (length l)) i); destruct (Z.ltb_spec i 0);
    cbn; try reflexivity; lia.
Qed.

Lemma item_nonneg {A : Type} (l : list A) (i : Z) (d : A) :
  0 <= i < zlen l -> Py.item l i = Some (nth (Z.to_nat i) l d).
Proof.
  unfold zlen. intros H. unfold Py.item.
  replace ((0 <=? i) && (i <? Z.of_nat (length l))) with true
    by (symmetry; apply andb_true_iff; split; [apply Z.leb_le|apply Z.ltb_lt]; lia).
  apply nth_error_nth'. lia.
Qed.

Lemma getitem_in_bounds (s : State) (r c : Z) :
  wf_board s = true -> in_bounds r c = true ->
  Py.getitem s r c = Some (cell s r c).
Proof.
  intros Hwf Hb. apply wf_board_spec in Hwf. destruct Hwf as [Hlen Hrows].
  apply in_bounds_spec in Hb. unfold Py.getitem, cell.
  rewrite (item_nonneg s r []) by (unfold zlen; lia).
  apply item_nonneg. unfold zlen.
  rewrite (Hrows (nth (Z.to_nat r) s [])); [lia|]. apply nth_In. lia.
Qed.

(** [state[row][col]] raises exactly outside [[-15, 15)]. *)
Lemma getitem_raises (s : State) (r c : Z) :
  wf_board s = true ->
  (Py.getitem s r c = None <-> ~ (-15 <= r < 15 /\ -15 <= c < 15)).
Proof.
  intros Hwf. apply wf_board_spec in Hwf. destruct Hwf as [Hlen Hrows].
  unfold Py.getitem.
  assert (Hs : zlen s = 15) by (unfold zlen; lia).
  destruct (Z_lt_dec r 15) as [Hr1|Hr1]; [destruct (Z_le_dec (-15) r) as [Hr2|Hr2]|].
  - destruct (item_in_range s r) as [row [E Hin]]; [lia|]. rewrite E.
    assert (Hrow : zlen row = 15) by (unfold zlen; rewrite (Hrows row Hin); lia).
    destruct (Z_lt_dec c 15) as [Hc1|Hc1]; [destruct (Z_le_dec (-15) c) as [Hc2|Hc2]|].
    + destruct (item_in_range row c) as [v [E' _]]; [lia|]. rewrite E'.
      split; [discriminate|lia].
    + rewrite item_out_of_range by lia. split; [lia|reflexivity].
    + rewrite item_out_of_range by lia. split; [lia|reflexivity].
  - rewrite item_out_of_range by lia. split; [lia|reflexivity].
  - rewrite item_out_of_range by lia. split; [lia|reflexivity].
Qed.

Lemma py_walk_total (s : State) (color : string) (dx dy : Z) :
  wf_board s = true ->
  forall fuel cnt r c,
    PyScan.walk fuel s color dx dy cnt r c = Some (walk fuel s color dx dy cnt r c).
Proof.
  intros Hwf. induction fuel as [|k IH]; intros cnt r c; [reflexivity|].
  cbn [PyScan.walk walk]. destruct (in_bounds r c) eqn:Hb; cbn [andb]; [|reflexivity].
  rewrite getitem_in_bounds by assumption.
  destruct (cell_is (cell s r c) color); [apply IH|reflexivity].
Qed.

Lemma py_axis_scan_total (s : State) (row col : Z) (color : string) (d : Z * Z) :
  wf_board s = true ->
  PyScan.axis_scan s row col color d = Some (axis_scan s row col color d).
Proof.
  intros Hwf. destruct d as [dx dy]. unfold PyScan.axis_scan, axis_scan.
  rewrite py_walk_total by assumption.
  destruct (walk walk_fuel s color dx dy 1 (row + dx) (col + dy)) as [[cnt rf] cf].
  rewrite py_walk_total by assumption.
  destruct (walk walk_fuel s color (- dx) (- dy) cnt (row - dx) (col - dy)) as [[cnt' rb] cb].
  reflexivity.
Qed.

(** On a 15x15 board the raising [is_win_at] never raises, at any
    coordinate, and is the pure [is_win_at]. *)
Lemma py_is_win_at_total (s : State) (row col : Z) (color : string) :
  wf_board s = true ->
  PyScan.is_win_at s row col color = Some (is_win_at s row col color).
Proof.
  intros Hwf. unfold PyScan.is_win_at, is_win_at.
  induction directions as [|d ds IH]; [reflexivity|].
  cbn [PyScan.win_loop existsb]. rewrite py_axis_scan_total by assumption.
  destruct (axis_scan s row col color d) as [[cnt f] b].
  destruct (5 <=? cnt); [reflexivity|exact IH].
Qed.

Lemma py_threat_loop_total (s : State) (row col : Z) (color : string) :
  wf_board s = true ->
  forall ds max_count, exists n,
    PyScan.threat_loop s row col color ds max_count = Some n.
Proof.
  intros Hwf. induction ds as [|d ds IH]; intros max_count.
  - exists max_count. reflexivity.
  - cbn [PyScan.threat_loop]. rewrite py_axis_scan_total by assumption.
    destruct (axis_scan s row col color d) as [[cnt f] b]. apply IH.
Qed.

(** C9, as stated, fails: queried at [(-1, 0)], outside the board,
    [is_win_at] returns [True] and [count_threat_level] returns 5; no error
    is raised. *)
Lemma out_of_range_no_error :
  wf_board column_of_four = true
  /\ in_bounds (-1) 0 = false
  /\ PyScan.is_win_at column_of_four (-1) 0 "black" = Some true
  /\ PyScan.count_threat_level column_of_four (-1) 0 "black" = Some 5.
Proof. repeat split; vm_compute; reflexivity. Qed.

(** C9, amended.  Neither function checks [(row, col)] against the board.
    On a 15x15 board [is_win_at] returns a boolean at every integer
    coordinate, in range or not (its reads are all behind the loop's own
    bounds test).  [count_threat_level] raises exactly when its first read
    [state[row][col]] does, that is when [row] or [col] lies outside
    [[-15, 15)]; at a negative coordinate in [[-15, 0)] Python indexes from
    the end and the call returns a number. *)
Theorem out_of_range_behaviour (s : State) (row col : Z) (color : string) :
  wf_board s = true ->
  PyScan.is_win_at s row col color = Some (is_win_at s row col color)
  /\ (PyScan.count_threat_level s row col color = None
      <-> ~ (-15 <= row < 15 /\ -15 <= col < 15)).
Proof.
  intros Hwf. split; [now apply py_is_win_at_total|].
  rewrite <- (getitem_raises s row col Hwf).
  unfold PyScan.count_threat_level.
  destruct (Py.getitem s row col) as [[x|]|]; try (split; [discriminate|discriminate]).
  - destruct (py_threat_loop_total s row col color Hwf directions 0) as [n E].
    rewrite E. split; discriminate.
  - split; reflexivity.
Qed.

Lemma out_of_range_behaviour_witness :
  PyScan.is_win_at column_of_four 20 3 "black" = Some false
  /\ PyScan.count_threat_level column_of_four 15 0 "black" = None
  /\ PyScan.count_threat_level column_of_four (-15) (-1) "black" <> None.
Proof.
  destruct (out_of_range_behaviour column_of_four 20 3 "black" eq_refl) as [H1 _].
  destruct (out_of_range_behaviour column_of_four 15 0 "black" eq_refl) as [_ H2].
  destruct (out_of_range_behaviour column_of_four (-15) (-1) "black" eq_refl) as [_ H3].
  split; [exact H1|]. split.
  - apply H2. lia.
  - intros E. apply H3 in E. apply E. lia.
Defined.

(** ** Candidate moves *)

Lemma is_empty_true (v : Cell) : is_empty v = true <-> v = None.
Proof. destruct v; cbn; split; congruence. Qed.

Lemma is_empty_false (v : Cell) : is_empty v = false <-> v <> None.
Proof. destruct v; cbn; split; congruence. Qed.

Lemma in_get_empty_cells (s : State) (m : Move) :
  In m (get_empty_cells s) <-> empty_cell s m.
Proof.
  unfold get_empty_cells, empty_cell.
  rewrite filter_In, in_all_cells, is_empty_true. tauto.
Qed.

Lemma any_stone_spec (s : State) :
  existsb (fun m => negb (is_empty (cell s (fst m) (snd m)))) all_cells = true
  <-> exists m, stone_at s m.
Proof.
  rewrite existsb_exists. unfold stone_at. split.
  - intros [m [Hin Hm]]. exists m. apply in_all_cells in Hin.
    apply negb_true_iff, is_empty_false in Hm. tauto.
  - intros [m [Hin Hm]]. exists m. rewrite in_all_cells, negb_true_iff, is_empty_false.
    tauto.
Qed.

Lemma neighbors_exist_spec (s : State) (r c : Z) :
  neighbors_exist s r c 2 = true <->
  exists m', stone_at s m' /\ chebyshev (r, c) m' <= 2 /\ m' <> (r, c).
Proof.
  unfold neighbors_exist, stone_at, chebyshev. rewrite existsb_exists. split.
  - intros [dr [Hdr H]]. apply existsb_exists in H. destruct H as [dc [Hdc H]].
    apply in_zrange in Hdr, Hdc.
    destruct ((dr =? 0) && (dc =? 0)) eqn:E; [discriminate|].
    apply andb_true_iff in H. destruct H as [Hb Hc].
    apply negb_true_iff, is_empty_false in Hc.
    exists (r + dr, c + dc). cbn [fst snd]. split; [tauto|]. split; [lia|].
    intros Heq. inversion Heq.
    assert (dr = 0) by lia. assert (dc = 0) by lia. subst. discriminate.
  - intros [[r' c'] [[Hb Hc] [Hd Hne]]]. cbn [fst snd] in *.
    exists (r' - r). split; [apply in_zrange; lia|].
    apply existsb_exists. exists (c' - c). split; [apply in_zrange; lia|].
    destruct ((r' - r =? 0) && (c' - c =? 0)) eqn:E.
    + apply andb_true_iff in E. destruct E as [E1 E2].
      apply Z.eqb_eq in E1, E2. exfalso. apply Hne. f_equal; lia.
    + replace (r + (r' - r)) with r' by lia. replace (c + (c' - c)) with c' by lia.
      rewrite Hb. cbn. apply negb_true_iff, is_empty_false. assumption.
Qed.

(** On an empty cell, [neighbors_exist] with [dist=2] is "some stone within
    Chebyshev distance 2". *)
Lemma neighbors_exist_near (s : State) (m : Move) :
  empty_cell s m ->
  (neighbors_exist s (fst m) (snd m) 2 = true <-> near_stone s m).
Proof.
  destruct m as [r c]. cbn [fst snd]. intros [_ He].
  rewrite neighbors_exist_spec. unfold near_stone. split.
  - intros [m' [H1 [H2 _]]]. exists m'. tauto.
  - intros [m' [H1 H2]]. exists m'. split; [assumption|]. split; [assumption|].
    intros ->. destruct H1 as [_ H1]. cbn [fst snd] in H1. contradiction.
Qed.

Lemma row_majorb_spec (a b : Move) : row_majorb a b = true <-> row_major a b.
Proof.
  unfold row_majorb, row_major.
  rewrite orb_true_iff, andb_true_iff, !Z.ltb_lt, Z.eqb_eq. tauto.
Qed.

Lemma row_major_trans (a b c : Move) : row_major a b -> row_major b c -> row_major a c.
Proof. unfold row_major. lia. Qed.

Lemma ascending_sorted (l : list Move) (a : Move) :
  ascending a l = true -> StronglySorted row_major (a :: l).
Proof.
  revert a. induction l as [|b t IH]; intros a H.
  - constructor; constructor.
  - cbn in H. apply andb_true_iff in H. destruct H as [Hab Ht].
    apply row_majorb_spec in Hab. specialize (IH b Ht).
    constructor; [assumption|]. constructor; [assumption|].
    apply StronglySorted_inv in IH. destruct IH as [_ IH].
    eapply Forall_impl; [|exact IH]. intros x. now apply row_major_trans.
Qed.

Lemma all_cells_sorted : StronglySorted row_major all_cells.
Proof. apply (ascending_sorted (tl all_cells) (0, 0)). vm_compute. reflexivity. Qed.

Lemma filter_sorted {A : Type} (R : A -> A -> Prop) (f : A -> bool) (l : list A) :
  StronglySorted R l -> StronglySorted R (filter f l).
Proof.
  induction 1 as [|a l Hs IH Ha]; cbn; [constructor|].
  destruct (f a); [|assumption].
  constructor; [assumption|]. apply Forall_forall. intros x Hx.
  apply filter_In in Hx. rewrite Forall_forall in Ha. apply Ha. tauto.
Qed.

Lemma get_empty_cells_sorted (s : State) : StronglySorted row_major (get_empty_cells s).
Proof. apply filter_sorted, all_cells_sorted. Qed.

(** The three cases of [candidate_moves]. *)
Lemma candidate_moves_no_stone (s : State) :
  (forall m, ~ stone_at s m) -> candidate_moves s = [(CENTER, CENTER)].
Proof.
  intros H. unfold candidate_moves.
  destruct (existsb (fun m => negb (is_empty (cell s (fst m) (snd m)))) all_cells) eqn:E;
    [|reflexivity].
  apply any_stone_spec in E. destruct E as [m Hm]. exfalso. eapply H; eassumption.
Qed.

Lemma candidate_moves_stone (s : State) :
  (exists m, stone_at s m) ->
  candidate_moves s =
    match filter (fun m => neighbors_exist s (fst m) (snd m) 2) (get_empty_cells s) with
    | [] => get_empty_cells s
    | m :: l => m :: l
    end.
Proof.
  intros H. apply any_stone_spec in H. unfold candidate_moves. rewrite H.
  cbn [negb].
  match goal with |- match ?f with _ => _ end = _ => destruct f; reflexivity end.
Qed.

Lemma in_near_filter (s : State) (m : Move) :
  In m (filter (fun m => neighbors_exist s (fst m) (snd m) 2) (get_empty_cells s))
  <-> empty_cell s m /\ near_stone s m.
Proof.
  rewrite filter_In, in_get_empty_cells. split.
  - intros [He Hn]. split; [assumption|]. now apply neighbors_exist_near.
  - intros [He Hn]. split; [assumption|]. now apply neighbors_exist_near.
Qed.

Lemma candidate_moves_empty_cells (s : State) (m : Move) :
  In m (candidate_moves s) -> empty_cell s m.
Proof.
  destruct (existsb (fun m => negb (is_empty (cell s (fst m) (snd m)))) all_cells) eqn:E.
  - rewrite candidate_moves_stone by (now apply any_stone_spec).
    destruct (filter (fun m => neighbors_exist s (fst m) (snd m) 2) (get_empty_cells s))
      as [|x l] eqn:F.
    + apply in_get_empty_cells.
    + rewrite <- F. intros H. apply in_near_filter in H. tauto.
  - unfold candidate_moves. rewrite E. cbn. intros [<-|[]].
    split; [reflexivity|]. cbn [fst snd].
    destruct (cell s CENTER CENTER) eqn:Ec; [|reflexivity].
    assert (Hex : exists m, stone_at s m).
    { exists (CENTER, CENTER). split; [reflexivity|]. cbn [fst snd]. congruence. }
    apply any_stone_spec in Hex. congruence.
Qed.

Lemma candidate_moves_in_bounds (s : State) (m : Move) :
  In m (candidate_moves s) -> in_bounds (fst m) (snd m) = true.
Proof. intros H. apply candidate_moves_empty_cells in H. apply H. Qed.

(** C8.  [candidate_moves] on a board without stones is exactly [[(7,7)]];
    on a board with a stone it is, in row-major order, exactly the empty
    cells within Chebyshev distance 2 of a stone, or all the empty cells if
    there is no such cell; it never contains an occupied cell. *)
Theorem candidate_moves_spec (s : State) :
  wf_board s = true ->
  ((forall m, ~ stone_at s m) -> candidate_moves s = [(7, 7)])
  /\ ((exists m, stone_at s m) ->
      StronglySorted row_major (candidate_moves s)
      /\ ((exists m, empty_cell s m /\ near_stone s m) ->
          forall m, In m (candidate_moves s) <-> empty_cell s m /\ near_stone s m)
      /\ ((forall m, empty_cell s m -> ~ near_stone s m) ->
          forall m, In m (candidate_moves s) <-> empty_cell s m))
  /\ (forall m, In m (candidate_moves s) -> empty_cell s m).
Proof.
  intros _. split; [apply candidate_moves_no_stone|]. split.
  - intros Hst. rewrite candidate_moves_stone by assumption.
    destruct (filter (fun m => neighbors_exist s (fst m) (snd m) 2) (get_empty_cells s))
      as [|x l] eqn:F.
    + split; [apply get_empty_cells_sorted|]. split.
      * intros [m Hm]. apply in_near_filter in Hm. rewrite F in Hm. destruct Hm.
      * intros _ m. apply in_get_empty_cells.
    + split; [rewrite <- F; apply filter_sorted, get_empty_cells_sorted|]. split.
      * intros _ m. rewrite <- F. apply in_near_filter.
      * intros Hno m. exfalso.
        assert (Hx : In x (x :: l)) by (left; reflexivity).
        rewrite <- F in Hx. apply in_near_filter in Hx.
        destruct Hx as [He Hn]. exact (Hno x He Hn).
  - apply candidate_moves_empty_cells.
Qed.

Lemma candidate_moves_spec_witness :
  candidate_moves empty_board = [(7, 7)]
  /\ StronglySorted row_major (candidate_moves one_stone)
  /\ (In (5, 9) (candidate_moves one_stone) <->
      empty_cell one_stone (5, 9) /\ near_stone one_stone (5, 9))
  /\ (In (7, 7) (candidate_moves one_stone) -> empty_cell one_stone (7, 7)).
Proof.
  destruct (candidate_moves_spec empty_board eq_refl) as [H0 _].
  destruct (candidate_moves_spec one_stone eq_refl) as [_ [H1 H2]].
  assert (Hst : exists m, stone_at one_stone m).
  { exists (7, 7). split; [reflexivity|]. cbn. discriminate. }
  assert (Hnear : exists m, empty_cell one_stone m /\ near_stone one_stone m).
  { exists (5, 9). split; [split; reflexivity|].
    exists (7, 7). split; [split; [reflexivity|cbn; discriminate]|].
    vm_compute. discriminate. }
  destruct (H1 Hst) as [Hs [Hin _]].
  split.
  - apply H0. intros m [Hb Hc]. apply Hc. apply in_all_cells in Hb.
    assert (Hall : Forall (fun m => cell empty_board (fst m) (snd m) = None) all_cells)
      by (vm_compute; repeat constructor).
    rewrite Forall_forall in Hall. exact (Hall m Hb).
  - split; [exact Hs|]. split; [exact (Hin Hnear (5, 9))|exact (H2 (7, 7))].
Defined.

(** ** Move ordering *)

Lemma tier_eqb_eq (a b : Tier) : tier_eqb a b = true <-> a = b.
Proof. destruct a, b; cbn; split; congruence. Qed.

Lemma wins_now_is_win_at (s : State) (color : string) (m : Move) :
  wins_now s color m = is_win_at s (fst m) (snd m) color.
Proof. unfold wins_now, place. apply is_win_at_set_cell. Qed.

(** On an empty cell [try_move_is_win] answers [wins_now] and leaves the
    board as it found it. *)
Lemma try_move_is_win_empty (s : State) (r c : Z) (color : string) :
  wf_board s = true -> cell s r c = None ->
  try_move_is_win s r c color = (wins_now s color (r, c), s).
Proof.
  intros Hwf He. unfold try_move_is_win, wins_now, place. cbn [fst snd].
  now rewrite place_undo.
Qed.

Section Classify.

Variables (s : State) (mover : string).
Hypothesis Hwf : wf_board s = true.

Lemma classify_tiers (cands : list Move) :
  (forall m, In m cands -> empty_cell s m) ->
  forall wins blocks defensive rest,
    classify mover (other_color mover) cands s wins blocks defensive rest =
    ((wins ++ tier_moves s mover Win cands,
      blocks ++ tier_moves s mover Block cands,
      defensive ++ tier_moves s mover Defensive cands,
      rest ++ tier_moves s mover Rest cands), s).
Proof.
  induction cands as [|[r c] tl IH]; intros Hc wins blocks defensive rest.
  - cbn. now rewrite !app_nil_r.
  - assert (He : cell s r c = None) by (apply (Hc (r, c)); left; reflexivity).
    assert (Htl : forall m, In m tl -> empty_cell s m)
      by (intros m Hm; apply Hc; right; exact Hm).
    cbn [classify]. rewrite try_move_is_win_empty by assumption.
    unfold tier_moves. cbn [filter]. fold (tier_moves s mover).
    assert (Ht := eq_refl (tier s mover (r, c))). unfold tier at 2 in Ht.
    cbn [fst snd] in Ht.
    destruct (wins_now s mover (r, c)).
    { rewrite Ht. cbn [tier_eqb]. rewrite IH by assumption.
      now rewrite <- app_assoc. }
    rewrite try_move_is_win_empty by assumption.
    destruct (wins_now s (other_color mover) (r, c)).
    { rewrite Ht. cbn [tier_eqb]. rewrite IH by assumption.
      now rewrite <- app_assoc. }
    destruct (is_open_threat s r c (other_color mover) 3).
    { rewrite Ht. cbn [tier_eqb]. rewrite IH by assumption.
      now rewrite <- app_assoc. }
    rewrite Ht. cbn [tier_eqb]. rewrite IH by assumption.
    now rewrite <- app_assoc.
Qed.

Lemma ordered_candidates_tiers :
  ordered_candidates s mover =
  (tier_moves s mover Win (candidate_moves s)
     ++ tier_moves s mover Block (candidate_moves s)
     ++ tier_moves s mover Defensive (candidate_moves s)
     ++ tier_moves s mover Rest (candidate_moves s), s).
Proof.
  unfold ordered_candidates.
  rewrite classify_tiers by apply candidate_moves_empty_cells.
  reflexivity.
Qed.

Lemma tiers_permutation (l : list Move) :
  Permutation l
    (tier_moves s mover Win l ++ tier_moves s mover Block l
       ++ tier_moves s mover Defensive l ++ tier_moves s mover Rest l).
Proof.
  induction l as [|m tl IH]; [constructor|].
  unfold tier_moves in *. cbn [filter].
  destruct (tier s mover m); cbn [tier_eqb].
  - cbn. now constructor.
  - apply Permutation_cons_app with (l1 := filter _ tl). exact IH.
  - rewrite app_assoc. apply Permutation_cons_app. rewrite <- app_assoc. exact IH.
  - rewrite 2 app_assoc. apply Permutation_cons_app. rewrite <- 2 app_assoc. exact IH.
Qed.

Lemma in_tier_moves (t : Tier) (l : list Move) (m : Move) :
  In m (tier_moves s mover t l) <-> In m l /\ tier s mover m = t.
Proof. unfold tier_moves. now rewrite filter_In, tier_eqb_eq. Qed.

Lemma in_ordered_candidates (m : Move) :
  In m (fst (ordered_candidates s mover)) <-> In m (candidate_moves s).
Proof.
  rewrite ordered_candidates_tiers. cbn [fst].
  split; intros H.
  - eapply Permutation_in; [apply Permutation_sym, tiers_permutation|exact H].
  - eapply Permutation_in; [apply tiers_permutation|exact H].
Qed.

End Classify.

(** C7.  [ordered_candidates] returns the moves of [candidate_moves] split
    into wins, then blocks, then defensive moves, then the rest, each tier in
    the order of [candidate_moves]; the result holds exactly the candidate
    moves, and no rest move comes before a win, block or defensive move.
    The board is left as it was. *)
Theorem ordered_candidates_spec (s : State) (mover : string) :
  wf_board s = true ->
  let cm := candidate_moves s in
  let oc := fst (ordered_candidates s mover) in
  ordered_candidates s mover =
    (tier_moves s mover Win cm ++ tier_moves s mover Block cm
       ++ tier_moves s mover Defensive cm ++ tier_moves s mover Rest cm, s)
  /\ Permutation cm oc
  /\ (exists forcing rest,
        oc = forcing ++ rest
        /\ (forall m, In m forcing -> tier s mover m <> Rest)
        /\ (forall m, In m rest -> tier s mover m = Rest)).
Proof.
  intros Hwf cm oc. subst oc.
  rewrite ordered_candidates_tiers by assumption. cbn [fst]. fold cm.
  split; [reflexivity|]. split; [apply tiers_permutation|].
  exists (tier_moves s mover Win cm ++ tier_moves s mover Block cm
            ++ tier_moves s mover Defensive cm), (tier_moves s mover Rest cm).
  split; [now rewrite <- !app_assoc|]. split.
  - intros m Hm. rewrite !in_app_iff, !in_tier_moves in Hm.
    destruct Hm as [[_ E]|[[_ E]|[_ E]]]; rewrite E; discriminate.
  - intros m Hm. apply in_tier_moves in Hm. tauto.
Qed.

Lemma ordered_candidates_spec_witness :
  fst (ordered_candidates threat_board "white")
  = [(7, 2); (7, 7)] ++ tier_moves threat_board "white" Defensive (candidate_moves threat_board)
      ++ tier_moves threat_board "white" Rest (candidate_moves threat_board)
  /\ snd (ordered_candidates threat_board "white") = threat_board.
Proof.
  destruct (ordered_candidates_spec threat_board "white" eq_refl) as [H _].
  rewrite H. split; [|reflexivity]. cbn [fst].
  assert (Hw : tier_moves threat_board "white" Win (candidate_moves threat_board) = [])
    by (vm_compute; reflexivity).
  assert (Hb : tier_moves threat_board "white" Block (candidate_moves threat_board)
               = [(7, 2); (7, 7)]) by (vm_compute; reflexivity).
  rewrite Hw, Hb. cbn [app]. reflexivity.
Defined.

(** ** Candidate capping *)

Lemma move_eqb_eq (a b : Move) : move_eqb a b = true <-> a = b.
Proof.
  destruct a as [r c], b as [r' c']. unfold move_eqb. cbn [fst snd].
  rewrite andb_true_iff, !Z.eqb_eq. split; [intros [-> ->]; reflexivity|].
  intros E. inversion E. auto.
Qed.

Lemma mem_In (m : Move) (l : list Move) : mem m l = true <-> In m l.
Proof.
  unfold mem. rewrite existsb_exists. split.
  - intros [x [Hx E]]. apply move_eqb_eq in E. now subst.
  - intros H. exists m. split; [assumption|]. now apply move_eqb_eq.
Qed.

Lemma mem_filter (f : Move -> bool) (l : list Move) (m : Move) :
  In m l -> mem m (filter f l) = f m.
Proof.
  intros Hin. destruct (f m) eqn:E.
  - apply mem_In, filter_In. tauto.
  - destruct (mem m (filter f l)) eqn:E'; [|reflexivity].
    apply mem_In, filter_In in E'. destruct E' as [_ E']. congruence.
Qed.

Lemma filter_st_pure (p : Move -> State -> bool * State) (f : Move -> bool)
    (l : list Move) (s : State) :
  (forall m, In m l -> p m s = (f m, s)) -> filter_st p l s = (filter f l, s).
Proof.
  induction l as [|m tl IH]; intros H; [reflexivity|].
  cbn [filter_st filter]. rewrite H by (left; reflexivity).
  rewrite IH by (intros x Hx; apply H; right; exact Hx). reflexivity.
Qed.

Lemma in_firstn {A : Type} (n : nat) (l : list A) (x : A) :
  In x (firstn n l) -> In x l.
Proof.
  revert l. induction n as [|n IH]; intros [|h t]; cbn; try tauto.
  intros [H|H]; [left; exact H|right; apply IH; exact H].
Qed.

Lemma tier_against_other (s : State) (mover : string) (m : Move) :
  tier_against s mover (other_color mover) m = tier s mover m.
Proof. reflexivity. Qed.

Section Capping.

Variables (s : State) (mover opp : string).
Hypothesis Hwf : wf_board s = true.

(** The capping block on any list of empty cells. *)
Lemma cap_candidates_tiers (k : Z) (oc : list Move) :
  (forall m, In m oc -> empty_cell s m) ->
  cap_candidates mover opp k oc s =
  (tier_filter s mover opp Win oc ++ tier_filter s mover opp Block oc
     ++ tier_filter s mover opp Defensive oc
     ++ firstn (Z.to_nat (Z.max 0 (k - zlen (tier_filter s mover opp Win oc)
                                     - zlen (tier_filter s mover opp Block oc)
                                     - zlen (tier_filter s mover opp Defensive oc))))
               (tier_filter s mover opp Rest oc), s).
Proof.
  intros Hoc. unfold cap_candidates.
  assert (Hw : filter_st (fun m st => try_move_is_win st (fst m) (snd m) mover) oc s
               = (tier_filter s mover opp Win oc, s)).
  { rewrite (filter_st_pure _ (wins_now s mover)).
    - f_equal. apply filter_ext. intros m. unfold tier_against.
      destruct (wins_now s mover m); [reflexivity|].
      destruct (wins_now s opp m); [reflexivity|].
      destruct (is_open_threat s (fst m) (snd m) opp 3); reflexivity.
    - intros [r c] Hm. apply try_move_is_win_empty; [assumption|].
      apply (Hoc (r, c) Hm). }
  rewrite Hw.
  assert (Hb : filter_st (fun m st =>
                 if negb (mem m (tier_filter s mover opp Win oc))
                 then try_move_is_win st (fst m) (snd m) opp
                 else (false, st)) oc s
               = (tier_filter s mover opp Block oc, s)).
  { apply filter_st_pure. intros [r c] Hm. unfold tier_filter.
    rewrite mem_filter by assumption. unfold tier_against.
    destruct (wins_now s mover (r, c)); [reflexivity|]. cbn [tier_eqb negb fst snd].
    rewrite try_move_is_win_empty by (try assumption; apply (Hoc (r, c) Hm)).
    destruct (wins_now s opp (r, c)); [reflexivity|].
    destruct (is_open_threat s r c opp 3); reflexivity. }
  rewrite Hb.
  assert (Hd : filter (fun m =>
                 negb (mem m (tier_filter s mover opp Win oc))
                 && negb (mem m (tier_filter s mover opp Block oc))
                 && is_open_threat s (fst m) (snd m) opp 3) oc
               = tier_filter s mover opp Defensive oc).
  { apply filter_ext_in. intros m Hm. unfold tier_filter.
    rewrite !mem_filter by assumption. unfold tier_against.
    destruct (wins_now s mover m); [reflexivity|].
    destruct (wins_now s opp m); [reflexivity|].
    destruct (is_open_threat s (fst m) (snd m) opp 3); reflexivity. }
  rewrite Hd.
  assert (Hr : filter (fun m =>
                 negb (mem m (tier_filter s mover opp Win oc))
                 && negb (mem m (tier_filter s mover opp Block oc))
                 && negb (mem m (tier_filter s mover opp Defensive oc))) oc
               = tier_filter s mover opp Rest oc).
  { apply filter_ext_in. intros m Hm. unfold tier_filter.
    rewrite !mem_filter by assumption. unfold tier_against.
    destruct (wins_now s mover m); [reflexivity|].
    destruct (wins_now s opp m); [reflexivity|].
    destruct (is_open_threat s (fst m) (snd m) opp 3); reflexivity. }
  rewrite Hr. reflexivity.
Qed.

Lemma in_tier_filter (t : Tier) (l : list Move) (m : Move) :
  In m (tier_filter s mover opp t l) <-> In m l /\ tier_against s mover opp m = t.
Proof. unfold tier_filter. now rewrite filter_In, tier_eqb_eq. Qed.

(** Capping leaves the board alone and keeps a sublist of its input. *)
Lemma capped_sound (cap : option Z) (oc : list Move) :
  (forall m, In m oc -> empty_cell s m) ->
  snd (capped mover opp cap oc s) = s
  /\ (forall m, In m (fst (capped mover opp cap oc s)) -> In m oc).
Proof.
  intros Hoc. destruct cap as [k|]; cbn [capped]; [|split; auto].
  rewrite cap_candidates_tiers by assumption. cbn [fst snd].
  split; [reflexivity|]. intros m Hm.
  rewrite !in_app_iff in Hm.
  destruct Hm as [H|[H|[H|H]]];
    try (apply in_tier_filter in H; tauto).
  apply in_firstn in H. apply in_tier_filter in H. tauto.
Qed.

(** With a cap of at least one, a non-empty list stays non-empty. *)
Lemma capped_nonempty (cap : option Z) (oc : list Move) :
  (forall m, In m oc -> empty_cell s m) ->
  (forall k, cap = Some k -> 1 <= k) ->
  oc <> [] -> fst (capped mover opp cap oc s) <> [].
Proof.
  intros Hoc Hcap Hne. destruct cap as [k|]; cbn [capped]; [|exact Hne].
  specialize (Hcap k eq_refl).
  rewrite cap_candidates_tiers by assumption. cbn [fst].
  destruct (tier_filter s mover opp Win oc) as [|w W] eqn:EW; [|cbn [app]; intros E; discriminate E].
  destruct (tier_filter s mover opp Block oc) as [|b B] eqn:EB; [|cbn [app]; intros E; discriminate E].
  destruct (tier_filter s mover opp Defensive oc) as [|d D] eqn:ED; [|cbn [app]; intros E; discriminate E].
  cbn [app]. unfold zlen at 1 2 3. cbn [length].
  destruct (Z.to_nat (Z.max 0 (k - Z.of_nat 0 - Z.of_nat 0 - Z.of_nat 0))) as [|n] eqn:En;
    [lia|].
  destruct oc as [|m tl]; [congruence|].
  destruct (tier_filter s mover opp Rest (m :: tl)) as [|x R] eqn:ER;
    [|cbn [firstn]; intros E; discriminate E].
  exfalso.
  assert (Hin : In m (m :: tl)) by (left; reflexivity).
  destruct (tier_against s mover opp m) eqn:Et.
  - assert (H : In m (tier_filter s mover opp Win (m :: tl)))
      by (apply in_tier_filter; tauto). rewrite EW in H. destruct H.
  - assert (H : In m (tier_filter s mover opp Block (m :: tl)))
      by (apply in_tier_filter; tauto). rewrite EB in H. destruct H.
  - assert (H : In m (tier_filter s mover opp Defensive (m :: tl)))
      by (apply in_tier_filter; tauto). rewrite ED in H. destruct H.
  - assert (H : In m (tier_filter s mover opp Rest (m :: tl)))
      by (apply in_tier_filter; tauto). rewrite ER in H. destruct H.
Qed.

End Capping.

Lemma tier_moves_again (s : State) (mover : string) (t t' : Tier) (l : list Move) :
  tier_filter s mover (other_color mover) t (tier_moves s mover t' l) =
  if tier_eqb t' t then tier_moves s mover t' l else [].
Proof.
  unfold tier_filter, tier_moves. induction l as [|m tl IH]; cbn [filter].
  - now destruct (tier_eqb t' t).
  - destruct (tier_eqb (tier s mover m) t') eqn:E; [|exact IH].
    cbn [filter]. rewrite tier_against_other.
    apply tier_eqb_eq in E. rewrite E.
    destruct (tier_eqb t' t); [now rewrite IH|exact IH].
Qed.

Lemma tier_filter_app (s : State) (mover opp : string) (t : Tier) (l1 l2 : list Move) :
  tier_filter s mover opp t (l1 ++ l2) =
  tier_filter s mover opp t l1 ++ tier_filter s mover opp t l2.
Proof. apply filter_app. Qed.

(** The tiers of the ordered list are the tiers of the candidates. *)
Lemma tier_filter_ordered (s : State) (mover : string) (t : Tier) :
  wf_board s = true ->
  tier_filter s mover (other_color mover) t (fst (ordered_candidates s mover))
  = tier_moves s mover t (candidate_moves s).
Proof.
  intros Hwf. rewrite ordered_candidates_tiers by assumption. cbn [fst].
  rewrite !tier_filter_app, !tier_moves_again.
  destruct t; cbn [tier_eqb app]; now rewrite ?app_nil_r.
Qed.

(** ** The search functions, one level unfolded *)

Section Unfold.

Variables (s : State) (ai_color opp_color : string).
Variables (use_ab : bool) (cap : option Z).
Hypothesis Hwf : wf_board s = true.

Lemma ordered_candidates_empty_cells (mover : string) (m : Move) :
  In m (fst (ordered_candidates s mover)) -> empty_cell s m.
Proof.
  intros H. apply in_ordered_candidates in H; [|assumption].
  now apply candidate_moves_empty_cells.
Qed.

Lemma node_moves_candidates (mover opp : string) (m : Move) :
  In m (node_moves s mover opp cap) -> In m (candidate_moves s).
Proof.
  intros H. unfold node_moves in H.
  apply (proj2 (capped_sound s mover opp Hwf cap _
                  (ordered_candidates_empty_cells mover))) in H.
  now apply in_ordered_candidates in H.
Qed.

Lemma capped_ordered (mover opp : string) :
  capped mover opp cap (fst (ordered_candidates s mover)) s = (node_moves s mover opp cap, s).
Proof.
  unfold node_moves.
  destruct (capped_sound s mover opp Hwf cap _ (ordered_candidates_empty_cells mover))
    as [Hs _].
  destruct (capped mover opp cap (fst (ordered_candidates s mover)) s) as [l s'].
  cbn [fst snd] in *. now rewrite Hs.
Qed.

Lemma minimax_unfold_max (k : nat) (depth alpha beta : Z) :
  minimax (S k) s depth true ai_color opp_color alpha beta use_ab cap =
  if (depth =? 0) || is_nil (candidate_moves s) then Some (evaluate s ai_color, s)
  else max_loop (fun st a b => minimax k st (depth - 1) false ai_color opp_color
                                       a b use_ab cap)
                use_ab ai_color (node_moves s ai_color opp_color cap) s (- INF) alpha beta.
Proof.
  cbn [minimax]. destruct ((depth =? 0) || is_nil (candidate_moves s)); [reflexivity|].
  cbn [negb]. rewrite (ordered_candidates_tiers s ai_color Hwf).
  pose proof (capped_ordered ai_color opp_color) as Hc.
  rewrite (ordered_candidates_tiers s ai_color Hwf) in Hc. cbn [fst] in Hc.
  rewrite Hc. reflexivity.
Qed.

Lemma minimax_unfold_min (k : nat) (depth alpha beta : Z) :
  minimax (S k) s depth false ai_color opp_color alpha beta use_ab cap =
  if (depth =? 0) || is_nil (candidate_moves s) then Some (evaluate s ai_color, s)
  else min_loop (fun st a b => minimax k st (depth - 1) true ai_color opp_color
                                       a b use_ab cap)
                use_ab opp_color (node_moves s opp_color ai_color cap) s INF alpha beta.
Proof.
  cbn [minimax]. destruct ((depth =? 0) || is_nil (candidate_moves s)); [reflexivity|].
  cbn [negb]. rewrite (ordered_candidates_tiers s opp_color Hwf).
  pose proof (capped_ordered opp_color ai_color) as Hc.
  rewrite (ordered_candidates_tiers s opp_color Hwf) in Hc. cbn [fst] in Hc.
  rewrite Hc. reflexivity.
Qed.

Lemma ai_search_scored_unfold (fuel : nat) (depth : Z) :
  ai_search_scored fuel s ai_color opp_color depth use_ab cap =
  match root_loop (fun st a b => minimax fuel st (depth - 1) false ai_color opp_color
                                         a b use_ab cap)
                  use_ab ai_color (node_moves s ai_color opp_color cap) s
                  None (- INF) (- INF) INF with
  | None => None
  | Some (best_move, best_score, s4) =>
      Some (best_move, best_score,
            match best_move with
            | Some (r, c) => snd (try_move_is_win s4 r c opp_color)
            | None => s4
            end)
  end.
Proof.
  unfold ai_search_scored.
  pose proof (capped_ordered ai_color opp_color) as Hc.
  rewrite (ordered_candidates_tiers s ai_color Hwf) in *. cbn [fst] in Hc.
  rewrite (filter_st_pure _ (wins_now s opp_color)).
  2:{ intros [r c] Hm. apply try_move_is_win_empty; [assumption|].
      apply (ordered_candidates_empty_cells ai_color (r, c)).
      rewrite (ordered_candidates_tiers s ai_color Hwf). exact Hm. }
  rewrite Hc.
  destruct (root_loop _ use_ab ai_color (node_moves s ai_color opp_color cap) s
                      None (- INF) (- INF) INF) as [[[bm bs] s4]|]; [|reflexivity].
  destruct bm as [[r c]|]; [|reflexivity].
  destruct (try_move_is_win s4 r c opp_color). reflexivity.
Qed.

End Unfold.

Lemma opponents_black_white (a b : string) :
  opponents a b <-> (a = "black" /\ b = "white") \/ (a = "white" /\ b = "black").
Proof.
  unfold opponents, other_color. split.
  - intros [Hb Ha]. destruct (String.eqb a "black") eqn:E.
    + apply String.eqb_eq in E. left. tauto.
    + subst b. cbn in Ha. right. tauto.
  - intros [[-> ->]|[-> ->]]; cbn; tauto.
Qed.

Lemma opponents_sym (a b : string) : opponents a b -> opponents b a.
Proof. unfold opponents. tauto. Qed.

Lemma capped_forcing_then_rest (s : State) (mover : string) (cap : Z) :
  wf_board s = true ->
  capped mover (other_color mover) (Some cap) (fst (ordered_candidates s mover)) s
  = (forcing_then_rest s mover cap, s).
Proof.
  intros Hwf. cbn [capped].
  rewrite cap_candidates_tiers
    by (try assumption; intros m; now apply ordered_candidates_empty_cells).
  rewrite !tier_filter_ordered by assumption. reflexivity.
Qed.

(** C2.  With a cap [cap >= 0] (0 included), the capped candidate list that
    [ai_search] iterates over, and that each maximizing and each minimizing
    [minimax] node iterates over, is: every win, every block and every
    defensive move of the ordered candidates, in that order, then the first
    [max(0, cap - |wins| - |blocks| - |defensive|)] rest moves in their
    order.  Only the rest tier is cut. *)
Theorem capped_keeps_forcing_moves (s : State) (ai_color opp_color : string) (cap : Z) :
  wf_board s = true -> opponents ai_color opp_color -> 0 <= cap ->
  capped ai_color opp_color (Some cap) (fst (ordered_candidates s ai_color)) s
    = (forcing_then_rest s ai_color cap, s)
  /\ capped opp_color ai_color (Some cap) (fst (ordered_candidates s opp_color)) s
    = (forcing_then_rest s opp_color cap, s)
  /\ (forall fuel depth use_ab,
        ai_search_scored fuel s ai_color opp_color depth use_ab (Some cap) =
        match root_loop (fun st a b => minimax fuel st (depth - 1) false ai_color
                                               opp_color a b use_ab (Some cap))
                        use_ab ai_color (forcing_then_rest s ai_color cap) s
                        None (- INF) (- INF) INF with
        | None => None
        | Some (best_move, best_score, s4) =>
            Some (best_move, best_score,
                  match best_move with
                  | Some (r, c) => snd (try_move_is_win s4 r c opp_color)
                  | None => s4
                  end)
        end)
  /\ (forall k depth alpha beta use_ab,
        minimax (S k) s depth true ai_color opp_color alpha beta use_ab (Some cap) =
        if (depth =? 0) || is_nil (candidate_moves s) then Some (evaluate s ai_color, s)
        else max_loop (fun st a b => minimax k st (depth - 1) false ai_color opp_color
                                             a b use_ab (Some cap))
                      use_ab ai_color (forcing_then_rest s ai_color cap) s
                      (- INF) alpha beta)
  /\ (forall k depth alpha beta use_ab,
        minimax (S k) s depth false ai_color opp_color alpha beta use_ab (Some cap) =
        if (depth =? 0) || is_nil (candidate_moves s) then Some (evaluate s ai_color, s)
        else min_loop (fun st a b => minimax k st (depth - 1) true ai_color opp_color
                                             a b use_ab (Some cap))
                      use_ab opp_color (forcing_then_rest s opp_color cap) s
                      INF alpha beta).
Proof.
  intros Hwf [Ho Ha] _.
  assert (H1 : capped ai_color opp_color (Some cap) (fst (ordered_candidates s ai_color)) s
               = (forcing_then_rest s ai_color cap, s))
    by (rewrite Ho; now apply capped_forcing_then_rest).
  assert (H2 : capped opp_color ai_color (Some cap) (fst (ordered_candidates s opp_color)) s
               = (forcing_then_rest s opp_color cap, s))
    by (rewrite Ha at 1; now apply capped_forcing_then_rest).
  assert (N1 : node_moves s ai_color opp_color (Some cap) = forcing_then_rest s ai_color cap)
    by (unfold node_moves; rewrite H1; reflexivity).
  assert (N2 : node_moves s opp_color ai_color (Some cap) = forcing_then_rest s opp_color cap)
    by (unfold node_moves; rewrite H2; reflexivity).
  split; [exact H1|]. split; [exact H2|]. split; [|split].
  - intros fuel depth use_ab. rewrite ai_search_scored_unfold by assumption.
    now rewrite N1.
  - intros k depth alpha beta use_ab. rewrite minimax_unfold_max by assumption.
    now rewrite N1.
  - intros k depth alpha beta use_ab. rewrite minimax_unfold_min by assumption.
    now rewrite N2.
Qed.

(** On [threat_board] with white to move and a cap of 0, the two blocks and
    the defensive moves are all kept and every rest move is dropped. *)
Lemma capped_keeps_forcing_moves_witness :
  fst (capped "white" "black" (Some 0) (fst (ordered_candidates threat_board "white"))
              threat_board)
  = [(7, 2); (7, 7); (9, 8); (9, 11)].
Proof.
  assert (Ho : opponents "white" "black") by (split; reflexivity).
  destruct (capped_keeps_forcing_moves threat_board "white" "black" 0 eq_refl Ho
              ltac:(lia)) as [H _].
  rewrite H. vm_compute. reflexivity.
Defined.

(** ** The search restores the board *)

Lemma filter_length_le {A : Type} (f g : A -> bool) (l : list A) :
  (forall x, In x l -> f x = true -> g x = true) ->
  (length (filter f l) <= length (filter g l))%nat.
Proof.
  induction l as [|h t IH]; intros H; cbn [filter]; [lia|].
  assert (IH' : (length (filter f t) <= length (filter g t))%nat)
    by (apply IH; intros x Hx; apply H; right; exact Hx).
  destruct (f h) eqn:Ef.
  - rewrite (H h (or_introl eq_refl) Ef). cbn [length]. lia.
  - destruct (g h); cbn [length]; lia.
Qed.

Lemma filter_length_lt {A : Type} (f g : A -> bool) (l : list A) (a : A) :
  (forall x, In x l -> f x = true -> g x = true) ->
  In a l -> f a = false -> g a = true ->
  (length (filter f l) < length (filter g l))%nat.
Proof.
  induction l as [|h t IH]; intros H Hin Hf Hg; [destruct Hin|].
  cbn [filter].
  assert (Ht : forall x, In x t -> f x = true -> g x = true)
    by (intros x Hx; apply H; right; exact Hx).
  destruct Hin as [->|Hin].
  - rewrite Hf, Hg. cbn [length].
    pose proof (filter_length_le f g t Ht). lia.
  - specialize (IH Ht Hin Hf Hg).
    destruct (f h) eqn:Ef.
    + rewrite (H h (or_introl eq_refl) Ef). cbn [length]. lia.
    + destruct (g h); cbn [length]; lia.
Qed.

(** A stone on an empty cell leaves fewer empty cells. *)
Lemma count_empty_place (s : State) (r c : Z) (x : string) :
  wf_board s = true -> empty_cell s (r, c) ->
  (count_empty (set_cell s r c (Some x)) < count_empty s)%nat.
Proof.
  intros Hwf [Hb He]. cbn [fst snd] in *. unfold count_empty, get_empty_cells.
  apply filter_length_lt with (a := (r, c)).
  - intros [r' c'] Hin. cbn [fst snd]. apply in_all_cells in Hin. cbn [fst snd] in Hin.
    destruct (Z.eq_dec r' r) as [->|Hr]; [destruct (Z.eq_dec c' c) as [->|Hc]|].
    + rewrite cell_set_same by assumption. discriminate.
    + rewrite cell_set_other by (try assumption; congruence). auto.
    + rewrite cell_set_other by (try assumption; congruence). auto.
  - apply in_all_cells. exact Hb.
  - cbn [fst snd]. now rewrite cell_set_same.
  - cbn [fst snd]. now rewrite He.
Qed.

Section LoopsRestore.

Variable rec : State -> Z -> Z -> option (Z * State).
Variables (use_ab : bool) (color : string) (s : State).
Hypothesis Hwf : wf_board s = true.

Lemma max_loop_restores (oc : list Move) :
  (forall m, In m oc -> empty_cell s m) ->
  (forall m, In m oc -> rec_restores rec color s m) ->
  forall value alpha beta, exists v,
    max_loop rec use_ab color oc s value alpha beta = Some (v, s).
Proof.
  induction oc as [|[r c] tl IH]; intros He Hrec value alpha beta.
  - exists value. reflexivity.
  - assert (Hc : cell s r c = None) by (apply (He (r, c)); left; reflexivity).
    assert (IH' : forall value alpha beta, exists v,
               max_loop rec use_ab color tl s value alpha beta = Some (v, s)).
    { apply IH; intros m Hm; [apply He|apply Hrec]; right; exact Hm. }
    cbn [max_loop].
    assert (Hev : exists evalv,
               (if is_win_at (set_cell s r c (Some color)) r c color
                then Some (WIN_VALUE, set_cell s r c (Some color))
                else rec (set_cell s r c (Some color)) alpha beta)
               = Some (evalv, set_cell s r c (Some color))).
    { destruct (is_win_at (set_cell s r c (Some color)) r c color).
      - exists WIN_VALUE. reflexivity.
      - apply (Hrec (r, c)). left. reflexivity. }
    destruct Hev as [evalv ->]. rewrite place_undo by assumption.
    destruct use_ab; [|apply IH'].
    match goal with |- context [if ?b then Some _ else _] => destruct b end;
      [eexists; reflexivity|apply IH'].
Qed.

Lemma min_loop_restores (oc : list Move) :
  (forall m, In m oc -> empty_cell s m) ->
  (forall m, In m oc -> rec_restores rec color s m) ->
  forall value alpha beta, exists v,
    min_loop rec use_ab color oc s value alpha beta = Some (v, s).
Proof.
  induction oc as [|[r c] tl IH]; intros He Hrec value alpha beta.
  - exists value. reflexivity.
  - assert (Hc : cell s r c = None) by (apply (He (r, c)); left; reflexivity).
    assert (IH' : forall value alpha beta, exists v,
               min_loop rec use_ab color tl s value alpha beta = Some (v, s)).
    { apply IH; intros m Hm; [apply He|apply Hrec]; right; exact Hm. }
    cbn [min_loop].
    assert (Hev : exists evalv,
               (if is_win_at (set_cell s r c (Some color)) r c color
                then Some (- WIN_VALUE, set_cell s r c (Some color))
                else rec (set_cell s r c (Some color)) alpha beta)
               = Some (evalv, set_cell s r c (Some color))).
    { destruct (is_win_at (set_cell s r c (Some color)) r c color).
      - exists (- WIN_VALUE). reflexivity.
      - apply (Hrec (r, c)). left. reflexivity. }
    destruct Hev as [evalv ->]. rewrite place_undo by assumption.
    destruct use_ab; [|apply IH'].
    match goal with |- context [if ?b then Some _ else _] => destruct b end;
      [eexists; reflexivity|apply IH'].
Qed.

Lemma root_loop_restores (oc : list Move) :
  (forall m, In m oc -> empty_cell s m) ->
  (forall m, In m oc -> rec_restores rec color s m) ->
  forall best_move best_score alpha beta, exists bm bs,
    root_loop rec use_ab color oc s best_move best_score alpha beta
    = Some (bm, bs, s)
    /\ (bm = best_move \/ exists m, bm = Some m /\ In m oc).
Proof.
  induction oc as [|[r c] tl IH]; intros He Hrec best_move best_score alpha beta.
  - exists best_move, best_score. split; [reflexivity|left; reflexivity].
  - assert (Hc : cell s r c = None) by (apply (He (r, c)); left; reflexivity).
    assert (IH' : forall best_move best_score alpha beta, exists bm bs,
               root_loop rec use_ab color tl s best_move best_score alpha beta
               = Some (bm, bs, s)
               /\ (bm = best_move \/ exists m, bm = Some m /\ In m tl)).
    { apply IH; intros m Hm; [apply He|apply Hrec]; right; exact Hm. }
    cbn [root_loop].
    destruct (Hrec (r, c) (or_introl eq_refl) alpha beta) as [val Hval].
    cbn [fst snd] in Hval. rewrite Hval. rewrite place_undo by assumption.
    assert (Hnew : forall bm,
               (bm = (if best_score <? val then Some (r, c) else best_move)
                \/ exists m, bm = Some m /\ In m tl) ->
               bm = best_move \/ exists m, bm = Some m /\ In m ((r, c) :: tl)).
    { intros bm [->|[m [-> Hm]]].
      - destruct (best_score <? val); [right; exists (r, c); split; [reflexivity|now left]
                                       |left; reflexivity].
      - right. exists m. split; [reflexivity|now right]. }
    destruct (best_score <? val).
    + destruct use_ab.
      * match goal with |- context [if ?b then Some _ else _] => destruct b end.
        -- eexists _, _. split; [reflexivity|]. apply Hnew. left. reflexivity.
        -- destruct (IH' (Some (r, c)) val (if alpha <? val then val else alpha) beta)
             as [bm [bs [E Hbm]]].
           exists bm, bs. split; [exact E|]. apply Hnew. exact Hbm.
      * destruct (IH' (Some (r, c)) val alpha beta) as [bm [bs [E Hbm]]].
        exists bm, bs. split; [exact E|]. apply Hnew. exact Hbm.
    + destruct use_ab.
      * match goal with |- context [if ?b then Some _ else _] => destruct b end.
        -- eexists _, _. split; [reflexivity|]. apply Hnew. left. reflexivity.
        -- destruct (IH' best_move best_score
                         (if alpha <? best_score then best_score else alpha) beta)
             as [bm [bs [E Hbm]]].
           exists bm, bs. split; [exact E|]. apply Hnew. exact Hbm.
      * destruct (IH' best_move best_score alpha beta) as [bm [bs [E Hbm]]].
        exists bm, bs. split; [exact E|]. apply Hnew. exact Hbm.
Qed.

End LoopsRestore.

(** [minimax] returns, and returns the board it was given, as soon as the
    fuel exceeds the number of empty cells. *)
Lemma minimax_restores (fuel : nat) :
  forall (s : State) (depth : Z) (maximizing : bool) (ai_color opp_color : string)
         (alpha beta : Z) (use_ab : bool) (cap : option Z),
    wf_board s = true -> (count_empty s < fuel)%nat ->
    exists v, minimax fuel s depth maximizing ai_color opp_color alpha beta use_ab cap
              = Some (v, s).
Proof.
  induction fuel as [|k IH]; intros s depth maximizing ai_color opp_color alpha beta
                                    use_ab cap Hwf Hfuel; [lia|].
  assert (Hrec : forall mx color m, empty_cell s m ->
            rec_restores (fun st a b => minimax k st (depth - 1) mx ai_color opp_color
                                                a b use_ab cap) color s m).
  { intros mx color [r c] Hm a b. cbn [fst snd]. apply IH.
    - now apply wf_set_cell.
    - pose proof (count_empty_place s r c color Hwf Hm). lia. }
  destruct maximizing.
  - rewrite minimax_unfold_max by assumption.
    destruct ((depth =? 0) || is_nil (candidate_moves s)); [eexists; reflexivity|].
    apply max_loop_restores; [assumption| |].
    + intros m Hm. apply candidate_moves_empty_cells.
      eapply node_moves_candidates; eassumption.
    + intros m Hm. apply Hrec. apply candidate_moves_empty_cells.
      eapply node_moves_candidates; eassumption.
  - rewrite minimax_unfold_min by assumption.
    destruct ((depth =? 0) || is_nil (candidate_moves s)); [eexists; reflexivity|].
    apply min_loop_restores; [assumption| |].
    + intros m Hm. apply candidate_moves_empty_cells.
      eapply node_moves_candidates; eassumption.
    + intros m Hm. apply Hrec. apply candidate_moves_empty_cells.
      eapply node_moves_candidates; eassumption.
Qed.

Lemma ai_search_scored_restores (fuel : nat) (s : State) (ai_color opp_color : string)
    (depth : Z) (use_ab : bool) (cap : option Z) :
  wf_board s = true -> (count_empty s < fuel)%nat ->
  exists bm bs,
    ai_search_scored fuel s ai_color opp_color depth use_ab cap = Some (bm, bs, s)
    /\ root_loop (fun st a b => minimax fuel st (depth - 1) false ai_color opp_color
                                        a b use_ab cap)
                 use_ab ai_color (node_moves s ai_color opp_color cap) s
                 None (- INF) (- INF) INF = Some (bm, bs, s).
Proof.
  intros Hwf Hfuel. rewrite ai_search_scored_unfold by assumption.
  assert (Hempty : forall m, In m (node_moves s ai_color opp_color cap) -> empty_cell s m).
  { intros m Hm. apply candidate_moves_empty_cells.
    eapply node_moves_candidates; eassumption. }
  destruct (root_loop_restores
              (fun st a b => minimax fuel st (depth - 1) false ai_color opp_color
                                     a b use_ab cap)
              use_ab ai_color s Hwf (node_moves s ai_color opp_color cap) Hempty)
    with (best_move := @None Move) (best_score := - INF) (alpha := - INF) (beta := INF)
    as [bm [bs [E Hbm]]].
  { intros [r c] Hm a b. cbn [fst snd]. apply minimax_restores.
    - now apply wf_set_cell.
    - pose proof (count_empty_place s r c ai_color Hwf (Hempty _ Hm)). lia. }
  exists bm, bs. rewrite E. split; [|reflexivity].
  destruct Hbm as [->|[[r c] [-> Hm]]]; [reflexivity|].
  rewrite try_move_is_win_empty by (try assumption; apply (Hempty (r, c) Hm)).
  reflexivity.
Qed.

(** C1.  [minimax] and [ai_search] leave the board exactly as they found
    it, for every board, colours, depth, alpha-beta flag and candidate cap:
    they return (given fuel for more levels than the board has empty cells)
    and the board they hand back is the board at entry.  The alpha-beta
    [break]s and the immediate-win short cut are among the paths covered. *)
Theorem search_restores_board (fuel : nat) (s : State) (depth : Z) (maximizing : bool)
    (ai_color opp_color : string) (alpha beta : Z) (use_ab : bool) (cap : option Z) :
  wf_board s = true -> (count_empty s < fuel)%nat ->
  (exists v, minimax fuel s depth maximizing ai_color opp_color alpha beta use_ab cap
             = Some (v, s))
  /\ (exists best_move,
        ai_search fuel s ai_color opp_color depth use_ab cap = Some (best_move, s)).
Proof.
  intros Hwf Hfuel. split; [now apply minimax_restores|].
  destruct (ai_search_scored_restores fuel s ai_color opp_color depth use_ab cap Hwf Hfuel)
    as [bm [bs [E _]]].
  exists bm. unfold ai_search. now rewrite E.
Qed.

Lemma search_restores_board_witness :
  (exists v, minimax 225 one_stone 2 true "white" "black" (- INF) INF true (Some 3)
             = Some (v, one_stone))
  /\ (exists best_move,
        ai_search 225 one_stone "white" "black" 2 true (Some 3)
        = Some (best_move, one_stone)).
Proof.
  apply (search_restores_board 225 one_stone 2 true "white" "black" (- INF) INF true (Some 3)).
  - reflexivity.
  - apply Nat.ltb_lt. vm_compute. reflexivity.
Defined.

(** ** More fuel does not change a result *)

Section LoopsMono.

Variables rec rec' : State -> Z -> Z -> option (Z * State).
Variables (use_ab : bool) (color : string).
Hypothesis Hrec : forall st a b x, rec st a b = Some x -> rec' st a b = Some x.

Lemma max_loop_mono (oc : list Move) :
  forall s value alpha beta y,
    max_loop rec use_ab color oc s value alpha beta = Some y ->
    max_loop rec' use_ab color oc s value alpha beta = Some y.
Proof.
  induction oc as [|[r c] tl IH]; intros s value alpha beta y; [auto|].
  cbn [max_loop].
  destruct (is_win_at (set_cell s r c (Some color)) r c color).
  - destruct use_ab; [|apply IH].
    match goal with |- context [if ?b then Some _ else _] => destruct b end;
      [auto|apply IH].
  - destruct (rec (set_cell s r c (Some color)) alpha beta) as [[evalv s2]|] eqn:E;
      [|discriminate].
    rewrite (Hrec _ _ _ _ E).
    destruct use_ab; [|apply IH].
    match goal with |- context [if ?b then Some _ else _] => destruct b end;
      [auto|apply IH].
Qed.

Lemma min_loop_mono (oc : list Move) :
  forall s value alpha beta y,
    min_loop rec use_ab color oc s value alpha beta = Some y ->
    min_loop rec' use_ab color oc s value alpha beta = Some y.
Proof.
  induction oc as [|[r c] tl IH]; intros s value alpha beta y; [auto|].
  cbn [min_loop].
  destruct (is_win_at (set_cell s r c (Some color)) r c color).
  - destruct use_ab; [|apply IH].
    match goal with |- context [if ?b then Some _ else _] => destruct b end;
      [auto|apply IH].
  - destruct (rec (set_cell s r c (Some color)) alpha beta) as [[evalv s2]|] eqn:E;
      [|discriminate].
    rewrite (Hrec _ _ _ _ E).
    destruct use_ab; [|apply IH].
    match goal with |- context [if ?b then Some _ else _] => destruct b end;
      [auto|apply IH].
Qed.

End LoopsMono.

Lemma minimax_S (k : nat) (s : State) (depth : Z) (maximizing : bool)
    (ai_color opp_color : string) (alpha beta : Z) (use_ab : bool) (cap : option Z) :
  minimax (S k) s depth maximizing ai_color opp_color alpha beta use_ab cap =
  if (depth =? 0) || is_nil (candidate_moves s) then Some (evaluate s ai_color, s)
  else
    let rec := fun st a b =>
      minimax k st (depth - 1) (negb maximizing) ai_color opp_color a b use_ab cap in
    if maximizing then
      let '(oc, s1) := ordered_candidates s ai_color in
      let '(oc, s2) := capped ai_color opp_color cap oc s1 in
      max_loop rec use_ab ai_color oc s2 (- INF) alpha beta
    else
      let '(oc, s1) := ordered_candidates s opp_color in
      let '(oc, s2) := capped opp_color ai_color cap oc s1 in
      min_loop rec use_ab opp_color oc s2 INF alpha beta.
Proof. reflexivity. Qed.

(** A result of [minimax] stays the result with one more unit of fuel. *)
Lemma minimax_fuel_step (fuel : nat) :
  forall s depth maximizing ai_color opp_color alpha beta use_ab cap x,
    minimax fuel s depth maximizing ai_color opp_color alpha beta use_ab cap = Some x ->
    minimax (S fuel) s depth maximizing ai_color opp_color alpha beta use_ab cap = Some x.
Proof.
  induction fuel as [|k IH];
    intros s depth maximizing ai_color opp_color alpha beta use_ab cap x H;
    [discriminate H|].
  rewrite minimax_S in H. rewrite (minimax_S (S k)).
  destruct ((depth =? 0) || is_nil (candidate_moves s)); [exact H|].
  cbv zeta in *. destruct maximizing.
  - destruct (ordered_candidates s ai_color) as [oc s1].
    destruct (capped ai_color opp_color cap oc s1) as [oc' s2].
    revert H. apply max_loop_mono. intros st a b y. apply IH.
  - destruct (ordered_candidates s opp_color) as [oc s1].
    destruct (capped opp_color ai_color cap oc s1) as [oc' s2].
    revert H. apply min_loop_mono. intros st a b y. apply IH.
Qed.

(** With enough fuel the result of [minimax] does not depend on the fuel. *)
Lemma minimax_fuel_irrelevant (fuel fuel' : nat) (s : State) (depth : Z)
    (maximizing : bool) (ai_color opp_color : string) (alpha beta : Z)
    (use_ab : bool) (cap : option Z) :
  wf_board s = true ->
  (count_empty s < fuel)%nat -> (count_empty s < fuel')%nat ->
  minimax fuel s depth maximizing ai_color opp_color alpha beta use_ab cap
  = minimax fuel' s depth maximizing ai_color opp_color alpha beta use_ab cap.
Proof.
  assert (Hup : forall d f x,
             minimax f s depth maximizing ai_color opp_color alpha beta use_ab cap = Some x ->
             minimax (d + f) s depth maximizing ai_color opp_color alpha beta use_ab cap
             = Some x).
  { induction d as [|d IHd]; intros f x H; [exact H|].
    cbn [Nat.add]. apply minimax_fuel_step. now apply IHd. }
  intros Hwf H1 H2.
  destruct (minimax_restores fuel s depth maximizing ai_color opp_color alpha beta
              use_ab cap Hwf H1) as [v1 E1].
  destruct (minimax_restores fuel' s depth maximizing ai_color opp_color alpha beta
              use_ab cap Hwf H2) as [v2 E2].
  rewrite E1, E2.
  destruct (Nat.le_ge_cases fuel fuel') as [Hle|Hle].
  - pose proof (Hup (fuel' - fuel)%nat fuel _ E1) as E.
    replace (fuel' - fuel + fuel)%nat with fuel' in E by lia. congruence.
  - pose proof (Hup (fuel - fuel')%nat fuel' _ E2) as E.
    replace (fuel - fuel' + fuel')%nat with fuel in E by lia. congruence.
Qed.

(** ** The range of the evaluation *)

Lemma window_score_range (color : string) (seq : list Cell) (i : Z) :
  0 <= window_score color seq i <= W_FIVE.
Proof.
  unfold window_score.
  repeat match goal with
         | |- context [if ?b then _ else _] => destruct b
         end;
    unfold W_FIVE, W_OPEN_FOUR, W_CLOSED_FOUR, W_OPEN_THREE, W_CLOSED_THREE, W_OPEN_TWO;
    lia.
Qed.

Lemma fold_sum_range {A : Type} (f : A -> Z) (k : Z) (l : list A) :
  (forall x, 0 <= f x <= k) ->
  forall acc, acc <= fold_left (fun s x => s + f x) l acc <= acc + k * zlen l.
Proof.
  intros Hf. unfold zlen. induction l as [|h t IH]; intros acc; cbn [fold_left length].
  - lia.
  - specialize (IH (acc + f h)). specialize (Hf h). nia.
Qed.

Lemma fold_sum_range_in {A : Type} (f : A -> Z) (k : Z) (l : list A) :
  (forall x, In x l -> 0 <= f x <= k) ->
  forall acc, acc <= fold_left (fun s x => s + f x) l acc <= acc + k * zlen l.
Proof.
  unfold zlen. induction l as [|h t IH]; intros Hf acc; cbn [fold_left length].
  - lia.
  - assert (Ht : forall x, In x t -> 0 <= f x <= k) by (intros x Hx; apply Hf; now right).
    specialize (IH Ht (acc + f h)). specialize (Hf h (or_introl eq_refl)). nia.
Qed.

Lemma seq_score_range (color : string) (seq : list Cell) :
  (length seq <= 15)%nat -> 0 <= seq_score color seq <= 11 * W_FIVE.
Proof.
  intros Hlen. unfold seq_score.
  pose proof (fold_sum_range (window_score color seq) W_FIVE
                (zrange 0 (zlen seq - 4)) (window_score_range color seq) 0) as H.
  unfold zlen in *. rewrite zrange_length in H. unfold W_FIVE in *. lia.
Qed.

Lemma flat_map_length_le {A B : Type} (f : A -> list B) (k : nat) (l : list A) :
  (forall x, (length (f x) <= k)%nat) ->
  (length (flat_map f l) <= k * length l)%nat.
Proof.
  intros Hf. induction l as [|h t IH]; cbn [flat_map length]; [lia|].
  rewrite length_app. specialize (Hf h). lia.
Qed.

Lemma board_lines_count (s : State) : (length (board_lines s) <= 72)%nat.
Proof.
  unfold board_lines. rewrite !length_app, !length_map, !zrange_length.
  match goal with
  | |- context [length (flat_map ?f ?l)] =>
      pose proof (flat_map_length_le f 2 l) as H
  end.
  rewrite zrange_length in H. unfold BOARD_SIZE in *.
  assert (Hlen : forall b1 b2 (x y : list Cell),
             (length ((if b1 : bool then [x] else []) ++ (if b2 : bool then [y] else []))
              <= 2)%nat)
    by (intros [] [] x y; cbn; lia).
  specialize (H (fun d => Hlen _ _ _ _)).
  change (Z.to_nat (15 - 0)) with 15%nat.
  change (Z.to_nat (15 - 4 - - (15 - 5))) with 21%nat in *. lia.
Qed.

Lemma board_lines_length (s : State) (ln : list Cell) :
  In ln (board_lines s) -> (length ln <= 15)%nat.
Proof.
  assert (Hd : forall (f : Z -> list Cell),
             (forall r, (length (f r) <= 1)%nat) ->
             (length (flat_map f (zrange 0 BOARD_SIZE)) <= 15)%nat).
  { intros f Hf. pose proof (flat_map_length_le f 1 (zrange 0 BOARD_SIZE) Hf) as H.
    rewrite zrange_length in H. unfold BOARD_SIZE in *.
    change (Z.to_nat (15 - 0)) with 15%nat in H. lia. }
  unfold board_lines. rewrite !in_app_iff, !in_map_iff, in_flat_map.
  intros [[r [<- _]]|[[c [<- _]]|[d [_ H]]]].
  - rewrite length_map, zrange_length. unfold BOARD_SIZE. cbn. lia.
  - rewrite length_map, zrange_length. unfold BOARD_SIZE. cbn. lia.
  - apply in_app_iff in H. destruct H as [H|H].
    + match type of H with In _ (if ?b then _ else _) => destruct b end;
        [|destruct H]. destruct H as [<-|[]].
      apply Hd. intros r. cbn zeta.
      match goal with |- context [if ?b then _ else _] => destruct b end; cbn; lia.
    + match type of H with In _ (if ?b then _ else _) => destruct b end;
        [|destruct H]. destruct H as [<-|[]].
      apply Hd. intros r. cbn zeta.
      match goal with |- context [if ?b then _ else _] => destruct b end; cbn; lia.
Qed.

Lemma score_color_range (s : State) (color : string) :
  0 <= score_color s color <= SCORE_BOUND.
Proof.
  unfold score_color.
  pose proof (fold_sum_range_in (seq_score color) (11 * W_FIVE) (board_lines s)) as H.
  assert (Hl : forall x, In x (board_lines s) -> 0 <= seq_score color x <= 11 * W_FIVE)
    by (intros x Hx; apply seq_score_range; now apply board_lines_length with (s := s)).
  specialize (H Hl 0). pose proof (board_lines_count s) as Hc.
  unfold zlen, SCORE_BOUND, W_FIVE in *. lia.
Qed.

Lemma evaluate_range (s : State) (color : string) :
  - SCORE_BOUND <= evaluate s color <= SCORE_BOUND.
Proof.
  unfold evaluate.
  pose proof (score_color_range s color).
  pose proof (score_color_range s (other_color color)). lia.
Qed.

(** ** The range of the search values *)

Section LoopsBounded.

Variable rec : State -> Z -> Z -> option (Z * State).
Variables (use_ab : bool) (color : string) (s : State).
Hypothesis Hwf : wf_board s = true.

Lemma max_loop_bounded (oc : list Move) :
  (forall m, In m oc -> empty_cell s m) ->
  (forall m, In m oc -> rec_bounded rec color s m) ->
  forall value alpha beta,
    value <= SCORE_BOUND -> (- SCORE_BOUND <= value \/ oc <> []) ->
    exists v, max_loop rec use_ab color oc s value alpha beta = Some (v, s)
              /\ in_range v.
Proof.
  induction oc as [|[r c] tl IH]; intros He Hrec value alpha beta Hhi Hlo.
  - exists value. split; [reflexivity|]. unfold in_range.
    destruct Hlo as [Hlo|Hlo]; [lia|congruence].
  - assert (Hc : cell s r c = None) by (apply (He (r, c)); left; reflexivity).
    assert (IH' : forall value alpha beta, in_range value -> exists v,
               max_loop rec use_ab color tl s value alpha beta = Some (v, s)
               /\ in_range v).
    { intros v a b Hv. unfold in_range in Hv.
      apply IH; [| |lia|left; lia]; intros m Hm; [apply He|apply Hrec]; right; exact Hm. }
    cbn [max_loop].
    assert (Hev : exists evalv,
               (if is_win_at (set_cell s r c (Some color)) r c color
                then Some (WIN_VALUE, set_cell s r c (Some color))
                else rec (set_cell s r c (Some color)) alpha beta)
               = Some (evalv, set_cell s r c (Some color)) /\ in_range evalv).
    { destruct (is_win_at (set_cell s r c (Some color)) r c color).
      - exists WIN_VALUE. split; [reflexivity|].
        unfold in_range, WIN_VALUE, SCORE_BOUND. lia.
      - apply (Hrec (r, c)). left. reflexivity. }
    destruct Hev as [evalv [-> Hin]]. rewrite place_undo by assumption.
    assert (Hv : in_range (if value <? evalv then evalv else value)).
    { unfold in_range in *. destruct (Z.ltb_spec value evalv); lia. }
    destruct use_ab; [|now apply IH'].
    match goal with |- context [if ?b then Some _ else _] => destruct b end;
      [eexists; split; [reflexivity|exact Hv]|now apply IH'].
Qed.

Lemma min_loop_bounded (oc : list Move) :
  (forall m, In m oc -> empty_cell s m) ->
  (forall m, In m oc -> rec_bounded rec color s m) ->
  forall value alpha beta,
    - SCORE_BOUND <= value -> (value <= SCORE_BOUND \/ oc <> []) ->
    exists v, min_loop rec use_ab color oc s value alpha beta = Some (v, s)
              /\ in_range v.
Proof.
  induction oc as [|[r c] tl IH]; intros He Hrec value alpha beta Hlo Hhi.
  - exists value. split; [reflexivity|]. unfold in_range.
    destruct Hhi as [Hhi|Hhi]; [lia|congruence].
  - assert (Hc : cell s r c = None) by (apply (He (r, c)); left; reflexivity).
    assert (IH' : forall value alpha beta, in_range value -> exists v,
               min_loop rec use_ab color tl s value alpha beta = Some (v, s)
               /\ in_range v).
    { intros v a b Hv. unfold in_range in Hv.
      apply IH; [| |lia|left; lia]; intros m Hm; [apply He|apply Hrec]; right; exact Hm. }
    cbn [min_loop].
    assert (Hev : exists evalv,
               (if is_win_at (set_cell s r c (Some color)) r c color
                then Some (- WIN_VALUE, set_cell s r c (Some color))
                else rec (set_cell s r c (Some color)) alpha beta)
               = Some (evalv, set_cell s r c (Some color)) /\ in_range evalv).
    { destruct (is_win_at (set_cell s r c (Some color)) r c color).
      - exists (- WIN_VALUE). split; [reflexivity|].
        unfold in_range, WIN_VALUE, SCORE_BOUND. lia.
      - apply (Hrec (r, c)). left. reflexivity. }
    destruct Hev as [evalv [-> Hin]]. rewrite place_undo by assumption.
    assert (Hv : in_range (if evalv <? value then evalv else value)).
    { unfold in_range in *. destruct (Z.ltb_spec evalv value); lia. }
    destruct use_ab; [|now apply IH'].
    match goal with |- context [if ?b then Some _ else _] => destruct b end;
      [eexists; split; [reflexivity|exact Hv]|now apply IH'].
Qed.

(** The root keeps a move as soon as one candidate has been scored. *)
Lemma root_loop_some (oc : list Move) :
  (forall m, In m oc -> empty_cell s m) ->
  (forall m, In m oc -> rec_bounded rec color s m) ->
  forall best_move best_score alpha beta,
    (best_move <> None \/ (oc <> [] /\ best_score < - SCORE_BOUND)) ->
    exists m bs,
      root_loop rec use_ab color oc s best_move best_score alpha beta
      = Some (Some m, bs, s).
Proof.
  induction oc as [|[r c] tl IH]; intros He Hrec best_move best_score alpha beta Hinit.
  - destruct Hinit as [Hb|[Hne _]]; [|congruence].
    destruct best_move as [m|]; [|congruence].
    exists m, best_score. reflexivity.
  - assert (Hc : cell s r c = None) by (apply (He (r, c)); left; reflexivity).
    assert (IH' : forall best_move best_score alpha beta, best_move <> None ->
               exists m bs,
                 root_loop rec use_ab color tl s best_move best_score alpha beta
                 = Some (Some m, bs, s)).
    { intros bm bs a b Hbm.
      apply IH; [| |left; exact Hbm]; intros m Hm; [apply He|apply Hrec]; right; exact Hm. }
    cbn [root_loop].
    destruct (Hrec (r, c) (or_introl eq_refl) alpha beta) as [val [Hval Hin]].
    cbn [fst snd] in Hval. rewrite Hval. rewrite place_undo by assumption.
    assert (Hbm : (if best_score <? val then Some (r, c) else best_move) <> None).
    { destruct (Z.ltb_spec best_score val); [discriminate|].
      destruct Hinit as [Hb|[_ Hlt]]; [exact Hb|]. unfold in_range in Hin. lia. }
    destruct (best_score <? val).
    + destruct use_ab; [|now apply IH'].
      match goal with |- context [if ?b then Some _ else _] => destruct b end;
        [eexists _, _; reflexivity|now apply IH'].
    + destruct best_move as [m0|]; [|exfalso; now apply Hbm].
      destruct use_ab; [|now apply IH'].
      match goal with |- context [if ?b then Some _ else _] => destruct b end;
        [eexists _, _; reflexivity|now apply IH'].
Qed.

End LoopsBounded.

Lemma is_nil_false {A : Type} (l : list A) : is_nil l = false <-> l <> [].
Proof. destruct l; cbn; split; congruence. Qed.

Lemma node_moves_nonempty (s : State) (mover opp : string) (cap : option Z) :
  wf_board s = true -> cap_positive cap ->
  candidate_moves s <> [] -> node_moves s mover opp cap <> [].
Proof.
  intros Hwf Hcap Hne. unfold node_moves.
  apply capped_nonempty; try assumption.
  - intros m. now apply ordered_candidates_empty_cells.
  - destruct (candidate_moves s) as [|m l] eqn:E; [congruence|].
    assert (Hin : In m (fst (ordered_candidates s mover))).
    { apply in_ordered_candidates; [assumption|]. rewrite E. now left. }
    intros E'. rewrite E' in Hin. destruct Hin.
Qed.

(** With no cap or a cap of at least one, every value [minimax] returns is
    an evaluation or a win value. *)
Lemma minimax_bounded (fuel : nat) :
  forall (s : State) (depth : Z) (maximizing : bool) (ai_color opp_color : string)
         (alpha beta : Z) (use_ab : bool) (cap : option Z),
    wf_board s = true -> (count_empty s < fuel)%nat -> cap_positive cap ->
    exists v, minimax fuel s depth maximizing ai_color opp_color alpha beta use_ab cap
              = Some (v, s) /\ in_range v.
Proof.
  induction fuel as [|k IH]; intros s depth maximizing ai_color opp_color alpha beta
                                    use_ab cap Hwf Hfuel Hcap; [lia|].
  assert (Hrec : forall mx color m, empty_cell s m ->
            rec_bounded (fun st a b => minimax k st (depth - 1) mx ai_color opp_color
                                               a b use_ab cap) color s m).
  { intros mx color [r c] Hm a b. cbn [fst snd]. apply IH; [| |assumption].
    - now apply wf_set_cell.
    - pose proof (count_empty_place s r c color Hwf Hm). lia. }
  assert (Hempty : forall mover opp m, In m (node_moves s mover opp cap) -> empty_cell s m).
  { intros mover opp m Hm. apply candidate_moves_empty_cells.
    eapply node_moves_candidates; eassumption. }
  destruct maximizing.
  - rewrite minimax_unfold_max by assumption.
    destruct ((depth =? 0) || is_nil (candidate_moves s)) eqn:Eleaf.
    + eexists. split; [reflexivity|]. apply evaluate_range.
    + apply orb_false_iff in Eleaf. destruct Eleaf as [_ Hne]. apply is_nil_false in Hne.
      apply max_loop_bounded; [assumption|apply Hempty| | |].
      * intros m Hm. apply Hrec. eapply Hempty; eassumption.
      * unfold INF, SCORE_BOUND. lia.
      * right. now apply node_moves_nonempty.
  - rewrite minimax_unfold_min by assumption.
    destruct ((depth =? 0) || is_nil (candidate_moves s)) eqn:Eleaf.
    + eexists. split; [reflexivity|]. apply evaluate_range.
    + apply orb_false_iff in Eleaf. destruct Eleaf as [_ Hne]. apply is_nil_false in Hne.
      apply min_loop_bounded; [assumption|apply Hempty| | |].
      * intros m Hm. apply Hrec. eapply Hempty; eassumption.
      * unfold INF, SCORE_BOUND. lia.
      * right. now apply node_moves_nonempty.
Qed.

Lemma candidate_moves_nil (s : State) :
  candidate_moves s = [] <-> get_empty_cells s = [].
Proof.
  destruct (existsb (fun m => negb (is_empty (cell s (fst m) (snd m)))) all_cells) eqn:E.
  - rewrite candidate_moves_stone by (now apply any_stone_spec).
    destruct (filter (fun m => neighbors_exist s (fst m) (snd m) 2) (get_empty_cells s))
      as [|x l] eqn:F; [tauto|].
    split; [discriminate|]. intros E'. rewrite E' in F. discriminate.
  - split.
    + unfold candidate_moves. rewrite E. discriminate.
    + intros He. exfalso.
      assert (Hc : In (CENTER, CENTER) (candidate_moves s))
        by (unfold candidate_moves; rewrite E; now left).
      apply candidate_moves_empty_cells, in_get_empty_cells in Hc.
      rewrite He in Hc. destruct Hc.
Qed.

(** C4, as stated, fails for a cap of 0: on [one_stone], which has 224 empty
    cells and no win, block or defensive move for white, [ai_search] with
    [max_candidates=0] has no candidate left and returns [None]. *)
Lemma ai_search_none_with_empty_cells :
  wf_board one_stone = true
  /\ In (0, 0) (get_empty_cells one_stone)
  /\ ai_search 225 one_stone "white" "black" 1 false (Some 0) = Some (None, one_stone).
Proof. repeat split; vm_compute; auto. Qed.

(** C4, amended.  For every board, colours, depth >= 1 and alpha-beta flag,
    and with no cap or a cap of at least 1, [ai_search] returns [None] only
    when the board has no empty cell; when an empty cell exists it returns a
    move. *)
Theorem ai_search_none_iff_full (fuel : nat) (s : State) (ai_color opp_color : string)
    (depth : Z) (use_ab : bool) (cap : option Z) :
  wf_board s = true -> (count_empty s < fuel)%nat ->
  1 <= depth -> cap_positive cap ->
  exists best_move,
    ai_search fuel s ai_color opp_color depth use_ab cap = Some (best_move, s)
    /\ (best_move = None <-> get_empty_cells s = []).
Proof.
  intros Hwf Hfuel _ Hcap.
  destruct (ai_search_scored_restores fuel s ai_color opp_color depth use_ab cap Hwf Hfuel)
    as [bm [bs [E Hroot]]].
  exists bm. split; [unfold ai_search; now rewrite E|].
  rewrite <- candidate_moves_nil.
  destruct (candidate_moves s) as [|m0 l0] eqn:Ecm.
  - assert (Hn : node_moves s ai_color opp_color cap = []).
    { destruct (node_moves s ai_color opp_color cap) as [|m l] eqn:En; [reflexivity|].
      assert (Hin : In m (candidate_moves s)).
      { eapply node_moves_candidates; [eassumption|]. rewrite En. now left. }
      rewrite Ecm in Hin. destruct Hin. }
    rewrite Hn in Hroot. cbn in Hroot. inversion Hroot. tauto.
  - assert (Hempty : forall m, In m (node_moves s ai_color opp_color cap) -> empty_cell s m).
    { intros m Hm. apply candidate_moves_empty_cells.
      eapply node_moves_candidates; eassumption. }
    destruct (root_loop_some
                (fun st a b => minimax fuel st (depth - 1) false ai_color opp_color
                                       a b use_ab cap)
                use_ab ai_color s Hwf (node_moves s ai_color opp_color cap) Hempty)
      with (best_move := @None Move) (best_score := - INF) (alpha := - INF) (beta := INF)
      as [m [bs' Hsome]].
    + intros [r c] Hm a b. cbn [fst snd]. apply minimax_bounded; [| |assumption].
      * now apply wf_set_cell.
      * pose proof (count_empty_place s r c ai_color Hwf (Hempty _ Hm)). lia.
    + right. split.
      * apply node_moves_nonempty; try assumption. rewrite Ecm. discriminate.
      * unfold INF, SCORE_BOUND. lia.
    + rewrite Hsome in Hroot. inversion Hroot. split; discriminate.
Qed.

Lemma ai_search_none_iff_full_witness :
  exists best_move,
    ai_search 225 one_stone "white" "black" 1 true (Some 1) = Some (best_move, one_stone)
    /\ (best_move = None <-> get_empty_cells one_stone = []).
Proof.
  apply (ai_search_none_iff_full 225 one_stone "white" "black" 1 true (Some 1)).
  - reflexivity.
  - apply Nat.ltb_lt. vm_compute. reflexivity.
  - lia.
  - intros k E. inversion E. lia.
Defined.

(** ** Alpha-beta pruning against the full search *)

Section LoopsPrune.

Variables rec_full rec_ab : State -> Z -> Z -> option (Z * State).
Variables (color : string) (s : State).
Hypothesis Hwf : wf_board s = true.

(** The value of a child in both searches. *)
Lemma child_values (win_value r c a b : Z) :
  rec_prunes rec_full rec_ab color s (r, c) ->
  - INF <= a -> a < b -> b <= INF ->
  let s1 := set_cell s r c (Some color) in
  exists t rc,
    (if is_win_at s1 r c color then Some (win_value, s1) else rec_ab s1 a b)
    = Some (rc, s1)
    /\ (forall af bf,
          (if is_win_at s1 r c color then Some (win_value, s1) else rec_full s1 af bf)
          = Some (t, s1))
    /\ fail_soft rc t a b.
Proof.
  intros [t [Hfull Hab]] Ha Hab' Hb s1. cbn [fst snd] in *. fold s1 in Hfull, Hab.
  destruct (is_win_at s1 r c color).
  - exists win_value, win_value. split; [reflexivity|]. split; [reflexivity|].
    unfold fail_soft. lia.
  - destruct (Hab a b Ha Hab' Hb) as [rc [E Hfs]].
    exists t, rc. split; [exact E|]. split; [exact Hfull|exact Hfs].
Qed.

Lemma max_loop_full_value (oc : list Move) :
  (forall m, In m oc -> empty_cell s m) ->
  (forall m, In m oc -> rec_prunes rec_full rec_ab color s m) ->
  forall V, exists F,
    V <= F
    /\ forall af bf, max_loop rec_full false color oc s V af bf = Some (F, s).
Proof.
  induction oc as [|[r c] tl IH]; intros He Hrec V.
  - exists V. split; [lia|reflexivity].
  - assert (Hc : cell s r c = None) by (apply (He (r, c)); left; reflexivity).
    destruct (child_values WIN_VALUE r c (- INF) INF
                (Hrec (r, c) (or_introl eq_refl)))
      as [t [rc [_ [Hfull _]]]]; [lia|unfold INF; lia|lia|].
    destruct (IH (fun m Hm => He m (or_intror Hm)) (fun m Hm => Hrec m (or_intror Hm))
                 (if V <? t then t else V)) as [F [HF HE]].
    exists F. split; [destruct (Z.ltb_spec V t); lia|].
    intros af bf. cbn [max_loop]. rewrite Hfull, place_undo by assumption. apply HE.
Qed.

Lemma min_loop_full_value (oc : list Move) :
  (forall m, In m oc -> empty_cell s m) ->
  (forall m, In m oc -> rec_prunes rec_full rec_ab color s m) ->
  forall V, exists F,
    F <= V
    /\ forall af bf, min_loop rec_full false color oc s V af bf = Some (F, s).
Proof.
  induction oc as [|[r c] tl IH]; intros He Hrec V.
  - exists V. split; [lia|reflexivity].
  - assert (Hc : cell s r c = None) by (apply (He (r, c)); left; reflexivity).
    destruct (child_values (- WIN_VALUE) r c (- INF) INF
                (Hrec (r, c) (or_introl eq_refl)))
      as [t [rc [_ [Hfull _]]]]; [lia|unfold INF; lia|lia|].
    destruct (IH (fun m Hm => He m (or_intror Hm)) (fun m Hm => Hrec m (or_intror Hm))
                 (if t <? V then t else V)) as [F [HF HE]].
    exists F. split; [destruct (Z.ltb_spec t V); lia|].
    intros af bf. cbn [min_loop]. rewrite Hfull, place_undo by assumption. apply HE.
Qed.

(** The maximizing loop: [v], [a] are the value and alpha of the pruned
    run, [V] the value of the full run at the same point, [alpha0] the
    alpha the node was entered with. *)
Lemma max_loop_prunes (alpha0 beta : Z) (oc : list Move) :
  - INF <= alpha0 -> beta <= INF ->
  (forall m, In m oc -> empty_cell s m) ->
  (forall m, In m oc -> rec_prunes rec_full rec_ab color s m) ->
  forall v a V,
    a < beta -> a = Z.max alpha0 v -> V <= v -> (v <= alpha0 \/ v = V) ->
    exists r F,
      max_loop rec_ab true color oc s v a beta = Some (r, s)
      /\ (forall af bf, max_loop rec_full false color oc s V af bf = Some (F, s))
      /\ fail_soft r F alpha0 beta.
Proof.
  intros Ha0 Hb0. induction oc as [|[r c] tl IH]; intros He Hrec v a V Hab Ha HV Hrel.
  - exists v, V. split; [reflexivity|]. split; [reflexivity|]. unfold fail_soft. lia.
  - assert (Hc : cell s r c = None) by (apply (He (r, c)); left; reflexivity).
    assert (He' := fun m Hm => He m (or_intror Hm)).
    assert (Hrec' := fun m Hm => Hrec m (or_intror Hm)).
    destruct (child_values WIN_VALUE r c a beta (Hrec (r, c) (or_introl eq_refl)))
      as [t [rc [Hrc [Hfull Hfs]]]]; [lia|lia|lia|].
    cbn [max_loop]. rewrite Hrc. rewrite place_undo by assumption.
    remember (if v <? rc then rc else v) as v' eqn:Ev'.
    remember (if V <? t then t else V) as V' eqn:EV'.
    remember (if a <? v' then v' else a) as a' eqn:Ea'.
    assert (Hv' : v' = Z.max v rc) by (subst v'; destruct (Z.ltb_spec v rc); lia).
    assert (HV' : V' = Z.max V t) by (subst V'; destruct (Z.ltb_spec V t); lia).
    assert (Ha' : a' = Z.max a v') by (subst a'; destruct (Z.ltb_spec a v'); lia).
    destruct (Z.leb_spec beta a') as [Hcut|Hgo].
    + destruct (max_loop_full_value tl He' Hrec' V') as [F [HF HE]].
      exists v', F. split; [reflexivity|]. split.
      * intros af bf. cbn [max_loop]. rewrite Hfull, place_undo by assumption.
        rewrite <- EV'. apply HE.
      * clear Ev' EV' Ea'. unfold fail_soft in *. lia.
    + destruct (IH He' Hrec' v' a' V') as [r' [F [E1 [E2 Hfs']]]];
        [lia|lia|clear Ev' EV' Ea'; unfold fail_soft in *; lia
        |clear Ev' EV' Ea'; unfold fail_soft in *; lia|].
      exists r', F. split; [exact E1|]. split; [|exact Hfs'].
      intros af bf. cbn [max_loop]. rewrite Hfull, place_undo by assumption.
      rewrite <- EV'. apply E2.
Qed.

(** The minimizing loop, with [b] the beta of the pruned run and [beta0]
    the beta the node was entered with. *)
Lemma min_loop_prunes (alpha beta0 : Z) (oc : list Move) :
  - INF <= alpha -> beta0 <= INF ->
  (forall m, In m oc -> empty_cell s m) ->
  (forall m, In m oc -> rec_prunes rec_full rec_ab color s m) ->
  forall v b V,
    alpha < b -> b = Z.min beta0 v -> v <= V -> (beta0 <= v \/ v = V) ->
    exists r F,
      min_loop rec_ab true color oc s v alpha b = Some (r, s)
      /\ (forall af bf, min_loop rec_full false color oc s V af bf = Some (F, s))
      /\ fail_soft r F alpha beta0.
Proof.
  intros Ha0 Hb0. induction oc as [|[r c] tl IH]; intros He Hrec v b V Hab Hb HV Hrel.
  - exists v, V. split; [reflexivity|]. split; [reflexivity|]. unfold fail_soft. lia.
  - assert (Hc : cell s r c = None) by (apply (He (r, c)); left; reflexivity).
    assert (He' := fun m Hm => He m (or_intror Hm)).
    assert (Hrec' := fun m Hm => Hrec m (or_intror Hm)).
    destruct (child_values (- WIN_VALUE) r c alpha b
                (Hrec (r, c) (or_introl eq_refl)))
      as [t [rc [Hrc [Hfull Hfs]]]]; [lia|lia|lia|].
    cbn [min_loop]. rewrite Hrc. rewrite place_undo by assumption.
    remember (if rc <? v then rc else v) as v' eqn:Ev'.
    remember (if t <? V then t else V) as V' eqn:EV'.
    remember (if v' <? b then v' else b) as b' eqn:Eb'.
    assert (Hv' : v' = Z.min v rc) by (subst v'; destruct (Z.ltb_spec rc v); lia).
    assert (HV' : V' = Z.min V t) by (subst V'; destruct (Z.ltb_spec t V); lia).
    assert (Hb' : b' = Z.min b v') by (subst b'; destruct (Z.ltb_spec v' b); lia).
    destruct (Z.leb_spec b' alpha) as [Hcut|Hgo].
    + destruct (min_loop_full_value tl He' Hrec' V') as [F [HF HE]].
      exists v', F. split; [reflexivity|]. split.
      * intros af bf. cbn [min_loop]. rewrite Hfull, place_undo by assumption.
        rewrite <- EV'. apply HE.
      * clear Ev' EV' Eb'. unfold fail_soft in *. lia.
    + destruct (IH He' Hrec' v' b' V') as [r' [F [E1 [E2 Hfs']]]];
        [lia|lia|clear Ev' EV' Eb'; unfold fail_soft in *; lia
        |clear Ev' EV' Eb'; unfold fail_soft in *; lia|].
      exists r', F. split; [exact E1|]. split; [|exact Hfs'].
      intros af bf. cbn [min_loop]. rewrite Hfull, place_undo by assumption.
      rewrite <- EV'. apply E2.
Qed.

(** The root loop: while [best_score] is below [INF] and equals alpha, the
    pruned run and the full run keep the same move and score. *)
Lemma root_loop_prunes (oc : list Move) :
  (forall m, In m oc -> empty_cell s m) ->
  (forall m, In m oc -> rec_prunes rec_full rec_ab color s m) ->
  (forall m, In m oc -> rec_bounded rec_full color s m) ->
  forall best_move best_score af bf,
    - INF <= best_score < INF ->
    root_loop rec_ab true color oc s best_move best_score best_score INF
    = root_loop rec_full false color oc s best_move best_score af bf.
Proof.
  induction oc as [|[r c] tl IH]; intros He Hrec Hbd best_move best_score af bf Hbs.
  - reflexivity.
  - assert (Hc : cell s r c = None) by (apply (He (r, c)); left; reflexivity).
    assert (IH' := IH (fun m Hm => He m (or_intror Hm))
                      (fun m Hm => Hrec m (or_intror Hm))
                      (fun m Hm => Hbd m (or_intror Hm))).
    destruct (Hrec (r, c) (or_introl eq_refl)) as [t [Hfull Hab]].
    destruct (Hbd (r, c) (or_introl eq_refl) af bf) as [t' [Ht' Hin]].
    cbn [fst snd] in *. rewrite Hfull in Ht'. inversion Ht'; subst t'. clear Ht'.
    destruct (Hab best_score INF) as [rc [Hrc Hfs]]; [lia|lia|lia|].
    cbn [root_loop]. rewrite Hrc, Hfull. rewrite place_undo by assumption.
    unfold in_range, SCORE_BOUND in Hin. unfold fail_soft in Hfs.
    assert (HI : INF = 1000000000) by reflexivity.
    destruct (Z_lt_dec best_score t) as [Hlt|Hge].
    + assert (rc = t) by lia. subst rc.
      repeat (rewrite (proj2 (Z.ltb_lt best_score t) Hlt); cbv beta iota).
      rewrite (proj2 (Z.leb_gt INF t)) by lia.
      apply IH'. lia.
    + assert (Hle : rc <= best_score) by lia.
      rewrite (proj2 (Z.ltb_ge best_score rc)) by lia.
      rewrite (proj2 (Z.ltb_ge best_score t)) by lia. cbv beta iota.
      repeat (rewrite Z.ltb_irrefl; cbv beta iota).
      rewrite (proj2 (Z.leb_gt INF best_score)) by lia.
      apply IH'. lia.
Qed.

End LoopsPrune.

(** [minimax] with pruning against [minimax] without: the full search
    returns one value [t] whatever bounds it is given, and the pruned search
    in a window inside [[-INF, INF]] returns a fail-soft value for [t]. *)
Lemma minimax_prunes (fuel : nat) :
  forall (s : State) (depth : Z) (maximizing : bool) (ai_color opp_color : string)
         (cap : option Z),
    wf_board s = true -> (count_empty s < fuel)%nat ->
    exists t,
      (forall a b, minimax fuel s depth maximizing ai_color opp_color a b false cap
                   = Some (t, s))
      /\ (forall a b, - INF <= a -> a < b -> b <= INF ->
            exists r, minimax fuel s depth maximizing ai_color opp_color a b true cap
                      = Some (r, s) /\ fail_soft r t a b).
Proof.
  induction fuel as [|k IH]; intros s depth maximizing ai_color opp_color cap Hwf Hfuel;
    [lia|].
  assert (Hempty : forall mover opp m, In m (node_moves s mover opp cap) -> empty_cell s m).
  { intros mover opp m Hm. apply candidate_moves_empty_cells.
    eapply node_moves_candidates; eassumption. }
  assert (Hrec : forall mx color m, empty_cell s m ->
            rec_prunes
              (fun st a b => minimax k st (depth - 1) mx ai_color opp_color a b false cap)
              (fun st a b => minimax k st (depth - 1) mx ai_color opp_color a b true cap)
              color s m).
  { intros mx color [r c] Hm. unfold rec_prunes. cbn [fst snd]. apply IH.
    - now apply wf_set_cell.
    - pose proof (count_empty_place s r c color Hwf Hm). lia. }
  destruct maximizing.
  - destruct ((depth =? 0) || is_nil (candidate_moves s)) eqn:Eleaf.
    + exists (evaluate s ai_color). split.
      * intros a b. rewrite minimax_unfold_max by assumption. now rewrite Eleaf.
      * intros a b _ _ _. exists (evaluate s ai_color).
        rewrite minimax_unfold_max by assumption. rewrite Eleaf.
        split; [reflexivity|]. unfold fail_soft. lia.
    + destruct (max_loop_full_value _ _ ai_color s Hwf (node_moves s ai_color opp_color cap)
                  (Hempty _ _) (fun m Hm => Hrec false ai_color m (Hempty _ _ m Hm))
                  (- INF)) as [F [_ HF]].
      exists F. split.
      * intros a b. rewrite minimax_unfold_max by assumption. rewrite Eleaf. apply HF.
      * intros a b Ha Hab Hb. rewrite minimax_unfold_max by assumption. rewrite Eleaf.
        destruct (max_loop_prunes _ _ ai_color s Hwf a b
                    (node_moves s ai_color opp_color cap) Ha Hb
                    (Hempty _ _) (fun m Hm => Hrec false ai_color m (Hempty _ _ m Hm))
                    (- INF) a (- INF)) as [r [F' [E1 [E2 Hfs]]]]; [lia|lia|lia|lia|].
        exists r. split; [exact E1|].
        specialize (E2 0 0). rewrite HF in E2. inversion E2; subst F'. exact Hfs.
  - destruct ((depth =? 0) || is_nil (candidate_moves s)) eqn:Eleaf.
    + exists (evaluate s ai_color). split.
      * intros a b. rewrite minimax_unfold_min by assumption. now rewrite Eleaf.
      * intros a b _ _ _. exists (evaluate s ai_color).
        rewrite minimax_unfold_min by assumption. rewrite Eleaf.
        split; [reflexivity|]. unfold fail_soft. lia.
    + destruct (min_loop_full_value _ _ opp_color s Hwf (node_moves s opp_color ai_color cap)
                  (Hempty _ _) (fun m Hm => Hrec true opp_color m (Hempty _ _ m Hm))
                  INF) as [F [_ HF]].
      exists F. split.
      * intros a b. rewrite minimax_unfold_min by assumption. rewrite Eleaf. apply HF.
      * intros a b Ha Hab Hb. rewrite minimax_unfold_min by assumption. rewrite Eleaf.
        destruct (min_loop_prunes _ _ opp_color s Hwf a b
                    (node_moves s opp_color ai_color cap) Ha Hb
                    (Hempty _ _) (fun m Hm => Hrec true opp_color m (Hempty _ _ m Hm))
                    INF b INF) as [r [F' [E1 [E2 Hfs]]]]; [lia|lia|lia|lia|].
        exists r. split; [exact E1|].
        specialize (E2 0 0). rewrite HF in E2. inversion E2; subst F'. exact Hfs.
Qed.

(** C3.  With no candidate cap and any depth up to 2, [ai_search] with
    [use_alpha_beta=True] returns the same move as with
    [use_alpha_beta=False] on the same board and colours, and the best score
    it holds for that move is the same.  (The proof does not use the bound
    on the depth.) *)
Theorem alpha_beta_same_move (fuel : nat) (s : State) (ai_color opp_color : string)
    (depth : Z) :
  wf_board s = true -> (count_empty s < fuel)%nat -> depth <= 2 ->
  ai_search fuel s ai_color opp_color depth true None
  = ai_search fuel s ai_color opp_color depth false None
  /\ ai_search_scored fuel s ai_color opp_color depth true None
     = ai_search_scored fuel s ai_color opp_color depth false None
  /\ exists best_move,
       ai_search fuel s ai_color opp_color depth true None = Some (best_move, s).
Proof.
  intros Hwf Hfuel _.
  assert (Hempty : forall m, In m (node_moves s ai_color opp_color None) -> empty_cell s m).
  { intros m Hm. apply candidate_moves_empty_cells.
    eapply node_moves_candidates; eassumption. }
  assert (Hsc : ai_search_scored fuel s ai_color opp_color depth true None
                = ai_search_scored fuel s ai_color opp_color depth false None).
  { rewrite !ai_search_scored_unfold by assumption.
    rewrite (root_loop_prunes
               (fun st a b => minimax fuel st (depth - 1) false ai_color opp_color
                                      a b false None)
               (fun st a b => minimax fuel st (depth - 1) false ai_color opp_color
                                      a b true None)
               ai_color s Hwf (node_moves s ai_color opp_color None) Hempty)
      with (af := - INF) (bf := INF); [reflexivity| | |unfold INF; lia].
    - intros [r c] Hm. unfold rec_prunes. cbn [fst snd]. apply minimax_prunes.
      + now apply wf_set_cell.
      + pose proof (count_empty_place s r c ai_color Hwf (Hempty _ Hm)). lia.
    - intros [r c] Hm a b. cbn [fst snd]. apply minimax_bounded.
      + now apply wf_set_cell.
      + pose proof (count_empty_place s r c ai_color Hwf (Hempty _ Hm)). lia.
      + intros k E. discriminate E. }
  split; [unfold ai_search; now rewrite Hsc|]. split; [exact Hsc|].
  destruct (ai_search_scored_restores fuel s ai_color opp_color depth true None Hwf Hfuel)
    as [bm [bs [E _]]].
  exists bm. unfold ai_search. now rewrite E.
Qed.

Lemma alpha_beta_same_move_witness :
  ai_search 225 one_stone "white" "black" 2 true None
  = ai_search 225 one_stone "white" "black" 2 false None.
Proof.
  assert (Hfuel : (count_empty one_stone < 225)%nat)
    by (apply Nat.ltb_lt; vm_compute; reflexivity).
  assert (Hdepth : 2 <= 2) by lia.
  exact (proj1 (alpha_beta_same_move 225 one_stone "white" "black" 2
                  eq_refl Hfuel Hdepth)).
Defined.

(** ** [score_color] against the scoring table *)

Lemma moves_eqb_eq (a b : list Move) : moves_eqb a b = true -> a = b.
Proof.
  revert b. induction a as [|x a IH]; intros [|y b]; cbn; try discriminate; auto.
  intros H. apply andb_true_iff in H. destruct H as [H1 H2].
  apply move_eqb_eq in H1. subst. f_equal. now apply IH.
Qed.

Lemma take_out_perm (x : list Move) (l l' : list (list Move)) :
  take_out x l = Some l' -> Permutation l (x :: l').
Proof.
  revert l'. induction l as [|y t IH]; intros l'; cbn; [discriminate|].
  destruct (moves_eqb x y) eqn:E.
  - intros H. inversion H; subst. apply moves_eqb_eq in E. now subst.
  - destruct (take_out x t) as [t'|]; [|discriminate].
    intros H. inversion H; subst.
    eapply perm_trans; [apply perm_skip, IH; reflexivity|]. apply perm_swap.
Qed.

Lemma same_lines_perm (l1 l2 : list (list Move)) :
  same_lines l1 l2 = true -> Permutation l1 l2.
Proof.
  revert l2. induction l1 as [|x t IH]; intros l2; cbn.
  - destruct l2; [constructor|discriminate].
  - destruct (take_out x l2) as [l2'|] eqn:E; [|discriminate].
    intros H. apply take_out_perm in E.
    eapply perm_trans; [apply perm_skip, IH; exact H|]. now apply Permutation_sym.
Qed.

(** [score_color] scans every row, every column and every diagonal of at
    least 5 cells, each once. *)
Lemma scanned_lines_maximal : Permutation scanned_lines maximal_lines.
Proof. apply same_lines_perm. vm_compute. reflexivity. Qed.

Lemma zsum_perm (l1 l2 : list Z) : Permutation l1 l2 -> zsum l1 = zsum l2.
Proof. unfold zsum. induction 1; cbn [fold_right]; lia. Qed.

Lemma fold_left_zsum {A : Type} (f : A -> Z) (l : list A) (acc : Z) :
  fold_left (fun s x => s + f x) l acc = acc + zsum (map f l).
Proof.
  revert acc. induction l as [|h t IH]; intros acc; cbn [fold_left map zsum fold_right].
  - lia.
  - rewrite IH. unfold zsum. lia.
Qed.

Lemma diag_coords (s : State) (cond : Z -> bool) (g : Z -> Z) (l : list Z) :
  flat_map (fun r => if cond r then [cell s r (g r)] else []) l
  = map (cell_of s) (flat_map (fun r => if cond r then [(r, g r)] else []) l).
Proof.
  induction l as [|r t IH]; [reflexivity|].
  cbn [flat_map]. rewrite map_app, IH. now destruct (cond r).
Qed.

Lemma zlen_map {A B : Type} (f : A -> B) (l : list A) : zlen (map f l) = zlen l.
Proof. unfold zlen. now rewrite length_map. Qed.

Lemma line_coords (s : State) (line : list Move) :
  map (map (cell_of s)) (if 5 <=? zlen line then [line] else [])
  = if 5 <=? zlen (map (cell_of s) line) then [map (cell_of s) line] else [].
Proof. rewrite zlen_map. now destruct (5 <=? zlen line). Qed.

(** The lines [score_color] builds are the cells at [scanned_lines]. *)
Lemma board_lines_coords (s : State) :
  board_lines s = map (map (cell_of s)) scanned_lines.
Proof.
  unfold board_lines, scanned_lines. cbv zeta.
  rewrite !map_app, !map_map.
  apply (f_equal2 (@app _)); [|apply (f_equal2 (@app _))].
  - apply map_ext. intros r. now rewrite map_map.
  - apply map_ext. intros c. now rewrite map_map.
  - induction (zrange (- (BOARD_SIZE - 5)) (BOARD_SIZE - 4)) as [|d t IH]; [reflexivity|].
    cbn [flat_map]. rewrite map_app, IH. f_equal.
    rewrite (diag_coords s (fun r => (0 <=? r + d) && (r + d <? BOARD_SIZE))
               (fun r => r + d)).
    rewrite (diag_coords s (fun r => (0 <=? BOARD_SIZE - 1 - r - d)
                                     && (BOARD_SIZE - 1 - r - d <? BOARD_SIZE))
               (fun r => BOARD_SIZE - 1 - r - d)).
    rewrite map_app. rewrite <- !line_coords. reflexivity.
Qed.

Lemma count_z_map {A : Type} (f : A -> Z) (x : Z) (l : list A) :
  count_z x (map f l) = count_if (fun a => f a =? x) l.
Proof.
  unfold count_z, count_if, zlen. f_equal.
  induction l as [|h t IH]; [reflexivity|].
  cbn [map count_occ filter]. destruct (Z.eq_dec (f h) x) as [E|E].
  - rewrite (proj2 (Z.eqb_eq _ _) E). cbn [length]. now rewrite IH.
  - rewrite (proj2 (Z.eqb_neq _ _) E). exact IH.
Qed.

Lemma count_if_ext {A : Type} (p q : A -> bool) (l : list A) :
  (forall a, p a = q a) -> count_if p l = count_if q l.
Proof. intros H. unfold count_if. now rewrite (filter_ext p q H). Qed.

Lemma count_if_nonneg {A : Type} (p : A -> bool) (l : list A) : 0 <= count_if p l.
Proof. unfold count_if, zlen. lia. Qed.

Section Codes.

Variables (s : State) (color : string).

Lemma code_own (m : Move) :
  (stone_code color (cell_of s m) =? 1) = own_stone s color m.
Proof.
  unfold stone_code, own_stone, cell_of.
  destruct (cell_is (cell s (fst m) (snd m)) color); [reflexivity|].
  now destruct (is_empty (cell s (fst m) (snd m))).
Qed.

Lemma code_opponent (m : Move) :
  (stone_code color (cell_of s m) =? -1) = opponent_stone s color m.
Proof.
  unfold stone_code, opponent_stone, own_stone, vacant, cell_of.
  destruct (cell_is (cell s (fst m) (snd m)) color); [reflexivity|].
  now destruct (is_empty (cell s (fst m) (snd m))).
Qed.

Lemma code_vacant (m : Move) :
  (stone_code color (cell_of s m) =? 0) = vacant s m.
Proof.
  unfold stone_code, vacant, cell_of.
  destruct (cell s (fst m) (snd m)) as [x|]; cbn [cell_is is_empty]; [|reflexivity].
  now destruct (String.eqb x color).
Qed.

Lemma nth_cells (line : list Move) (i : Z) :
  0 <= i < zlen line ->
  nth (Z.to_nat i) (map (cell_of s) line) None
  = cell s (fst (nth (Z.to_nat i) line (0, 0))) (snd (nth (Z.to_nat i) line (0, 0))).
Proof.
  unfold zlen. intros H.
  rewrite (nth_indep _ None (cell_of s (0, 0))) by (rewrite length_map; lia).
  now rewrite map_nth.
Qed.

(** One round of the loop of [seq_score] adds what the table says for that
    window. *)
Lemma window_score_table (line : list Move) (i : Z) :
  0 <= i < zlen line - 4 ->
  window_score color (map (cell_of s) line) i = window_contribution s color line i.
Proof.
  intros Hi. unfold window_score, window_contribution.
  rewrite map_map, skipn_map, firstn_map, !count_z_map, zlen_map.
  rewrite (count_if_ext _ _ (firstn 5 (skipn (Z.to_nat i) line)) code_own).
  rewrite (count_if_ext _ _ (firstn 5 (skipn (Z.to_nat i) line)) code_opponent).
  rewrite (count_if_ext _ _ (firstn 5 (skipn (Z.to_nat i) line)) code_vacant).
  set (w := firstn 5 (skipn (Z.to_nat i) line)).
  pose proof (count_if_nonneg (opponent_stone s color) w) as Hopp.
  assert (Hleft : (0 <? i) && is_empty (nth (Z.to_nat (i - 1)) (map (cell_of s) line) None)
                  = open_at s line (i - 1)).
  { unfold open_at, vacant. destruct (Z.ltb_spec 0 i) as [Hp|Hp].
    - rewrite nth_cells by lia.
      rewrite (proj2 (Z.leb_le 0 (i - 1))) by lia.
      rewrite (proj2 (Z.ltb_lt (i - 1) (zlen line))) by lia. reflexivity.
    - rewrite (proj2 (Z.leb_gt 0 (i - 1))) by lia. reflexivity. }
  assert (Hright : (i + 5 <? zlen line)
                   && is_empty (nth (Z.to_nat (i + 5)) (map (cell_of s) line) None)
                   = open_at s line (i + 5)).
  { unfold open_at, vacant. rewrite (proj2 (Z.leb_le 0 (i + 5))) by lia.
    destruct (Z.ltb_spec (i + 5) (zlen line)) as [Hp|Hp]; [|reflexivity].
    rewrite nth_cells by lia. reflexivity. }
  rewrite Hleft, Hright.
  destruct (Z.eqb_spec (count_if (opponent_stone s color) w) 0) as [E|E].
  - rewrite E. cbn [Z.ltb Z.compare]. reflexivity.
  - rewrite (proj2 (Z.ltb_lt 0 _)) by lia. reflexivity.
Qed.

Lemma seq_score_table (line : list Move) :
  seq_score color (map (cell_of s) line) = line_total s color line.
Proof.
  unfold seq_score, line_total. rewrite fold_left_zsum, zlen_map. cbn [Z.add].
  f_equal. apply map_ext_in. intros i Hi. apply in_zrange in Hi.
  apply window_score_table. lia.
Qed.

End Codes.

(** C6.  [score_color] is the sum, over all 15 rows, all 15 columns and
    every diagonal of both families with at least 5 cells, and over every
    window of 5 consecutive cells of the line, of the window's contribution:
    0 if the window holds an opponent stone; otherwise 100000 for 5 own
    stones; for 4 own and 1 empty, 10000 if a cell next to the window on the
    line is empty and 3000 if not; for 3 own and 2 empty, 1000 if both cells
    next to the window are empty and 200 if not; for 2 own and 3 empty, 50 if
    a cell next to the window is empty and 0 if not; 0 for any other count.
    A cell beyond the end of the line is not open. *)
Theorem score_color_table (s : State) (color : string) :
  score_color s color = table_score s color.
Proof.
  unfold score_color, table_score.
  rewrite fold_left_zsum, board_lines_coords, map_map. cbn [Z.add].
  rewrite (map_ext _ _ (seq_score_table s color)).
  apply zsum_perm, Permutation_map, scanned_lines_maximal.
Qed.

(** On [column_of_four] black has one open four, one closed three and one
    open two in column 0: 10000 + 200 + 50. *)
Example table_score_column_of_four :
  table_score column_of_four "black" = 10250
  /\ score_color column_of_four "black" = 10250.
Proof. split; vm_compute; reflexivity. Qed.

(** * Further properties of the engine and of its callers *)

(** ** [is_win_at] as five in a row *)

(** What the loop computes: the length [n] of the run of [color] that starts
    at [(r, c)]. *)
Lemma walk_run (s : State) (color : string) (dx dy : Z) :
  unit_step dx dy ->
  forall fuel cnt r c,
    (in_bounds r c = true -> room dx dy r c < Z.of_nat fuel) ->
    exists n, 0 <= n
      /\ walk fuel s color dx dy cnt r c = (cnt + n, r + n * dx, c + n * dy)
      /\ (forall j, 0 <= j < n -> walk_test s color (r + j * dx) (c + j * dy) = true)
      /\ walk_test s color (r + n * dx) (c + n * dy) = false.
Proof.
  intros Hd. induction fuel as [|k IH]; intros cnt r c Hroom.
  - exists 0. split; [lia|]. cbn [walk].
    replace (cnt + 0) with cnt by lia.
    replace (r + 0 * dx) with r by lia. replace (c + 0 * dy) with c by lia.
    split; [reflexivity|]. split; [intros j Hj; lia|].
    unfold walk_test. destruct (in_bounds r c) eqn:Hb; [|reflexivity].
    specialize (Hroom eq_refl). apply in_bounds_spec in Hb.
    unfold room, unit_step in *.
    destruct (dx =? 1) eqn:E1; [lia|].
    destruct (dx =? -1) eqn:E2; [lia|].
    destruct (dy =? 1) eqn:E3; lia.
  - rewrite walk_S. destruct (walk_test s color r c) eqn:Ht.
    + destruct (IH (cnt + 1) (r + dx) (c + dy)) as [n [Hn [E [Hrun Hstop]]]].
      { intros Hb'. unfold walk_test in Ht. apply andb_true_iff in Ht.
        destruct Ht as [Hb _]. specialize (Hroom Hb).
        apply in_bounds_spec in Hb, Hb'. unfold room, unit_step in *.
        destruct (dx =? 1) eqn:E1; [lia|].
        destruct (dx =? -1) eqn:E2; [lia|].
        destruct (dy =? 1) eqn:E3; lia. }
      exists (n + 1). split; [lia|]. rewrite E. split; [f_equal; [f_equal|]; lia|].
      split.
      * intros j Hj. destruct (Z.eq_dec j 0) as [->|Hj0].
        -- replace (r + 0 * dx) with r by lia. replace (c + 0 * dy) with c by lia.
           exact Ht.
        -- specialize (Hrun (j - 1)).
           replace (r + dx + (j - 1) * dx) with (r + j * dx) in Hrun by lia.
           replace (c + dy + (j - 1) * dy) with (c + j * dy) in Hrun by lia.
           apply Hrun. lia.
      * replace (r + (n + 1) * dx) with (r + dx + n * dx) by lia.
        replace (c + (n + 1) * dy) with (c + dy + n * dy) by lia. exact Hstop.
    + exists 0. split; [lia|].
      replace (cnt + 0) with cnt by lia.
      replace (r + 0 * dx) with r by lia. replace (c + 0 * dy) with c by lia.
      split; [reflexivity|]. split; [intros j Hj; lia|exact Ht].
Qed.

Lemma room_walk_fuel (dx dy r c : Z) :
  unit_step dx dy -> in_bounds r c = true -> room dx dy r c < Z.of_nat walk_fuel.
Proof.
  intros Hd Hb. apply in_bounds_spec in Hb. unfold room, walk_fuel, BOARD_SIZE.
  destruct (dx =? 1); [lia|]. destruct (dx =? -1); [lia|].
  destruct (dy =? 1); lia.
Qed.

(** The count of [axis_scan] is one plus the runs of [color] on the two
    sides of [(row, col)]. *)
Lemma axis_scan_runs (s : State) (row col : Z) (color : string) (d : Z * Z) :
  In d directions ->
  exists nf nb, 0 <= nf /\ 0 <= nb
    /\ fst (fst (axis_scan s row col color d)) = 1 + nf + nb
    /\ snd (fst (axis_scan s row col color d))
       = (row + (nf + 1) * fst d, col + (nf + 1) * snd d)
    /\ snd (axis_scan s row col color d)
       = (row - (nb + 1) * fst d, col - (nb + 1) * snd d)
    /\ (forall j, 1 <= j <= nf -> holds_at s color row col d j)
    /\ ~ holds_at s color row col d (nf + 1)
    /\ (forall j, 1 <= j <= nb -> holds_at s color row col d (- j))
    /\ ~ holds_at s color row col d (- (nb + 1)).
Proof.
  intros Hin. destruct (directions_unit d Hin) as [Hu Hu'].
  destruct d as [dx dy]. cbn [fst snd] in *. unfold axis_scan, holds_at. cbn [fst snd].
  destruct (walk_run s color dx dy Hu walk_fuel 1 (row + dx) (col + dy)
              (room_walk_fuel dx dy _ _ Hu)) as [nf [Hnf [Ef [Hrf Hsf]]]].
  rewrite Ef.
  destruct (walk_run s color (- dx) (- dy) Hu' walk_fuel (1 + nf) (row - dx) (col - dy)
              (room_walk_fuel (- dx) (- dy) _ _ Hu')) as [nb [Hnb [Eb [Hrb Hsb]]]].
  rewrite Eb. cbn [fst snd].
  exists nf, nb. split; [lia|]. split; [lia|]. split; [lia|].
  split; [f_equal; lia|]. split; [f_equal; lia|].
  split; [|split; [|split]].
  - intros j Hj. specialize (Hrf (j - 1)).
    replace (row + dx + (j - 1) * dx) with (row + j * dx) in Hrf by lia.
    replace (col + dy + (j - 1) * dy) with (col + j * dy) in Hrf by lia.
    apply Hrf. lia.
  - replace (row + (nf + 1) * dx) with (row + dx + nf * dx) by lia.
    replace (col + (nf + 1) * dy) with (col + dy + nf * dy) by lia.
    rewrite Hsf. discriminate.
  - intros j Hj. specialize (Hrb (j - 1)).
    replace (row - dx + (j - 1) * - dx) with (row + - j * dx) in Hrb by lia.
    replace (col - dy + (j - 1) * - dy) with (col + - j * dy) in Hrb by lia.
    apply Hrb. lia.
  - replace (row + - (nb + 1) * dx) with (row - dx + nb * - dx) by lia.
    replace (col + - (nb + 1) * dy) with (col - dy + nb * - dy) by lia.
    rewrite Hsb. discriminate.
Qed.

Lemma axis_five (s : State) (row col : Z) (color : string) (d : Z * Z) :
  In d directions ->
  (5 <= fst (fst (axis_scan s row col color d))
   <-> exists k, 0 <= k <= 4 /\
         forall j, 0 <= j <= 4 -> j <> k -> holds_at s color row col d (j - k)).
Proof.
  intros Hin.
  destruct (axis_scan_runs s row col color d Hin)
    as [nf [nb [Hnf [Hnb [Ecnt [_ [_ [Hf [Hfs [Hb Hbs]]]]]]]]]].
  rewrite Ecnt. split.
  - intros H5. exists (Z.min nb 4). split; [lia|]. intros j Hj Hne.
    destruct (Z_lt_dec (j - Z.min nb 4) 0) as [Hneg|Hpos].
    + replace (j - Z.min nb 4) with (- (Z.min nb 4 - j)) by lia. apply Hb. lia.
    + apply Hf. lia.
  - intros [k [Hk Hwin]].
    assert (Hfk : 4 - k <= nf).
    { destruct (Z_le_dec (4 - k) nf) as [H|H]; [exact H|]. exfalso. apply Hfs.
      replace (nf + 1) with ((nf + 1 + k) - k) by lia. apply Hwin; lia. }
    assert (Hbk : k <= nb).
    { destruct (Z_le_dec k nb) as [H|H]; [exact H|]. exfalso. apply Hbs.
      replace (- (nb + 1)) with ((k - nb - 1) - k) by lia. apply Hwin; lia. }
    lia.
Qed.

(** X1.  [is_win_at] answers [True] exactly when, along one of the four
    axes, five consecutive cells of the board include [(row, col)] and the
    other four hold [color]. *)
Theorem is_win_at_five_in_row (s : State) (row col : Z) (color : string) :
  is_win_at s row col color = true <-> five_through s row col color.
Proof.
  unfold is_win_at, five_through. rewrite existsb_exists. split.
  - intros [d [Hin H]]. exists d. split; [exact Hin|].
    apply (axis_five s row col color d Hin).
    destruct (axis_scan s row col color d) as [[cnt f] b]. cbn [fst].
    now apply Z.leb_le.
  - intros [d [Hin H]]. exists d. split; [exact Hin|].
    apply (axis_five s row col color d Hin) in H.
    destruct (axis_scan s row col color d) as [[cnt f] b]. cbn [fst] in H.
    now apply Z.leb_le.
Qed.

(** ** [count_threat_level] and [is_open_threat] *)

Lemma holds_at_in_bounds (s : State) (color : string) (row col : Z) (d : Z * Z) (k : Z) :
  holds_at s color row col d k ->
  in_bounds (row + k * fst d) (col + k * snd d) = true.
Proof. unfold holds_at, walk_test. intros H. apply andb_true_iff in H. tauto. Qed.

(** The run through a cell is determined by the board. *)
Lemma run_through_unique (s : State) (color : string) (row col : Z) (d : Z * Z)
    (nf nb nf' nb' : Z) :
  0 <= nf -> 0 <= nb -> 0 <= nf' -> 0 <= nb' ->
  run_through s color row col d nf nb -> run_through s color row col d nf' nb' ->
  nf = nf' /\ nb = nb'.
Proof.
  intros H1 H2 H3 H4 [Hf [Hfs [Hb Hbs]]] [Hf' [Hfs' [Hb' Hbs']]]. split.
  - destruct (Z.lt_trichotomy nf nf') as [H|[H|H]]; [|exact H|].
    + exfalso. apply Hfs. apply Hf'. lia.
    + exfalso. apply Hfs'. apply Hf. lia.
  - destruct (Z.lt_trichotomy nb nb') as [H|[H|H]]; [|exact H|].
    + exfalso. apply Hbs. apply Hb'. lia.
    + exfalso. apply Hbs'. apply Hb. lia.
Qed.

Lemma axis_scan_run_through (s : State) (row col : Z) (color : string) (d : Z * Z) :
  In d directions ->
  exists nf nb, 0 <= nf /\ 0 <= nb
    /\ axis_scan s row col color d
       = (1 + nf + nb,
          (row + (nf + 1) * fst d, col + (nf + 1) * snd d),
          (row + - (nb + 1) * fst d, col + - (nb + 1) * snd d))
    /\ run_through s color row col d nf nb.
Proof.
  intros Hin.
  destruct (axis_scan_runs s row col color d Hin)
    as [nf [nb [Hnf [Hnb [E1 [E2 [E3 [Hf [Hfs [Hb Hbs]]]]]]]]]].
  exists nf, nb. split; [exact Hnf|]. split; [exact Hnb|]. split.
  - destruct (axis_scan s row col color d) as [[cnt f] b]. cbn [fst snd] in *.
    subst. f_equal. f_equal; lia.
  - unfold run_through. tauto.
Qed.

(** The run through a cell of the board has at most 15 cells. *)
Lemma run_through_short (s : State) (color : string) (row col : Z) (d : Z * Z)
    (nf nb : Z) :
  In d directions -> in_bounds row col = true -> 0 <= nf -> 0 <= nb ->
  run_through s color row col d nf nb -> 1 + nf + nb <= 15.
Proof.
  intros Hin Hb Hnf Hnb [Hf [_ [Hbk _]]].
  assert (Hfb : in_bounds (row + nf * fst d) (col + nf * snd d) = true).
  { destruct (Z.eq_dec nf 0) as [->|Hne].
    - now replace (row + 0 * fst d) with row by lia;
        replace (col + 0 * snd d) with col by lia.
    - eapply holds_at_in_bounds. apply Hf. lia. }
  assert (Hbb : in_bounds (row + - nb * fst d) (col + - nb * snd d) = true).
  { destruct (Z.eq_dec nb 0) as [->|Hne].
    - now replace (row + - 0 * fst d) with row by lia;
        replace (col + - 0 * snd d) with col by lia.
    - eapply holds_at_in_bounds. apply Hbk. lia. }
  apply in_bounds_spec in Hfb, Hbb.
  unfold directions in Hin. cbn in Hin.
  destruct Hin as [<-|[<-|[<-|[<-|[]]]]]; cbn [fst snd] in *; lia.
Qed.

Lemma threat_loop_value (s : State) (row col : Z) (color : string) :
  wf_board s = true ->
  forall ds max_count,
    PyScan.threat_loop s row col color ds max_count
    = Some (fold_left (fun m d => Z.max m (fst (fst (axis_scan s row col color d))))
                      ds max_count).
Proof.
  intros Hwf. induction ds as [|d ds IH]; intros m; [reflexivity|].
  cbn [PyScan.threat_loop fold_left]. rewrite py_axis_scan_total by assumption.
  destruct (axis_scan s row col color d) as [[cnt f] b]. cbn [fst]. apply IH.
Qed.

Lemma fold_max_spec (f : Z * Z -> Z) (ds : list (Z * Z)) (m : Z) :
  let n := fold_left (fun m d => Z.max m (f d)) ds m in
  m <= n
  /\ (forall d, In d ds -> f d <= n)
  /\ (n = m \/ exists d, In d ds /\ n = f d).
Proof.
  revert m. induction ds as [|d ds IH]; intros m; cbn [fold_left].
  - split; [lia|]. split; [intros d []|left; reflexivity].
  - destruct (IH (Z.max m (f d))) as [H1 [H2 H3]]. split; [lia|]. split.
    + intros d' [<-|Hd']; [lia|now apply H2].
    + destruct H3 as [H3|[d' [Hd' H3]]].
      * destruct (Z.max_spec m (f d)) as [[_ E]|[_ E]].
        -- right. exists d. split; [now left|]. lia.
        -- left. lia.
      * right. exists d'. split; [now right|exact H3].
Qed.

Lemma count_threat_level_runs (s : State) (row col : Z) (color : string) :
  wf_board s = true -> in_bounds row col = true ->
  (cell s row col <> None -> PyScan.count_threat_level s row col color = Some 0)
  /\ (cell s row col = None ->
      exists n,
        PyScan.count_threat_level s row col color = Some n
        /\ 1 <= n <= 15
        /\ (exists d nf nb, In d directions /\ 0 <= nf /\ 0 <= nb
              /\ run_through s color row col d nf nb /\ n = 1 + nf + nb)
        /\ (forall d nf nb, In d directions -> 0 <= nf -> 0 <= nb ->
              run_through s color row col d nf nb -> 1 + nf + nb <= n)
        /\ (5 <= n <-> is_win_at s row col color = true)).
Proof.
  intros Hwf Hb. unfold PyScan.count_threat_level.
  rewrite getitem_in_bounds by assumption. split.
  - intros Hne. destruct (cell s row col); [reflexivity|congruence].
  - intros He. rewrite He. rewrite threat_loop_value by assumption.
    set (f := fun d => fst (fst (axis_scan s row col color d))).
    destruct (fold_max_spec f directions 0) as [H0 [Hall Hex]].
    fold f. set (n := fold_left (fun m d => Z.max m (f d)) directions 0) in *.
    assert (Hf : forall d, In d directions ->
               exists nf nb, 0 <= nf /\ 0 <= nb
                 /\ run_through s color row col d nf nb /\ f d = 1 + nf + nb).
    { intros d Hd. destruct (axis_scan_run_through s row col color d Hd)
        as [nf [nb [Hnf [Hnb [E Hr]]]]].
      exists nf, nb. unfold f. rewrite E. cbn [fst]. tauto. }
    assert (Hmax : exists d, In d directions /\ n = f d).
    { destruct Hex as [E|Hex]; [|exact Hex]. exfalso.
      destruct (Hf (0, 1)) as [nf [nb [Hnf [Hnb [_ E']]]]]; [now left|].
      specialize (Hall (0, 1) (or_introl eq_refl)). lia. }
    exists n. split; [reflexivity|].
    destruct Hmax as [d [Hd En]].
    destruct (Hf d Hd) as [nf [nb [Hnf [Hnb [Hr E]]]]].
    split; [|split; [|split]].
    + pose proof (run_through_short s color row col d nf nb Hd Hb Hnf Hnb Hr). lia.
    + exists d, nf, nb. repeat split; try assumption; try apply Hr. lia.
    + intros d' nf' nb' Hd' Hnf' Hnb' Hr'.
      destruct (Hf d' Hd') as [nf2 [nb2 [Hnf2 [Hnb2 [Hr2 E2]]]]].
      destruct (run_through_unique s color row col d' nf' nb' nf2 nb2
                  Hnf' Hnb' Hnf2 Hnb2 Hr' Hr2) as [-> ->].
      rewrite <- E2. now apply Hall.
    + unfold is_win_at. rewrite existsb_exists. split.
      * intros H5. exists d. split; [exact Hd|]. unfold f in En.
        destruct (axis_scan s row col color d) as [[cnt a] b]. cbn [fst] in En.
        apply Z.leb_le. lia.
      * intros [d' [Hd' H5]]. specialize (Hall d' Hd'). unfold f in Hall.
        destruct (axis_scan s row col color d') as [[cnt a] b]. cbn [fst] in Hall.
        apply Z.leb_le in H5. lia.
Qed.

(** X2.  On a 15x15 board and a cell of the board: on an occupied cell
    [count_threat_level] is 0; on an empty cell it is the longest run that a
    stone of [color] there would be part of, between 1 and 15, and it is at
    least 5 exactly when [is_win_at] answers [True] there. *)
Theorem count_threat_level_spec (s : State) (row col : Z) (color : string) :
  wf_board s = true -> in_bounds row col = true ->
  (cell s row col <> None -> PyScan.count_threat_level s row col color = Some 0)
  /\ (cell s row col = None ->
      exists n,
        PyScan.count_threat_level s row col color = Some n
        /\ 1 <= n <= 15
        /\ (exists d nf nb, In d directions /\ 0 <= nf /\ 0 <= nb
              /\ run_through s color row col d nf nb /\ n = 1 + nf + nb)
        /\ (forall d nf nb, In d directions -> 0 <= nf -> 0 <= nb ->
              run_through s color row col d nf nb -> 1 + nf + nb <= n)
        /\ (5 <= n <-> is_win_at s row col color = true)).
Proof. exact (count_threat_level_runs s row col color). Qed.

Lemma count_threat_level_spec_witness :
  PyScan.count_threat_level pair_board 7 4 "white" = Some 0
  /\ exists n, PyScan.count_threat_level pair_board 7 7 "white" = Some n /\ 1 <= n <= 15.
Proof.
  destruct (count_threat_level_spec pair_board 7 4 "white" eq_refl eq_refl) as [H0 _].
  destruct (count_threat_level_spec pair_board 7 7 "white" eq_refl eq_refl) as [_ H1].
  split.
  - apply H0. discriminate.
  - destruct (H1 eq_refl) as [n [E [Hn _]]]. exists n. split; assumption.
Defined.

Lemma is_open_threat_runs (s : State) (row col : Z) (color : string) (min_count : Z) :
  is_open_threat s row col color min_count = true
  <-> cell s row col = None
      /\ exists d nf nb, In d directions /\ 0 <= nf /\ 0 <= nb
           /\ run_through s color row col d nf nb
           /\ min_count <= 1 + nf + nb
           /\ (open_end s row col d (nf + 1) \/ open_end s row col d (- (nb + 1))).
Proof.
  unfold is_open_threat.
  destruct (cell s row col) as [x|] eqn:Ec; cbn [is_empty negb].
  - split; [discriminate|]. intros [H _]. discriminate.
  - rewrite existsb_exists. split.
    + intros [d [Hd H]]. split; [reflexivity|].
      destruct (axis_scan_run_through s row col color d Hd)
        as [nf [nb [Hnf [Hnb [E Hr]]]]].
      rewrite E in H. apply andb_true_iff in H. destruct H as [Hk Hopen].
      apply Z.leb_le in Hk. exists d, nf, nb.
      split; [exact Hd|]. split; [exact Hnf|]. split; [exact Hnb|].
      split; [exact Hr|]. split; [exact Hk|].
      unfold open_end. apply orb_true_iff in Hopen.
      destruct Hopen as [H|H]; apply andb_true_iff in H; destruct H as [H1 H2];
        apply is_empty_true in H2; [right|left]; tauto.
    + intros [_ [d [nf [nb [Hd [Hnf [Hnb [Hr [Hk Hopen]]]]]]]]].
      exists d. split; [exact Hd|].
      destruct (axis_scan_run_through s row col color d Hd)
        as [nf2 [nb2 [Hnf2 [Hnb2 [E Hr2]]]]].
      destruct (run_through_unique s color row col d nf nb nf2 nb2
                  Hnf Hnb Hnf2 Hnb2 Hr Hr2) as [<- <-].
      rewrite E. apply andb_true_iff. split; [now apply Z.leb_le|].
      apply orb_true_iff. unfold open_end in Hopen.
      destruct Hopen as [[H1 H2]|[H1 H2]]; [right|left];
        apply andb_true_iff; split; try assumption; now apply is_empty_true.
Qed.


(** X4.  [is_open_threat] only gets harder with a larger [min_count], and
    where it answers [True] on a board cell, [count_threat_level] is at
    least [min_count]. *)
Theorem is_open_threat_count (s : State) (row col : Z) (color : string) (k : Z) :
  wf_board s = true -> in_bounds row col = true ->
  is_open_threat s row col color k = true ->
  (forall k', k' <= k -> is_open_threat s row col color k' = true)
  /\ exists n, PyScan.count_threat_level s row col color = Some n /\ k <= n.
Proof.
  intros Hwf Hb H. apply is_open_threat_runs in H.
  destruct H as [He [d [nf [nb [Hd [Hnf [Hnb [Hr [Hk Hopen]]]]]]]]]. split.
  - intros k' Hk'. apply is_open_threat_runs. split; [exact He|].
    exists d, nf, nb. repeat split; try assumption; try apply Hr. lia.
  - destruct (count_threat_level_runs s row col color Hwf Hb) as [_ Hc].
    destruct (Hc He) as [n [E [_ [_ [Hall _]]]]].
    exists n. split; [exact E|].
    specialize (Hall d nf nb Hd Hnf Hnb Hr). lia.
Qed.

Lemma is_open_threat_count_witness :
  is_open_threat pair_board 7 7 "white" 2 = true
  /\ exists n, PyScan.count_threat_level pair_board 7 7 "white" = Some n /\ 3 <= n.
Proof.
  assert (H : is_open_threat pair_board 7 7 "white" 3 = true) by (vm_compute; reflexivity).
  destruct (is_open_threat_count pair_board 7 7 "white" 3 eq_refl eq_refl H) as [Hm Hn].
  split; [apply Hm; lia|exact Hn].
Defined.

(** ** [try_move_is_win], [get_empty_cells], [neighbors_exist] *)

(** X5.  On a 15x15 board and a cell of the board, [try_move_is_win]
    answers what [is_win_at] answers on the board as it was, and leaves the
    cell empty whatever it held: the board comes back unchanged exactly when
    the cell was empty, and a stone that lay there is gone. *)
Theorem try_move_is_win_effect (s : State) (r c : Z) (color : string) :
  wf_board s = true -> in_bounds r c = true ->
  try_move_is_win s r c color = (is_win_at s r c color, set_cell s r c None)
  /\ cell (snd (try_move_is_win s r c color)) r c = None
  /\ (forall r' c', in_bounds r' c' = true -> (r', c') <> (r, c) ->
        cell (snd (try_move_is_win s r c color)) r' c' = cell s r' c')
  /\ (snd (try_move_is_win s r c color) = s <-> cell s r c = None).
Proof.
  intros Hwf Hb.
  assert (E : try_move_is_win s r c color = (is_win_at s r c color, set_cell s r c None)).
  { unfold try_move_is_win. now rewrite is_win_at_set_cell, set_cell_twice. }
  rewrite E. cbn [snd]. split; [reflexivity|]. split; [now apply cell_set_same|].
  split; [intros r' c' Hb' Hne; now apply cell_set_other|]. split.
  - intros H. rewrite <- H. now apply cell_set_same.
  - intros H. rewrite <- H. apply set_cell_same.
Qed.

Lemma try_move_is_win_effect_witness :
  try_move_is_win four_in_row 7 7 "black" = (true, four_in_row)
  /\ cell (snd (try_move_is_win four_in_row 7 6 "black")) 7 6 = None.
Proof.
  destruct (try_move_is_win_effect four_in_row 7 7 "black" eq_refl eq_refl)
    as [_ [_ [_ H]]].
  destruct (try_move_is_win_effect four_in_row 7 6 "black" eq_refl eq_refl)
    as [_ [H' _]].
  split; [|exact H'].
  rewrite (surjective_pairing (try_move_is_win four_in_row 7 7 "black")).
  rewrite (proj2 H eq_refl). reflexivity.
Defined.

Lemma row_major_irrefl (a : Move) : ~ row_major a a.
Proof. unfold row_major. lia. Qed.

Lemma sorted_NoDup (l : list Move) : StronglySorted row_major l -> NoDup l.
Proof.
  induction 1 as [|a l Hs IH Ha]; constructor; [|exact IH].
  intros Hin. rewrite Forall_forall in Ha. exact (row_major_irrefl a (Ha a Hin)).
Qed.

Lemma filter_out_length (l : list Move) (m : Move) :
  NoDup l -> In m l ->
  S (length (filter (fun x => negb (move_eqb x m)) l)) = length l.
Proof.
  induction 1 as [|a l Hnin Hnd IH]; intros Hin; [destruct Hin|].
  cbn [filter length]. destruct (move_eqb a m) eqn:E; cbn [negb].
  - apply move_eqb_eq in E. subst a. f_equal.
    rewrite forallb_filter_id; [reflexivity|].
    apply forallb_forall. intros x Hx. apply negb_true_iff.
    destruct (move_eqb x m) eqn:E'; [|reflexivity].
    apply move_eqb_eq in E'. subst x. contradiction.
  - cbn [length]. f_equal. apply IH. destruct Hin as [->|Hin]; [|exact Hin].
    assert (move_eqb m m = true) by now apply move_eqb_eq. congruence.
Qed.

Lemma filter_twice {A : Type} (f g : A -> bool) (l : list A) :
  filter f (filter g l) = filter (fun x => g x && f x) l.
Proof.
  induction l as [|h t IH]; [reflexivity|].
  cbn [filter]. destruct (g h); cbn [filter andb]; [|exact IH].
  destruct (f h); now rewrite IH.
Qed.

(** X6.  [get_empty_cells] lists every empty cell of the board once, in
    row-major order; a stone put on an empty cell takes exactly that cell out
    of the list and leaves the order of the others. *)
Theorem get_empty_cells_place (s : State) (r c : Z) (color : string) :
  wf_board s = true -> empty_cell s (r, c) ->
  (forall m, In m (get_empty_cells s) <-> empty_cell s m)
  /\ StronglySorted row_major (get_empty_cells s)
  /\ get_empty_cells (set_cell s r c (Some color))
     = filter (fun m => negb (move_eqb m (r, c))) (get_empty_cells s)
  /\ S (length (get_empty_cells (set_cell s r c (Some color))))
     = length (get_empty_cells s).
Proof.
  intros Hwf [Hb He]. cbn [fst snd] in *.
  assert (Hfil : get_empty_cells (set_cell s r c (Some color))
                 = filter (fun m => negb (move_eqb m (r, c))) (get_empty_cells s)).
  { unfold get_empty_cells. rewrite filter_twice. apply filter_ext_in.
    intros [r' c'] Hin. apply in_all_cells in Hin. cbn [fst snd] in *.
    destruct (move_eqb (r', c') (r, c)) eqn:E.
    - apply move_eqb_eq in E. inversion E; subst.
      rewrite cell_set_same by assumption. cbn [is_empty negb]. now rewrite andb_false_r.
    - rewrite cell_set_other; [cbn [negb]; now rewrite andb_true_r|assumption|].
      intros E'. rewrite E' in E.
      assert (move_eqb (r, c) (r, c) = true) by now apply move_eqb_eq. congruence. }
  split; [intros m; apply in_get_empty_cells|].
  split; [apply get_empty_cells_sorted|]. split; [exact Hfil|].
  rewrite Hfil. apply filter_out_length.
  - apply sorted_NoDup, get_empty_cells_sorted.
  - apply in_get_empty_cells. split; assumption.
Qed.

Lemma get_empty_cells_place_witness :
  S (length (get_empty_cells (set_cell one_stone 0 0 (Some "white"))))
  = length (get_empty_cells one_stone).
Proof.
  assert (He : empty_cell one_stone (0, 0)) by (split; reflexivity).
  exact (proj2 (proj2 (proj2 (get_empty_cells_place one_stone 0 0 "white" eq_refl He)))).
Defined.

(** X7.  [neighbors_exist] answers [True] exactly when some stone other
    than the cell itself lies on the board within Chebyshev distance [dist]
    of [(r, c)]; with a negative [dist] it never does. *)
Theorem neighbors_exist_chebyshev (s : State) (r c dist : Z) :
  neighbors_exist s r c dist = true <->
  exists m', stone_at s m' /\ chebyshev (r, c) m' <= dist /\ m' <> (r, c).
Proof.
  unfold neighbors_exist, stone_at, chebyshev. rewrite existsb_exists. split.
  - intros [dr [Hdr H]]. apply existsb_exists in H. destruct H as [dc [Hdc H]].
    apply in_zrange in Hdr, Hdc.
    destruct ((dr =? 0) && (dc =? 0)) eqn:E; [discriminate|].
    apply andb_true_iff in H. destruct H as [Hb Hc].
    apply negb_true_iff, is_empty_false in Hc.
    exists (r + dr, c + dc). cbn [fst snd]. split; [tauto|]. split; [lia|].
    intros Heq. inversion Heq.
    assert (dr = 0) by lia. assert (dc = 0) by lia. subst. discriminate.
  - intros [[r' c'] [[Hb Hc] [Hd Hne]]]. cbn [fst snd] in *.
    exists (r' - r). split; [apply in_zrange; lia|].
    apply existsb_exists. exists (c' - c). split; [apply in_zrange; lia|].
    destruct ((r' - r =? 0) && (c' - c =? 0)) eqn:E.
    + apply andb_true_iff in E. destruct E as [E1 E2].
      apply Z.eqb_eq in E1, E2. exfalso. apply Hne. f_equal; lia.
    + replace (r + (r' - r)) with r' by lia. replace (c + (c' - c)) with c' by lia.
      rewrite Hb. cbn. apply negb_true_iff, is_empty_false. assumption.
Qed.

(** X8.  [candidate_moves] returns the empty list exactly when the board
    has no empty cell; on any other board it returns at least one empty
    cell. *)
Theorem candidate_moves_nil_iff_full (s : State) :
  (candidate_moves s = [] <-> forall m, ~ empty_cell s m)
  /\ ((exists m, empty_cell s m) ->
      exists m, In m (candidate_moves s) /\ empty_cell s m).
Proof.
  assert (Hiff : candidate_moves s = [] <-> forall m, ~ empty_cell s m).
  { rewrite candidate_moves_nil. split.
    - intros H m Hm. apply in_get_empty_cells in Hm. rewrite H in Hm. destruct Hm.
    - intros H. destruct (get_empty_cells s) as [|m l] eqn:E; [reflexivity|].
      exfalso. apply (H m). apply in_get_empty_cells. rewrite E. now left. }
  split; [exact Hiff|].
  intros [m Hm]. destruct (candidate_moves s) as [|m0 l] eqn:E.
  - exfalso. exact (proj1 Hiff eq_refl m Hm).
  - exists m0. split; [now left|]. apply candidate_moves_empty_cells.
    rewrite E. now left.
Qed.

(** ** [ai_easy] *)

Lemma first_win_find (s : State) (color : string) (cands : list Move) :
  wf_board s = true -> (forall m, In m cands -> empty_cell s m) ->
  first_win color cands s = (find (wins_now s color) cands, s).
Proof.
  intros Hwf. induction cands as [|[r c] tl IH]; intros He; [reflexivity|].
  cbn [first_win find].
  rewrite try_move_is_win_empty by (try assumption; apply (He (r, c)); now left).
  destruct (wins_now s color (r, c)); [reflexivity|].
  apply IH. intros m Hm. apply He. now right.
Qed.

Lemma random_choice_in (draw : nat) (cand : list Move) :
  cand <> [] -> In (random_choice draw cand) cand.
Proof.
  intros Hne. unfold random_choice. apply nth_In.
  apply Nat.mod_upper_bound. destruct cand; [congruence|discriminate].
Qed.

Lemma ai_easy_value (draw : nat) (s : State) (ai_color opp_color : string) :
  wf_board s = true ->
  ai_easy draw s ai_color opp_color =
  (match find (wins_now s ai_color) (candidate_moves s) with
   | Some m => Some m
   | None =>
       match find (wins_now s opp_color) (candidate_moves s) with
       | Some m => Some m
       | None => if is_nil (candidate_moves s) then None
                 else Some (random_choice draw (candidate_moves s))
       end
   end, s).
Proof.
  intros Hwf. unfold ai_easy.
  rewrite first_win_find by (try assumption; apply candidate_moves_empty_cells).
  destruct (find (wins_now s ai_color) (candidate_moves s)); [reflexivity|].
  rewrite first_win_find by (try assumption; apply candidate_moves_empty_cells).
  destruct (find (wins_now s opp_color) (candidate_moves s)); reflexivity.
Qed.

(** X9.  [ai_easy] on a 15x15 board, whatever [random.choice] draws: it
    leaves the board as it found it; it returns [None] exactly when the board
    has no empty cell, and otherwise an empty candidate cell; if a candidate
    completes five for the mover it returns the first such candidate; if none
    does but a candidate completes five for the opponent it returns the first
    of those. *)
Theorem ai_easy_spec (draw : nat) (s : State) (ai_color opp_color : string) :
  wf_board s = true ->
  let result := fst (ai_easy draw s ai_color opp_color) in
  snd (ai_easy draw s ai_color opp_color) = s
  /\ (result = None <-> forall m, ~ empty_cell s m)
  /\ (forall m, result = Some m -> In m (candidate_moves s) /\ empty_cell s m)
  /\ (forall m, find (wins_now s ai_color) (candidate_moves s) = Some m ->
        result = Some m)
  /\ (forall m, find (wins_now s ai_color) (candidate_moves s) = None ->
        find (wins_now s opp_color) (candidate_moves s) = Some m ->
        result = Some m).
Proof.
  intros Hwf result. subst result. rewrite ai_easy_value by assumption. cbn [fst snd].
  split; [reflexivity|].
  assert (Hfind : forall color m, find (wins_now s color) (candidate_moves s) = Some m ->
                    In m (candidate_moves s))
    by (intros color m H; apply find_some in H; tauto).
  assert (Hfull : candidate_moves s = [] <-> forall m, ~ empty_cell s m).
  { rewrite candidate_moves_nil. split.
    - intros H m Hm. apply in_get_empty_cells in Hm. rewrite H in Hm. destruct Hm.
    - intros H. destruct (get_empty_cells s) as [|m l] eqn:E; [reflexivity|].
      exfalso. apply (H m). apply in_get_empty_cells. rewrite E. now left. }
  split; [|split; [|split]].
  - rewrite <- Hfull.
    destruct (find (wins_now s ai_color) (candidate_moves s)) as [m|] eqn:E1.
    + split; [discriminate|]. intros H. apply Hfind in E1. rewrite H in E1. destruct E1.
    + destruct (find (wins_now s opp_color) (candidate_moves s)) as [m|] eqn:E2.
      * split; [discriminate|]. intros H. apply Hfind in E2. rewrite H in E2. destruct E2.
      * destruct (candidate_moves s); cbn [is_nil]; split; congruence.
  - intros m H.
    assert (Hin : In m (candidate_moves s)).
    { destruct (find (wins_now s ai_color) (candidate_moves s)) as [m1|] eqn:E1.
      - inversion H; subst. eapply Hfind; eassumption.
      - destruct (find (wins_now s opp_color) (candidate_moves s)) as [m2|] eqn:E2.
        + inversion H; subst. eapply Hfind; eassumption.
        + destruct (candidate_moves s) as [|m0 l] eqn:Ec; cbn [is_nil] in H;
            [discriminate|]. inversion H. apply random_choice_in. discriminate. }
    split; [exact Hin|now apply candidate_moves_empty_cells].
  - intros m H. now rewrite H.
  - intros m H1 H2. now rewrite H1, H2.
Qed.

Lemma ai_easy_spec_witness :
  fst (ai_easy 3 winning_board "white" "black") = Some (5, 5)
  /\ snd (ai_easy 3 winning_board "white" "black") = winning_board.
Proof.
  destruct (ai_easy_spec 3 winning_board "white" "black" eq_refl) as [Hs [_ [_ [Hw _]]]].
  split; [|exact Hs]. apply Hw. vm_compute. reflexivity.
Defined.

(** ** The range of [score_color], [evaluate] and [minimax] *)

Lemma scanned_lines_in_bounds :
  forallb (forallb (fun m => in_bounds (fst m) (snd m))) scanned_lines = true.
Proof. vm_compute. reflexivity. Qed.

Lemma count_if_none {A : Type} (p : A -> bool) (l : list A) :
  (forall a, In a l -> p a = false) -> count_if p l = 0.
Proof.
  intros H. unfold count_if, zlen.
  replace (filter p l) with (@nil A); [reflexivity|].
  symmetry. induction l as [|h t IH]; [reflexivity|].
  cbn [filter]. rewrite (H h (or_introl eq_refl)).
  apply IH. intros a Ha. apply H. now right.
Qed.

Lemma in_skipn {A : Type} (n : nat) (l : list A) (x : A) :
  In x (skipn n l) -> In x l.
Proof.
  revert l. induction n as [|n IH]; intros [|h t]; cbn; try tauto.
  intros H. right. now apply IH.
Qed.

Lemma window_score_no_stone (color : string) (seq : list Cell) (i : Z) :
  (forall v, In v seq -> cell_is v color = false) ->
  window_score color seq i = 0.
Proof.
  intros H. unfold window_score.
  assert (Hmy : count_z 1 (firstn 5 (skipn (Z.to_nat i) (map (stone_code color) seq))) = 0).
  { rewrite skipn_map, firstn_map, count_z_map. apply count_if_none.
    intros v Hv. apply in_firstn, in_skipn in Hv. unfold stone_code.
    rewrite (H v Hv). now destruct (is_empty v). }
  rewrite Hmy. cbn [Z.eqb andb].
  now destruct (count_z (-1) _ =? 0).
Qed.

Lemma fold_sum_zero {A : Type} (f : A -> Z) (l : list A) :
  (forall x, In x l -> f x = 0) -> fold_left (fun s x => s + f x) l 0 = 0.
Proof.
  intros H. rewrite fold_left_zsum. cbn [Z.add].
  induction l as [|h t IH]; [reflexivity|].
  cbn [map zsum fold_right]. rewrite (H h (or_introl eq_refl)).
  fold (zsum (map f t)). rewrite IH; [reflexivity|]. intros x Hx. apply H. now right.
Qed.

(** X10.  [score_color] is never negative and never above 79,200,000, so an
    evaluation never reaches the bounds [-10**9] and [10**9] the search
    starts from; and a colour without a stone on the board scores 0. *)
Theorem score_color_range_zero (s : State) (color : string) :
  0 <= score_color s color <= 79200000
  /\ - INF < evaluate s color < INF
  /\ ((forall r c, in_bounds r c = true -> cell_is (cell s r c) color = false) ->
      score_color s color = 0).
Proof.
  split; [apply score_color_range|]. split.
  - pose proof (evaluate_range s color) as H. unfold SCORE_BOUND, INF in *. lia.
  - intros Hno. unfold score_color. apply fold_sum_zero. intros ln Hln.
    unfold seq_score. apply fold_sum_zero. intros i _.
    apply window_score_no_stone. intros v Hv.
    rewrite board_lines_coords in Hln. apply in_map_iff in Hln.
    destruct Hln as [line [<- Hline]]. apply in_map_iff in Hv.
    destruct Hv as [[r c] [<- Hm]]. unfold cell_of. cbn [fst snd]. apply Hno.
    pose proof scanned_lines_in_bounds as Hb. rewrite forallb_forall in Hb.
    specialize (Hb line Hline). rewrite forallb_forall in Hb.
    exact (Hb (r, c) Hm).
Qed.

(** X11.  With no cap or a cap of at least 1, every value [minimax]
    returns lies between -79,200,000 and 79,200,000: it is an evaluation or a
    win value, never one of the bounds [-10**9], [10**9]. *)
Theorem minimax_value_range (fuel : nat) (s : State) (depth : Z) (maximizing : bool)
    (ai_color opp_color : string) (alpha beta : Z) (use_ab : bool) (cap : option Z) :
  wf_board s = true -> (count_empty s < fuel)%nat -> cap_positive cap ->
  exists v, minimax fuel s depth maximizing ai_color opp_color alpha beta use_ab cap
            = Some (v, s)
            /\ -79200000 <= v <= 79200000.
Proof. intros Hwf Hf Hc. now apply minimax_bounded. Qed.

Lemma minimax_value_range_witness :
  exists v, minimax 225 one_stone 1 false "white" "black" (- INF) INF true (Some 2)
            = Some (v, one_stone)
            /\ -79200000 <= v <= 79200000.
Proof.
  apply (minimax_value_range 225 one_stone 1 false "white" "black" (- INF) INF true (Some 2)).
  - reflexivity.
  - apply Nat.ltb_lt. vm_compute. reflexivity.
  - intros k E. inversion E. lia.
Defined.

Lemma tier_filter_nil (s : State) (mover opp : string) (t : Tier) (l : list Move) :
  (forall m, In m l -> tier_against s mover opp m <> t) ->
  tier_filter s mover opp t l = [].
Proof.
  intros H. unfold tier_filter. induction l as [|m tl IH]; [reflexivity|].
  cbn [filter]. destruct (tier_eqb (tier_against s mover opp m) t) eqn:E.
  - apply tier_eqb_eq in E. exfalso. exact (H m (or_introl eq_refl) E).
  - apply IH. intros x Hx. apply H. now right.
Qed.

Lemma node_moves_cap_zero (s : State) (mover opp : string) (k : Z) :
  wf_board s = true -> k <= 0 ->
  (forall m, In m (candidate_moves s) -> tier_against s mover opp m = Rest) ->
  node_moves s mover opp (Some k) = [].
Proof.
  intros Hwf Hk Hrest. unfold node_moves. cbn [capped].
  rewrite cap_candidates_tiers
    by (try assumption; intros m; now apply ordered_candidates_empty_cells).
  assert (Hne : forall t, t <> Rest ->
            tier_filter s mover opp t (fst (ordered_candidates s mover)) = []).
  { intros t Ht. apply tier_filter_nil. intros m Hm.
    apply in_ordered_candidates in Hm; [|assumption].
    rewrite (Hrest m Hm). congruence. }
  rewrite !Hne by discriminate. cbn [fst app]. unfold zlen. cbn [length].
  replace (Z.to_nat (Z.max 0 (k - Z.of_nat 0 - Z.of_nat 0 - Z.of_nat 0))) with 0%nat by lia.
  reflexivity.
Qed.

(** X12.  With a cap of 0 or less, a node that has candidates but none in
    the win, block or defensive tier iterates over nothing and returns the
    bound it started from: [-10**9] when maximizing, [10**9] when
    minimizing. *)
Theorem minimax_cap_zero_sentinel (fuel : nat) (s : State) (depth : Z)
    (ai_color opp_color : string) (alpha beta : Z) (use_ab : bool) (k : Z) :
  wf_board s = true -> (count_empty s < fuel)%nat ->
  depth <> 0 -> candidate_moves s <> [] -> k <= 0 ->
  ((forall m, In m (candidate_moves s) -> tier_against s ai_color opp_color m = Rest) ->
   minimax fuel s depth true ai_color opp_color alpha beta use_ab (Some k)
   = Some (- INF, s))
  /\ ((forall m, In m (candidate_moves s) -> tier_against s opp_color ai_color m = Rest) ->
      minimax fuel s depth false ai_color opp_color alpha beta use_ab (Some k)
      = Some (INF, s)).
Proof.
  intros Hwf Hfuel Hd Hne Hk.
  destruct fuel as [|f]; [lia|].
  assert (Hleaf : (depth =? 0) || is_nil (candidate_moves s) = false).
  { apply orb_false_iff. split; [now apply Z.eqb_neq|now apply is_nil_false]. }
  split; intros Hrest.
  - rewrite minimax_unfold_max by assumption. rewrite Hleaf.
    now rewrite node_moves_cap_zero.
  - rewrite minimax_unfold_min by assumption. rewrite Hleaf.
    now rewrite node_moves_cap_zero.
Qed.

Lemma minimax_cap_zero_sentinel_witness :
  minimax 225 one_stone 1 true "white" "black" (- INF) INF false (Some 0)
  = Some (- INF, one_stone).
Proof.
  assert (Hf : (count_empty one_stone < 225)%nat)
    by (apply Nat.ltb_lt; vm_compute; reflexivity).
  assert (Hd : 1 <> 0) by lia.
  assert (Hne : candidate_moves one_stone <> []) by (vm_compute; discriminate).
  assert (Hk : 0 <= 0) by lia.
  apply (proj1 (minimax_cap_zero_sentinel 225 one_stone 1 "white" "black" (- INF) INF
                  false 0 eq_refl Hf Hd Hne Hk)).
  assert (Hall : forallb (fun m => tier_eqb (tier_against one_stone "white" "black" m) Rest)
                         (candidate_moves one_stone) = true)
    by (vm_compute; reflexivity).
  intros m Hm. rewrite forallb_forall in Hall. now apply tier_eqb_eq, Hall.
Defined.

(** ** The move [ai_search] keeps *)

Section RootFirst.

Variable rec : State -> Z -> Z -> option (Z * State).
Variables (color : string) (s : State) (val : Move -> Z) (a b : Z).
Hypothesis Hwf : wf_board s = true.

(** The root loop without pruning keeps the first candidate of greatest
    value above the score it started with. *)
Lemma root_loop_first (oc : list Move) :
  (forall m, In m oc -> empty_cell s m) ->
  (forall m, In m oc ->
     rec (set_cell s (fst m) (snd m) (Some color)) a b
     = Some (val m, set_cell s (fst m) (snd m) (Some color))) ->
  forall bm0 bs0, exists bm bs,
    root_loop rec false color oc s bm0 bs0 a b = Some (bm, bs, s)
    /\ ((bm = bm0 /\ bs = bs0 /\ forall x, In x oc -> val x <= bs0)
        \/ exists pre m post,
             oc = pre ++ m :: post /\ bm = Some m /\ bs = val m /\ bs0 < val m
             /\ (forall x, In x pre -> val x < val m)
             /\ (forall x, In x post -> val x <= val m)).
Proof.
  induction oc as [|[r c] tl IH]; intros He Hrec bm0 bs0.
  - exists bm0, bs0. split; [reflexivity|]. left. repeat split. intros x [].
  - assert (Hc : cell s r c = None) by (apply (He (r, c)); left; reflexivity).
    assert (IH' := IH (fun m Hm => He m (or_intror Hm))
                      (fun m Hm => Hrec m (or_intror Hm))).
    cbn [root_loop]. pose proof (Hrec (r, c) (or_introl eq_refl)) as Hv.
    cbn [fst snd] in Hv. rewrite Hv. rewrite place_undo by assumption.
    destruct (Z.ltb_spec bs0 (val (r, c))) as [Hlt|Hge].
    + destruct (IH' (Some (r, c)) (val (r, c))) as [bm [bs [E Hcase]]].
      exists bm, bs. split; [exact E|]. right.
      destruct Hcase as [[-> [-> Hall]]|[pre [m [post [-> [-> [-> [Hgt [Hpre Hpost]]]]]]]]].
      * exists [], (r, c), tl. repeat split; auto. intros x [].
      * exists ((r, c) :: pre), m, post. repeat split; auto; [lia|].
        intros x [<-|Hx]; [lia|now apply Hpre].
    + destruct (IH' bm0 bs0) as [bm [bs [E Hcase]]].
      exists bm, bs. split; [exact E|].
      destruct Hcase as [[-> [-> Hall]]|[pre [m [post [-> [-> [-> [Hgt [Hpre Hpost]]]]]]]]].
      * left. repeat split. intros x [<-|Hx]; [lia|now apply Hall].
      * right. exists ((r, c) :: pre), m, post. repeat split; auto.
        intros x [<-|Hx]; [lia|now apply Hpre].
Qed.

End RootFirst.

(** X13.  Without pruning and with no cap or a cap of at least 1,
    [ai_search] returns the first candidate, in the order of the (capped)
    ordered candidates, whose [minimax] value is the greatest: every
    candidate before it has a smaller value and none after it a greater one.
    Its [best_score] is that value. *)
Theorem ai_search_first_best (fuel : nat) (s : State) (ai_color opp_color : string)
    (depth : Z) (cap : option Z) :
  wf_board s = true -> (count_empty s < fuel)%nat -> cap_positive cap ->
  node_moves s ai_color opp_color cap <> [] ->
  exists pre m post,
    node_moves s ai_color opp_color cap = pre ++ m :: post
    /\ ai_search_scored fuel s ai_color opp_color depth false cap
       = Some (Some m, root_value fuel s ai_color opp_color depth cap m, s)
    /\ (forall x, In x pre ->
          root_value fuel s ai_color opp_color depth cap x
          < root_value fuel s ai_color opp_color depth cap m)
    /\ (forall x, In x post ->
          root_value fuel s ai_color opp_color depth cap x
          <= root_value fuel s ai_color opp_color depth cap m).
Proof.
  intros Hwf Hfuel Hcap Hne.
  assert (Hempty : forall m, In m (node_moves s ai_color opp_color cap) -> empty_cell s m).
  { intros m Hm. apply candidate_moves_empty_cells.
    eapply node_moves_candidates; eassumption. }
  assert (Hval : forall m, In m (node_moves s ai_color opp_color cap) ->
            minimax fuel (set_cell s (fst m) (snd m) (Some ai_color)) (depth - 1) false
                    ai_color opp_color (- INF) INF false cap
            = Some (root_value fuel s ai_color opp_color depth cap m,
                    set_cell s (fst m) (snd m) (Some ai_color))
            /\ in_range (root_value fuel s ai_color opp_color depth cap m)).
  { intros [r c] Hm. cbn [fst snd].
    destruct (minimax_bounded fuel (set_cell s r c (Some ai_color)) (depth - 1) false
                ai_color opp_color (- INF) INF false cap) as [v [E Hin]].
    - now apply wf_set_cell.
    - pose proof (count_empty_place s r c ai_color Hwf (Hempty _ Hm)). lia.
    - assumption.
    - unfold root_value. cbn [fst snd]. rewrite E. split; [reflexivity|exact Hin]. }
  destruct (ai_search_scored_restores fuel s ai_color opp_color depth false cap Hwf Hfuel)
    as [bm [bs [E Hroot]]].
  destruct (root_loop_first
              (fun st a b => minimax fuel st (depth - 1) false ai_color opp_color
                                     a b false cap)
              ai_color s (root_value fuel s ai_color opp_color depth cap) (- INF) INF Hwf
              (node_moves s ai_color opp_color cap) Hempty
              (fun m Hm => proj1 (Hval m Hm)) None (- INF))
    as [bm' [bs' [E' Hcase]]].
  rewrite Hroot in E'. inversion E'; subst bm' bs'. clear E'.
  destruct Hcase as [[_ [_ Hall]]|[pre [m [post [Hsplit [-> [-> [_ [Hpre Hpost]]]]]]]]].
  - exfalso. destruct (node_moves s ai_color opp_color cap) as [|m l] eqn:En;
      [congruence|].
    specialize (Hall m (or_introl eq_refl)).
    destruct (Hval m (or_introl eq_refl)) as [_ Hin].
    unfold in_range, SCORE_BOUND, INF in *. lia.
  - exists pre, m, post. split; [exact Hsplit|]. split; [exact E|].
    split; assumption.
Qed.

Lemma ai_search_first_best_witness :
  exists m bs,
    ai_search_scored 225 winning_board "white" "black" 1 false (Some 1)
    = Some (Some m, bs, winning_board).
Proof.
  assert (Hf : (count_empty winning_board < 225)%nat)
    by (apply Nat.ltb_lt; vm_compute; reflexivity).
  assert (Hc : cap_positive (Some 1)) by (intros k E; inversion E; lia).
  assert (Hn : node_moves winning_board "white" "black" (Some 1) <> [])
    by (vm_compute; discriminate).
  destruct (ai_search_first_best 225 winning_board "white" "black" 1 (Some 1)
              eq_refl Hf Hc Hn) as [pre [m [post [_ [E _]]]]].
  exists m, (root_value 225 winning_board "white" "black" 1 (Some 1) m). exact E.
Defined.

(** ** A depth of 0 or less at the root *)

Section LoopsExt.

Variables rec rec' : State -> Z -> Z -> option (Z * State).
Variables (use_ab : bool) (color : string).
Hypothesis Hrec : forall st a b, rec st a b = rec' st a b.




End LoopsExt.




Section SuggestLoops.

Variables (s : State) (player : string).
Hypothesis Hwf : wf_board s = true.

Lemma forcing_loop_value (cands : list Move) :
  (forall m, In m cands -> empty_cell s m) ->
  forall wins blocks defensive,
    forcing_loop player (other_color player) cands s wins blocks defensive =
    ((wins ++ map win_entry (tier_moves s player Win cands),
      blocks ++ map block_entry (tier_moves s player Block cands),
      defensive ++ map (defensive_entry s (other_color player))
                       (tier_moves s player Defensive cands)), s).
Proof.
  induction cands as [|[r c] tl IH]; intros Hc wins blocks defensive.
  - cbn. now rewrite !app_nil_r.
  - assert (He : cell s r c = None) by (apply (Hc (r, c)); left; reflexivity).
    assert (Htl : forall m, In m tl -> empty_cell s m)
      by (intros m Hm; apply Hc; right; exact Hm).
    cbn [forcing_loop]. rewrite try_move_is_win_empty by assumption.
    unfold tier_moves. cbn [filter]. fold (tier_moves s player).
    assert (Ht := eq_refl (tier s player (r, c))). unfold tier at 2 in Ht.
    cbn [fst snd] in Ht.
    destruct (wins_now s player (r, c)).
    { rewrite Ht. cbn [tier_eqb map]. rewrite IH by assumption.
      now rewrite <- app_assoc. }
    rewrite try_move_is_win_empty by assumption.
    destruct (wins_now s (other_color player) (r, c)).
    { rewrite Ht. cbn [tier_eqb map]. rewrite IH by assumption.
      now rewrite <- app_assoc. }
    destruct (is_open_threat s r c (other_color player) 3).
    { rewrite Ht. cbn [tier_eqb map]. rewrite IH by assumption.
      now rewrite <- app_assoc. }
    rewrite Ht. cbn [tier_eqb]. now rewrite IH by assumption.
Qed.

Lemma listed_In (r c : Z) (l : list Suggestion) :
  listed r c l = true <-> In (r, c) (map sug_move l).
Proof.
  unfold listed. rewrite existsb_exists, in_map_iff. split.
  - intros [[[[rr cc] sc] k] [Hin H]]. apply andb_true_iff in H.
    destruct H as [H1 H2]. apply Z.eqb_eq in H1, H2. subst.
    exists (rr, cc, sc, k). split; [reflexivity|exact Hin].
  - intros [[[[rr cc] sc] k] [E Hin]]. cbn in E. inversion E; subst.
    exists (r, c, sc, k). split; [exact Hin|]. now rewrite !Z.eqb_refl.
Qed.

Lemma forcing_entries_moves :
  map sug_move (forcing_entries s player)
  = tier_moves s player Win (candidate_moves s)
      ++ tier_moves s player Block (candidate_moves s)
      ++ tier_moves s player Defensive (candidate_moves s).
Proof.
  unfold forcing_entries. cbv zeta. rewrite !map_app, !map_map.
  assert (Hid : forall (f : Move -> Suggestion) l,
             (forall m, sug_move (f m) = m) -> map (fun m => sug_move (f m)) l = l).
  { intros f l H. rewrite (map_ext _ (fun m => m) H). apply map_id. }
  rewrite !Hid; [reflexivity| | |]; intros [r c]; reflexivity.
Qed.

(** A candidate is skipped by the scoring loops exactly when it is a win,
    a block or a defensive move. *)
Lemma listed_forcing (m : Move) :
  In m (candidate_moves s) ->
  listed (fst m) (snd m) (forcing_entries s player)
  = negb (tier_eqb (tier s player m) Rest).
Proof.
  intros Hin. destruct m as [r c]. cbn [fst snd].
  destruct (listed r c (forcing_entries s player)) eqn:E.
  - apply listed_In in E. rewrite forcing_entries_moves in E.
    rewrite !in_app_iff, !in_tier_moves in E.
    destruct E as [[_ E]|[[_ E]|[_ E]]]; now rewrite E.
  - destruct (tier s player (r, c)) eqn:Et; try reflexivity; exfalso;
      assert (H : listed r c (forcing_entries s player) = true)
        by (apply listed_In; rewrite forcing_entries_moves;
            rewrite !in_app_iff, !in_tier_moves; tauto);
      congruence.
Qed.

Lemma scored_filter (cand : list Move) :
  (forall m, In m cand -> In m (candidate_moves s)) ->
  filter (fun m => negb (listed (fst m) (snd m) (forcing_entries s player))) cand
  = tier_moves s player Rest cand.
Proof.
  intros H. unfold tier_moves. apply filter_ext_in. intros m Hm.
  rewrite listed_forcing by now apply H. now rewrite negb_involutive.
Qed.

Lemma easy_loop_value (forcing : list Suggestion) (cand : list Move) :
  (forall m, In m cand -> empty_cell s m) ->
  forall others,
    easy_loop player forcing cand s others
    = (others ++ map (easy_entry s player)
                     (filter (fun m => negb (listed (fst m) (snd m) forcing)) cand), s).
Proof.
  induction cand as [|[r c] tl IH]; intros Hc others.
  - cbn. now rewrite app_nil_r.
  - assert (He : cell s r c = None) by (apply (Hc (r, c)); left; reflexivity).
    assert (Htl : forall m, In m tl -> empty_cell s m)
      by (intros m Hm; apply Hc; right; exact Hm).
    cbn [easy_loop filter fst snd].
    destruct (listed r c forcing); cbn [negb]; [now apply IH|].
    rewrite place_undo by assumption. rewrite IH by assumption.
    cbn [map]. now rewrite <- app_assoc.
Qed.

Lemma reply_loop_restores (opp : string) (replies : list Move) :
  (forall m, In m replies -> empty_cell s m) ->
  forall best, snd (reply_loop opp replies s best) = s.
Proof.
  induction replies as [|[r c] tl IH]; intros Hc best; [reflexivity|].
  assert (He : cell s r c = None) by (apply (Hc (r, c)); left; reflexivity).
  cbn [reply_loop]. rewrite try_move_is_win_empty by assumption.
  destruct (wins_now s opp (r, c)); [reflexivity|].
  rewrite place_undo by assumption. apply IH.
  intros m Hm. apply Hc. now right.
Qed.

End SuggestLoops.

Lemma in_firstn_candidates (s : State) (n : nat) (m : Move) :
  In m (firstn n (candidate_moves s)) -> empty_cell s m.
Proof. intros H. apply in_firstn in H. now apply candidate_moves_empty_cells. Qed.

Section SuggestLoops2.

Variables (s : State) (player : string).
Hypothesis Hwf : wf_board s = true.

Lemma medium_loop_value (forcing : list Suggestion) (cand : list Move) :
  (forall m, In m cand -> empty_cell s m) ->
  forall others,
    medium_loop player (other_color player) forcing cand s others
    = (others ++ map (medium_entry s player)
                     (filter (fun m => negb (listed (fst m) (snd m) forcing)) cand), s).
Proof.
  induction cand as [|[r c] tl IH]; intros Hc others.
  - cbn. now rewrite app_nil_r.
  - assert (He : cell s r c = None) by (apply (Hc (r, c)); left; reflexivity).
    assert (Htl : forall m, In m tl -> empty_cell s m)
      by (intros m Hm; apply Hc; right; exact Hm).
    cbn [medium_loop filter fst snd].
    destruct (listed r c forcing); cbn [negb]; [now apply IH|].
    pose proof (reply_loop_restores (set_cell s r c (Some player))
                  (wf_set_cell s r c (Some player) Hwf) (other_color player)
                  (firstn 10 (candidate_moves (set_cell s r c (Some player))))
                  (in_firstn_candidates _ 10) (- 1000000000)) as Hr.
    destruct (reply_loop (other_color player)
                (firstn 10 (candidate_moves (set_cell s r c (Some player))))
                (set_cell s r c (Some player)) (- 1000000000)) as [v s2] eqn:E.
    cbn [snd] in Hr. subst s2.
    rewrite place_undo by assumption. rewrite IH by assumption.
    cbn [map]. rewrite <- app_assoc. cbn [app].
    unfold medium_entry at 2. unfold place. cbn [fst snd]. now rewrite E.
Qed.

Lemma hard_loop_value (rec : State -> option (Z * State)) (val : Move -> Z)
    (forcing : list Suggestion) (cand : list Move) :
  (forall m, In m cand -> empty_cell s m) ->
  (forall m, In m cand ->
     let s1 := set_cell s (fst m) (snd m) (Some player) in
     (if is_win_at s1 (fst m) (snd m) player then Some (100000, s1) else rec s1)
     = Some (val m, s1)) ->
  forall others,
    hard_loop rec player forcing cand s others
    = Some (others ++ map (fun m => (fst m, snd m, val m, "search"))
                          (filter (fun m => negb (listed (fst m) (snd m) forcing)) cand),
            s).
Proof.
  induction cand as [|[r c] tl IH]; intros Hc Hrec others.
  - cbn. now rewrite app_nil_r.
  - assert (He : cell s r c = None) by (apply (Hc (r, c)); left; reflexivity).
    assert (Htl : forall m, In m tl -> empty_cell s m)
      by (intros m Hm; apply Hc; right; exact Hm).
    assert (Hrtl := fun m Hm => Hrec m (or_intror Hm)).
    cbn [hard_loop filter fst snd].
    destruct (listed r c forcing); cbn [negb]; [now apply IH|].
    pose proof (Hrec (r, c) (or_introl eq_refl)) as Hv. cbn [fst snd] in Hv.
    cbv zeta in Hv. rewrite Hv.
    rewrite place_undo by assumption. rewrite IH by assumption.
    cbn [map fst snd]. now rewrite <- app_assoc.
Qed.

End SuggestLoops2.

(** [suggest_moves] without the board: the forcing entries, then the scored
    entries sorted, cut to [top_k]. *)
Lemma suggest_moves_value (fuel : nat) (s : State) (player difficulty : string)
    (top_k : Z) (cap : option Z) :
  wf_board s = true -> (count_empty s < fuel)%nat ->
  suggest_moves fuel s player difficulty top_k cap
  = Some (py_take top_k
            (forcing_entries s player
               ++ sort_desc (map (scored_entry fuel s player difficulty cap)
                                 (scored_moves s player cap))), s).
Proof.
  intros Hwf Hfuel. unfold suggest_moves. cbv zeta.
  rewrite forcing_loop_value by (try assumption; apply candidate_moves_empty_cells).
  cbn [app]. rewrite (surjective_pairing (ordered_candidates s player)).
  rewrite (ordered_candidates_tiers s player Hwf) at 2. cbn [snd].
  rewrite capped_ordered by assumption.
  fold (forcing_entries s player).
  assert (Hempty : forall m, In m (node_moves s player (other_color player) cap) ->
                     empty_cell s m).
  { intros m Hm. apply candidate_moves_empty_cells.
    eapply node_moves_candidates; eassumption. }
  assert (Hsc : filter (fun m => negb (listed (fst m) (snd m) (forcing_entries s player)))
                       (node_moves s player (other_color player) cap)
                = scored_moves s player cap).
  { apply scored_filter. intros m Hm. eapply node_moves_candidates; eassumption. }
  unfold scored_entry.
  destruct (String.eqb difficulty "Easy").
  - rewrite easy_loop_value by assumption. cbn [app]. now rewrite Hsc.
  - destruct (String.eqb difficulty "Medium").
    + rewrite medium_loop_value by assumption. cbn [app]. now rewrite Hsc.
    + assert (Hrec : forall m,
                 In m (node_moves s player (other_color player) cap) ->
                 let s1 := set_cell s (fst m) (snd m) (Some player) in
                 (if is_win_at s1 (fst m) (snd m) player then Some (100000, s1)
                  else minimax fuel s1 (2 - 1) false player (other_color player)
                               (- 1000000000) 1000000000 true cap)
                 = Some (sug_score (hard_entry fuel s player cap m), s1)).
      { intros [r c] Hm. cbn [fst snd]. cbv zeta. unfold hard_entry, place.
        cbn [fst snd sug_score].
        destruct (is_win_at (set_cell s r c (Some player)) r c player);
          [reflexivity|].
        destruct (minimax_restores fuel (set_cell s r c (Some player)) 1 false player
                    (other_color player) (- 1000000000) 1000000000 true cap) as [v E].
        - now apply wf_set_cell.
        - pose proof (count_empty_place s r c player Hwf (Hempty _ Hm)). lia.
        - change (2 - 1) with 1. rewrite E. reflexivity. }
      rewrite (hard_loop_value s player Hwf _
                 (fun m => sug_score (hard_entry fuel s player cap m)) _ _ Hempty Hrec).
      cbn [app]. rewrite Hsc. reflexivity.
Qed.

(** ** The sort and the slice *)

Lemma insert_desc_perm (x : Suggestion) (l : list Suggestion) :
  Permutation (insert_desc x l) (x :: l).
Proof.
  induction l as [|y t IH]; cbn [insert_desc]; [reflexivity|].
  destruct (sug_score y <=? sug_score x); [reflexivity|].
  rewrite IH. apply perm_swap.
Qed.

Lemma sort_desc_perm (l : list Suggestion) : Permutation (sort_desc l) l.
Proof.
  induction l as [|x t IH]; [reflexivity|].
  cbn [sort_desc fold_right]. fold (sort_desc t).
  rewrite insert_desc_perm. now constructor.
Qed.

Lemma insert_desc_sorted (x : Suggestion) (l : list Suggestion) :
  StronglySorted score_ge l -> StronglySorted score_ge (insert_desc x l).
Proof.
  induction l as [|y t IH]; intros Hs; cbn [insert_desc].
  - constructor; constructor.
  - inversion Hs as [|? ? Ht Hy]; subst.
    destruct (sug_score y <=? sug_score x) eqn:E.
    + apply Z.leb_le in E. constructor; [exact Hs|].
      constructor; [exact E|].
      rewrite Forall_forall in *. intros z Hz. specialize (Hy z Hz).
      unfold score_ge in *. lia.
    + apply Z.leb_gt in E. constructor; [now apply IH|].
      rewrite Forall_forall in *. intros z Hz.
      apply (Permutation_in _ (insert_desc_perm x t)) in Hz.
      destruct Hz as [<-|Hz]; [unfold score_ge; lia|now apply Hy].
Qed.

Lemma sort_desc_sorted (l : list Suggestion) : StronglySorted score_ge (sort_desc l).
Proof.
  induction l as [|x t IH]; [constructor|].
  cbn [sort_desc fold_right]. now apply insert_desc_sorted.
Qed.

Lemma insert_desc_stable (v : Z) (x : Suggestion) (l : list Suggestion) :
  with_score v (insert_desc x l) = with_score v (x :: l).
Proof.
  unfold with_score. induction l as [|y t IH]; cbn [insert_desc]; [reflexivity|].
  destruct (sug_score y <=? sug_score x) eqn:E; [reflexivity|].
  apply Z.leb_gt in E. cbn [filter] in *. rewrite IH.
  destruct (sug_score x =? v) eqn:Ex; [|reflexivity].
  apply Z.eqb_eq in Ex.
  destruct (sug_score y =? v) eqn:Ey; [|reflexivity].
  apply Z.eqb_eq in Ey. lia.
Qed.

Lemma sort_desc_stable (v : Z) (l : list Suggestion) :
  with_score v (sort_desc l) = with_score v l.
Proof.
  induction l as [|x t IH]; [reflexivity|].
  cbn [sort_desc fold_right]. fold (sort_desc t).
  rewrite insert_desc_stable. unfold with_score in *. cbn [filter]. now rewrite IH.
Qed.

Lemma py_take_prefix {A : Type} (k : Z) (l : list A) :
  exists n, py_take k l = firstn n l.
Proof. unfold py_take. destruct (0 <=? k); eexists; reflexivity. Qed.

Lemma py_take_length {A : Type} (k : Z) (l : list A) :
  0 <= k -> zlen (py_take k l) <= k.
Proof.
  intros Hk. unfold py_take, zlen.
  destruct (0 <=? k) eqn:E; [|apply Z.leb_gt in E; lia].
  rewrite length_firstn. lia.
Qed.

Lemma py_take_all {A : Type} (k : Z) (l : list A) :
  zlen l <= k -> py_take k l = l.
Proof.
  intros Hk. unfold py_take, zlen in *.
  destruct (0 <=? k) eqn:E; [|apply Z.leb_gt in E; lia].
  apply firstn_all2. lia.
Qed.

Lemma py_take_head {A : Type} (k : Z) (x : A) (l : list A) :
  1 <= k -> exists t, py_take k (x :: l) = x :: t.
Proof.
  intros Hk. unfold py_take.
  destruct (0 <=? k) eqn:E; [|apply Z.leb_gt in E; lia].
  destruct (Z.to_nat k) as [|n] eqn:En; [lia|].
  cbn [firstn]. eexists; reflexivity.
Qed.

Lemma in_py_take {A : Type} (k : Z) (l : list A) (x : A) :
  In x (py_take k l) -> In x l.
Proof.
  destruct (py_take_prefix k l) as [n ->]. apply in_firstn.
Qed.

Lemma NoDup_firstn_list {A : Type} (n : nat) (l : list A) :
  NoDup l -> NoDup (firstn n l).
Proof.
  revert n. induction l as [|x t IH]; intros n Hn.
  - rewrite firstn_nil. constructor.
  - destruct n as [|n]; [constructor|]. cbn [firstn].
    inversion Hn as [|? ? Hx Ht]; subst. constructor; [|now apply IH].
    intros Hin. apply Hx. eapply in_firstn; exact Hin.
Qed.

Lemma NoDup_disjoint_app {A : Type} (l1 l2 : list A) :
  NoDup l1 -> NoDup l2 -> (forall x, In x l1 -> ~ In x l2) -> NoDup (l1 ++ l2).
Proof.
  induction l1 as [|x t IH]; intros H1 H2 Hd; [exact H2|].
  inversion H1 as [|? ? Hx Ht]; subst. cbn [app]. constructor.
  - rewrite in_app_iff. intros [H|H]; [now apply Hx|].
    apply (Hd x); [now left|exact H].
  - apply IH; [assumption|assumption|]. intros y Hy. apply Hd. now right.
Qed.

(** ** The moves of [suggest_moves] *)

Section Suggested.

Variables (s : State) (player : string).
Hypothesis Hwf : wf_board s = true.

Lemma candidate_moves_NoDup : NoDup (candidate_moves s).
Proof.
  apply sorted_NoDup. unfold candidate_moves. cbv zeta.
  destruct (negb _); [repeat constructor|].
  destruct (filter (fun m => neighbors_exist s (fst m) (snd m) 2) (get_empty_cells s))
    eqn:F; [apply get_empty_cells_sorted|].
  rewrite <- F. apply filter_sorted, get_empty_cells_sorted.
Qed.

Lemma tier_moves_NoDup (t : Tier) (l : list Move) :
  NoDup l -> NoDup (tier_moves s player t l).
Proof. intros H. unfold tier_moves. now apply NoDup_filter. Qed.

(** The scored moves are the rest candidates, cut to what a cap leaves
    after the wins, blocks and defensive moves. *)
Lemma scored_moves_rest (cap : option Z) :
  scored_moves s player cap
  = match cap with
    | None => tier_moves s player Rest (candidate_moves s)
    | Some k =>
        firstn (Z.to_nat (Z.max 0 (k - zlen (forcing_entries s player))))
               (tier_moves s player Rest (candidate_moves s))
    end.
Proof.
  assert (Hrest : forall l, (forall m, In m l -> tier s player m = Rest) ->
                    tier_moves s player Rest l = l).
  { intros l Hl. unfold tier_moves. apply forallb_filter_id.
    apply forallb_forall. intros m Hm. rewrite (Hl m Hm). reflexivity. }
  assert (Hnone : forall t l, t <> Rest ->
                    tier_moves s player Rest (tier_moves s player t l) = []).
  { intros t l Ht. unfold tier_moves. induction l as [|m tl IH]; [reflexivity|].
    cbn [filter]. destruct (tier_eqb (tier s player m) t) eqn:E; [|exact IH].
    cbn [filter]. apply tier_eqb_eq in E. rewrite E.
    destruct t; try congruence; cbn [tier_eqb]; exact IH. }
  assert (Happ : forall l1 l2, tier_moves s player Rest (l1 ++ l2)
                   = tier_moves s player Rest l1 ++ tier_moves s player Rest l2).
  { intros l1 l2. unfold tier_moves. apply filter_app. }
  unfold scored_moves, node_moves. destruct cap as [k|].
  - rewrite capped_forcing_then_rest by assumption. cbn [fst].
    unfold forcing_then_rest. cbv zeta.
    rewrite !Happ, !Hnone by discriminate. cbn [app].
    rewrite Hrest.
    + f_equal. f_equal. f_equal. unfold forcing_entries. cbv zeta.
      unfold zlen. rewrite !length_app, !length_map. lia.
    + intros m Hm. apply in_firstn in Hm.
      now apply (in_tier_moves s player) in Hm.
  - cbn [capped fst]. rewrite (ordered_candidates_tiers s player Hwf). cbn [fst].
    rewrite !Happ, !Hnone by discriminate. cbn [app].
    apply Hrest. intros m Hm. now apply (in_tier_moves s player) in Hm.
Qed.

Lemma in_scored_moves (cap : option Z) (m : Move) :
  In m (scored_moves s player cap) ->
  In m (candidate_moves s) /\ tier s player m = Rest.
Proof.
  rewrite scored_moves_rest. intros H.
  apply (in_tier_moves s player).
  destruct cap as [k|]; [now apply in_firstn in H|exact H].
Qed.

Lemma scored_moves_NoDup (cap : option Z) : NoDup (scored_moves s player cap).
Proof.
  rewrite scored_moves_rest.
  pose proof (tier_moves_NoDup Rest _ candidate_moves_NoDup) as H.
  destruct cap as [k|]; [now apply NoDup_firstn_list|exact H].
Qed.

Lemma in_forcing_moves (m : Move) :
  In m (map sug_move (forcing_entries s player)) <->
  In m (candidate_moves s) /\ tier s player m <> Rest.
Proof.
  rewrite forcing_entries_moves, !in_app_iff, !(in_tier_moves s player). split.
  - intros [[H E]|[[H E]|[H E]]]; (split; [exact H|rewrite E; discriminate]).
  - intros [H E]. destruct (tier s player m) eqn:Et; tauto.
Qed.

Lemma forcing_moves_NoDup : NoDup (map sug_move (forcing_entries s player)).
Proof.
  rewrite forcing_entries_moves.
  pose proof candidate_moves_NoDup as Hc.
  apply NoDup_disjoint_app; [now apply tier_moves_NoDup| |].
  - apply NoDup_disjoint_app; try now apply tier_moves_NoDup.
    intros m H1 H2. apply (in_tier_moves s player) in H1, H2.
    destruct H1 as [_ H1], H2 as [_ H2]. congruence.
  - intros m H1 H2. apply (in_tier_moves s player) in H1.
    rewrite in_app_iff, !(in_tier_moves s player) in H2.
    destruct H1 as [_ H1]. destruct H2 as [[_ H2]|[_ H2]]; congruence.
Qed.

Lemma scored_entry_move (fuel : nat) (difficulty : string) (cap : option Z) (m : Move) :
  sug_move (scored_entry fuel s player difficulty cap m) = m.
Proof.
  unfold scored_entry. destruct m as [r c].
  destruct (String.eqb difficulty "Easy"); [reflexivity|].
  destruct (String.eqb difficulty "Medium"); reflexivity.
Qed.

Lemma scored_entries_moves (fuel : nat) (difficulty : string) (cap : option Z)
    (l : list Move) :
  map sug_move (map (scored_entry fuel s player difficulty cap) l) = l.
Proof.
  rewrite map_map. rewrite (map_ext _ (fun m => m)); [apply map_id|].
  intros m. apply scored_entry_move.
Qed.

(** The cells of all entries, before the cut: distinct candidates. *)
Lemma ranked_moves (fuel : nat) (difficulty : string) (cap : option Z) :
  let all := forcing_entries s player
               ++ sort_desc (map (scored_entry fuel s player difficulty cap)
                                 (scored_moves s player cap)) in
  NoDup (map sug_move all)
  /\ forall x, In x all -> In (sug_move x) (candidate_moves s).
Proof.
  cbv zeta.
  assert (Hp : Permutation
                 (map sug_move (sort_desc (map (scored_entry fuel s player difficulty cap)
                                               (scored_moves s player cap))))
                 (scored_moves s player cap)).
  { rewrite (Permutation_map sug_move (sort_desc_perm _)).
    now rewrite scored_entries_moves. }
  split.
  - rewrite map_app. apply NoDup_disjoint_app.
    + apply forcing_moves_NoDup.
    + eapply Permutation_NoDup; [apply Permutation_sym, Hp|].
      apply scored_moves_NoDup.
    + intros m H1 H2. apply in_forcing_moves in H1.
      apply (Permutation_in _ Hp) in H2. apply in_scored_moves in H2. tauto.
  - intros x Hx. apply in_app_iff in Hx. destruct Hx as [Hx|Hx].
    + apply (in_map sug_move) in Hx. now apply in_forcing_moves in Hx.
    + apply (in_map sug_move) in Hx. apply (Permutation_in _ Hp) in Hx.
      now apply in_scored_moves in Hx.
Qed.

End Suggested.

(** X15.  On a 15x15 board and with enough fuel for its searches,
    [suggest_moves] returns for every difficulty, cap and [top_k], and leaves
    the board as it was.  The list has at most [top_k] entries when
    [top_k >= 0]; its cells are pairwise distinct candidate moves, so empty
    cells of the board; and it is empty when the board is full. *)
Theorem suggest_moves_cells (fuel : nat) (s : State) (player difficulty : string)
    (top_k : Z) (cap : option Z) :
  wf_board s = true -> (count_empty s < fuel)%nat ->
  exists l,
    suggest_moves fuel s player difficulty top_k cap = Some (l, s)
    /\ (0 <= top_k -> zlen l <= top_k)
    /\ NoDup (map sug_move l)
    /\ (forall x, In x l ->
          In (sug_move x) (candidate_moves s) /\ empty_cell s (sug_move x))
    /\ (get_empty_cells s = [] -> l = []).
Proof.
  intros Hwf Hfuel. eexists. split; [now apply suggest_moves_value|].
  destruct (ranked_moves s player Hwf fuel difficulty cap) as [Hnd Hin].
  cbv zeta in Hnd, Hin.
  set (all := forcing_entries s player ++ _) in *.
  split; [apply py_take_length|]. split; [|split].
  - destruct (py_take_prefix top_k all) as [n ->].
    rewrite <- firstn_map. now apply NoDup_firstn_list.
  - intros x Hx. apply in_py_take in Hx. specialize (Hin x Hx).
    split; [exact Hin|now apply candidate_moves_empty_cells].
  - intros Hfull.
    assert (Hall : all = []).
    { destruct all as [|x t]; [reflexivity|exfalso].
      specialize (Hin x (or_introl eq_refl)).
      apply candidate_moves_empty_cells in Hin.
      apply in_get_empty_cells in Hin. rewrite Hfull in Hin. exact Hin. }
    rewrite Hall. destruct (py_take_prefix top_k (@nil Suggestion)) as [n ->].
    apply firstn_nil.
Qed.

Lemma suggest_moves_cells_witness :
  exists l,
    suggest_moves 222 four_in_row "white" "Hard" 6 (Some 12) = Some (l, four_in_row)
    /\ zlen l <= 6.
Proof.
  destruct (suggest_moves_cells 222 four_in_row "white" "Hard" 6 (Some 12))
    as [l [E [Hlen _]]].
  - reflexivity.
  - apply Nat.ltb_lt. vm_compute. reflexivity.
  - exists l. split; [exact E|]. apply Hlen. lia.
Defined.

(** X16.  The list of [suggest_moves] is the first [top_k] entries of: the
    win entries, the block entries and the defensive entries of all
    candidates, each group in the order of [candidate_moves], followed by
    the scored entries in descending order of score, entries of equal score
    in the order in which they were scored. *)
Theorem suggest_moves_ranking (fuel : nat) (s : State) (player difficulty : string)
    (top_k : Z) (cap : option Z) :
  wf_board s = true -> (count_empty s < fuel)%nat ->
  exists scored,
    suggest_moves fuel s player difficulty top_k cap
    = Some (py_take top_k (forcing_entries s player ++ scored), s)
    /\ StronglySorted score_ge scored
    /\ Permutation scored
         (map (scored_entry fuel s player difficulty cap) (scored_moves s player cap))
    /\ (forall v, with_score v scored
                  = with_score v (map (scored_entry fuel s player difficulty cap)
                                      (scored_moves s player cap))).
Proof.
  intros Hwf Hfuel. eexists. split; [now apply suggest_moves_value|].
  split; [apply sort_desc_sorted|]. split; [apply sort_desc_perm|].
  intros v. apply sort_desc_stable.
Qed.

Lemma suggest_moves_ranking_witness :
  exists scored,
    suggest_moves 222 four_in_row "white" "Easy" 6 None
    = Some (py_take 6 (forcing_entries four_in_row "white" ++ scored), four_in_row)
    /\ StronglySorted score_ge scored.
Proof.
  destruct (suggest_moves_ranking 222 four_in_row "white" "Easy" 6 None)
    as [scored [E [Hs _]]].
  - reflexivity.
  - apply Nat.ltb_lt. vm_compute. reflexivity.
  - exists scored. split; [exact E|exact Hs].
Defined.

(** X17.  [max_candidates] never removes a win, block or defensive entry:
    it only limits which moves are scored, to the first
    [max(0, max_candidates - number of forcing entries)] rest candidates in
    the order of [candidate_moves]; without it every rest candidate is
    scored. *)
Theorem suggest_moves_cap (fuel : nat) (s : State) (player difficulty : string)
    (top_k : Z) (cap : option Z) :
  wf_board s = true -> (count_empty s < fuel)%nat ->
  exists scored,
    suggest_moves fuel s player difficulty top_k cap
    = Some (py_take top_k (forcing_entries s player ++ scored), s)
    /\ Permutation (map sug_move scored)
         match cap with
         | None => tier_moves s player Rest (candidate_moves s)
         | Some k =>
             firstn (Z.to_nat (Z.max 0 (k - zlen (forcing_entries s player))))
                    (tier_moves s player Rest (candidate_moves s))
         end
    /\ match cap with
       | None => True
       | Some k => zlen scored <= Z.max 0 (k - zlen (forcing_entries s player))
       end.
Proof.
  intros Hwf Hfuel. eexists. split; [now apply suggest_moves_value|].
  assert (Hp : Permutation
                 (map sug_move (sort_desc (map (scored_entry fuel s player difficulty cap)
                                               (scored_moves s player cap))))
                 (scored_moves s player cap)).
  { rewrite (Permutation_map sug_move (sort_desc_perm _)).
    now rewrite scored_entries_moves. }
  split.
  - rewrite <- (scored_moves_rest s player Hwf cap). exact Hp.
  - destruct cap as [k|]; [|exact I].
    apply Permutation_length in Hp. rewrite length_map in Hp.
    unfold zlen at 1. rewrite Hp, (scored_moves_rest s player Hwf (Some k)).
    rewrite length_firstn. lia.
Qed.

Lemma suggest_moves_cap_witness :
  exists scored,
    suggest_moves 222 four_in_row "white" "Easy" 6 (Some 3)
    = Some (py_take 6 (forcing_entries four_in_row "white" ++ scored), four_in_row)
    /\ zlen scored <= 1.
Proof.
  destruct (suggest_moves_cap 222 four_in_row "white" "Easy" 6 (Some 3))
    as [scored [E [_ Hlen]]].
  - reflexivity.
  - apply Nat.ltb_lt. vm_compute. reflexivity.
  - exists scored. split; [exact E|]. exact Hlen.
Defined.

(** ** Kinds and scores of the entries *)

Lemma count_threat_level_py (s : State) (row col : Z) (color : string) :
  wf_board s = true -> in_bounds row col = true ->
  PyScan.count_threat_level s row col color = Some (count_threat_level s row col color).
Proof.
  intros Hwf Hb. unfold PyScan.count_threat_level, count_threat_level.
  rewrite getitem_in_bounds by assumption.
  destruct (cell s row col) as [x|]; cbn [is_empty negb]; [reflexivity|].
  rewrite threat_loop_value by assumption. f_equal.
  generalize 0. induction directions as [|d ds IH]; intros m; [reflexivity|].
  cbn [fold_left]. rewrite IH.
  destruct (axis_scan s row col color d) as [[cnt a] b]. reflexivity.
Qed.

(** A defensive move faces a run of three or four. *)
Lemma defensive_level (s : State) (player : string) (m : Move) :
  wf_board s = true -> in_bounds (fst m) (snd m) = true ->
  tier s player m = Defensive ->
  3 <= count_threat_level s (fst m) (snd m) (other_color player) <= 4.
Proof.
  intros Hwf Hb Ht. unfold tier in Ht.
  destruct (wins_now s player m); [discriminate|].
  destruct (wins_now s (other_color player) m) eqn:Ew; [discriminate|].
  destruct (is_open_threat s (fst m) (snd m) (other_color player) 3) eqn:Eo;
    [|discriminate].
  rewrite wins_now_is_win_at in Ew.
  apply is_open_threat_runs in Eo.
  destruct Eo as [He [d [nf [nb [Hd [Hnf [Hnb [Hr [Hk _]]]]]]]]].
  destruct (count_threat_level_runs s (fst m) (snd m) (other_color player) Hwf Hb)
    as [_ Hc].
  destruct (Hc He) as [n [E [_ [_ [Hall H5]]]]].
  rewrite count_threat_level_py in E by assumption. inversion E as [En].
  specialize (Hall d nf nb Hd Hnf Hnb Hr).
  split; [lia|].
  destruct (Z.le_gt_cases 5 n) as [H|H]; [|lia].
  apply H5 in H. congruence.
Qed.

Lemma reply_loop_value (s : State) (opp : string) (replies : list Move) :
  wf_board s = true ->
  (forall m, In m replies -> empty_cell s m) ->
  forall best,
    fst (reply_loop opp replies s best)
    = if existsb (wins_now s opp) replies then 100000000
      else fold_left (fun best m => Z.max best (evaluate (place opp s m) opp))
                     replies best.
Proof.
  intros Hwf. induction replies as [|[r c] tl IH]; intros Hc best; [reflexivity|].
  assert (He : cell s r c = None) by (apply (Hc (r, c)); left; reflexivity).
  cbn [reply_loop existsb fold_left].
  rewrite try_move_is_win_empty by assumption.
  destruct (wins_now s opp (r, c)); cbn [orb]; [reflexivity|].
  rewrite place_undo by assumption.
  rewrite IH by (intros m Hm; apply Hc; now right).
  unfold place at 3. cbn [fst snd].
  replace (if best <? evaluate (set_cell s r c (Some opp)) opp
           then evaluate (set_cell s r c (Some opp)) opp else best)
    with (Z.max best (evaluate (set_cell s r c (Some opp)) opp)); [reflexivity|].
  destruct (best <? evaluate (set_cell s r c (Some opp)) opp) eqn:E.
  - apply Z.ltb_lt in E. lia.
  - apply Z.ltb_ge in E. lia.
Qed.

Section Entries.

Variables (fuel : nat) (s : State) (player difficulty : string) (cap : option Z).
Hypothesis Hwf : wf_board s = true.
Hypothesis Hfuel : (count_empty s < fuel)%nat.

(** An entry of the ranked list is the entry of its own move. *)
Lemma ranked_entry (x : Suggestion) :
  In x (forcing_entries s player
          ++ sort_desc (map (scored_entry fuel s player difficulty cap)
                            (scored_moves s player cap))) ->
  In (sug_move x) (candidate_moves s)
  /\ match tier s player (sug_move x) with
     | Win => x = win_entry (sug_move x)
     | Block => x = block_entry (sug_move x)
     | Defensive => x = defensive_entry s (other_color player) (sug_move x)
     | Rest => x = scored_entry fuel s player difficulty cap (sug_move x)
     end.
Proof.
  intros Hx. apply in_app_iff in Hx. destruct Hx as [Hx|Hx].
  - unfold forcing_entries in Hx. cbv zeta in Hx.
    rewrite !in_app_iff, !in_map_iff in Hx.
    destruct Hx as [[m [<- Hm]]|[[m [<- Hm]]|[m [<- Hm]]]];
      apply (in_tier_moves s player) in Hm; destruct Hm as [Hm Ht];
      destruct m as [r c]; cbn [sug_move win_entry block_entry defensive_entry fst snd];
      rewrite Ht; split; try assumption; reflexivity.
  - apply (Permutation_in _ (sort_desc_perm _)) in Hx.
    apply in_map_iff in Hx. destruct Hx as [m [<- Hm]].
    rewrite scored_entry_move.
    apply in_scored_moves in Hm; [|assumption]. destruct Hm as [Hm Ht].
    rewrite Ht. split; [assumption|reflexivity].
Qed.

Lemma scored_entry_kind (m : Move) :
  sug_kind (scored_entry fuel s player difficulty cap m) = scored_kind difficulty.
Proof.
  unfold scored_entry, scored_kind. destruct m as [r c].
  destruct (String.eqb difficulty "Easy"); [reflexivity|].
  destruct (String.eqb difficulty "Medium"); reflexivity.
Qed.

Lemma hard_entry_search (m : Move) :
  tier s player m = Rest -> empty_cell s m ->
  is_win_at (place player s m) (fst m) (snd m) player = false
  /\ minimax fuel (place player s m) 1 false player (other_color player)
             (- 1000000000) 1000000000 true cap
     = Some (sug_score (hard_entry fuel s player cap m), place player s m).
Proof.
  intros Ht Hm.
  assert (Hw : is_win_at (place player s m) (fst m) (snd m) player = false).
  { unfold tier in Ht. fold (wins_now s player m).
    destruct (wins_now s player m); [discriminate|reflexivity]. }
  split; [exact Hw|].
  unfold hard_entry. cbv zeta. cbn [sug_score]. rewrite Hw.
  destruct (minimax_restores fuel (place player s m) 1 false player
              (other_color player) (- 1000000000) 1000000000 true cap) as [v E].
  - unfold place. now apply wf_set_cell.
  - destruct m as [r c]. unfold place. cbn [fst snd].
    pose proof (count_empty_place s r c player Hwf Hm). lia.
  - rewrite E. reflexivity.
Qed.

End Entries.

(** X18.  Every entry of [suggest_moves] carries the kind and score of its
    move's tier: a move that wins at once is a ["win"] with score [10**9];
    a move that stops the opponent's win is a ["block"] with score [10**8];
    a defensive move is ["defensive"] with score [10**7 + 1000 * n], where
    [n], the value of [count_threat_level] for the opponent, is 3 or 4; any
    other move is ["score"] (Easy, Medium) or ["search"] (otherwise).  When
    [top_k] is at least the number of forcing entries, every candidate that
    is a win, a block or a defensive move is in the list, with or without
    [max_candidates]. *)
Theorem suggest_moves_kinds (fuel : nat) (s : State) (player difficulty : string)
    (top_k : Z) (cap : option Z) :
  wf_board s = true -> (count_empty s < fuel)%nat ->
  exists l,
    suggest_moves fuel s player difficulty top_k cap = Some (l, s)
    /\ (forall x, In x l ->
          match tier s player (sug_move x) with
          | Win => sug_score x = 1000000000 /\ sug_kind x = "win"
          | Block => sug_score x = 100000000 /\ sug_kind x = "block"
          | Defensive =>
              sug_kind x = "defensive"
              /\ exists n,
                   PyScan.count_threat_level s (fst (sug_move x)) (snd (sug_move x))
                                             (other_color player) = Some n
                   /\ 3 <= n <= 4 /\ sug_score x = 10000000 + n * 1000
          | Rest => sug_kind x = scored_kind difficulty
          end)
    /\ (zlen (forcing_entries s player) <= top_k ->
        forall m, In m (candidate_moves s) -> tier s player m <> Rest ->
                  In m (map sug_move l)).
Proof.
  intros Hwf Hfuel. eexists. split; [now apply suggest_moves_value|]. split.
  - intros x Hx. apply in_py_take in Hx.
    destruct (ranked_entry fuel s player difficulty cap Hwf x Hx) as [Hc He].
    destruct (tier s player (sug_move x)) eqn:Et; rewrite He.
    + destruct (sug_move x); split; reflexivity.
    + destruct (sug_move x); split; reflexivity.
    + assert (Hb : in_bounds (fst (sug_move x)) (snd (sug_move x)) = true)
        by exact (candidate_moves_in_bounds s _ Hc).
      split; [destruct (sug_move x); reflexivity|].
      exists (count_threat_level s (fst (sug_move x)) (snd (sug_move x))
                (other_color player)).
      split; [now apply count_threat_level_py|].
      split; [now apply defensive_level|].
      destruct (sug_move x) as [r c] eqn:Em. cbn [defensive_entry fst snd sug_move sug_score].
      reflexivity.
    + apply scored_entry_kind.
  - intros Hk m Hm Ht.
    destruct (py_take_prefix top_k
                (forcing_entries s player
                   ++ sort_desc (map (scored_entry fuel s player difficulty cap)
                                     (scored_moves s player cap)))) as [n En].
    assert (Hin : In m (map sug_move (forcing_entries s player)))
      by (apply in_forcing_moves; first [assumption|split; assumption]).
    apply in_map_iff in Hin. destruct Hin as [x [<- Hx]].
    apply in_map. unfold py_take.
    destruct (0 <=? top_k) eqn:E0.
    + rewrite firstn_app. apply in_app_iff. left.
      rewrite firstn_all2; [exact Hx|]. unfold zlen in Hk. lia.
    + apply Z.leb_gt in E0. pose proof (Zle_0_nat (length (forcing_entries s player))).
      unfold zlen in Hk. lia.
Qed.

Lemma suggest_moves_kinds_witness :
  exists l,
    suggest_moves 222 four_in_row "white" "Medium" 6 None = Some (l, four_in_row)
    /\ In (7, 2) (map sug_move l).
Proof.
  destruct (suggest_moves_kinds 222 four_in_row "white" "Medium" 6 None)
    as [l [E [_ Hall]]].
  - reflexivity.
  - apply Nat.ltb_lt. vm_compute. reflexivity.
  - exists l. split; [exact E|]. apply Hall.
    + vm_compute. discriminate.
    + apply mem_In. vm_compute. reflexivity.
    + vm_compute. discriminate.
Defined.

(** X19.  The score of an entry that is neither a win, a block nor a
    defensive move.  Easy: the evaluation of the board with the move played.
    Medium: that evaluation minus [10**8] if one of the first ten candidates
    of the new board wins for the opponent, else minus the best evaluation
    the opponent reaches with one of them.  Otherwise: the value of
    [minimax] at depth 1, minimizing, on the new board; the move never
    completes five in a row, so the value 100000 of the loop is never
    used. *)
Theorem suggest_moves_scores (fuel : nat) (s : State) (player difficulty : string)
    (top_k : Z) (cap : option Z) :
  wf_board s = true -> (count_empty s < fuel)%nat ->
  exists l,
    suggest_moves fuel s player difficulty top_k cap = Some (l, s)
    /\ forall x, In x l -> tier s player (sug_move x) = Rest ->
         let m := sug_move x in
         let s1 := place player s m in
         let opp := other_color player in
         if String.eqb difficulty "Easy" then sug_score x = evaluate s1 player
         else if String.eqb difficulty "Medium" then
           sug_score x = evaluate s1 player - reply_value opp s1
         else
           is_win_at s1 (fst m) (snd m) player = false
           /\ minimax fuel s1 1 false player opp (- 1000000000) 1000000000 true cap
              = Some (sug_score x, s1).
Proof.
  intros Hwf Hfuel. eexists. split; [now apply suggest_moves_value|].
  intros x Hx Ht. cbv zeta. apply in_py_take in Hx.
  destruct (ranked_entry fuel s player difficulty cap Hwf x Hx) as [Hc He].
  rewrite Ht in He. unfold scored_entry in He.
  assert (Hm : empty_cell s (sug_move x)) by now apply candidate_moves_empty_cells.
  destruct (String.eqb difficulty "Easy").
  - rewrite He at 1. reflexivity.
  - destruct (String.eqb difficulty "Medium").
    + rewrite He at 1. unfold medium_entry. cbv zeta. cbn [sug_score].
      unfold reply_value. cbv zeta. f_equal.
      apply reply_loop_value.
      * unfold place. now apply wf_set_cell.
      * apply in_firstn_candidates.
    + assert (Hs : sug_score x = sug_score (hard_entry fuel s player cap (sug_move x)))
        by (rewrite He at 1; reflexivity).
      rewrite Hs.
      exact (hard_entry_search fuel s player cap Hwf Hfuel (sug_move x) Ht Hm).
Qed.

Lemma suggest_moves_scores_witness :
  exists l,
    suggest_moves 222 four_in_row "white" "Easy" 6 None = Some (l, four_in_row)
    /\ forall x, In x l -> tier four_in_row "white" (sug_move x) = Rest ->
         sug_score x = evaluate (place "white" four_in_row (sug_move x)) "white".
Proof.
  destruct (suggest_moves_scores 222 four_in_row "white" "Easy" 6 None)
    as [l [E H]].
  - reflexivity.
  - apply Nat.ltb_lt. vm_compute. reflexivity.
  - exists l. split; [exact E|]. intros x Hx Ht. exact (H x Hx Ht).
Defined.

Lemma find_filter {A : Type} (f : A -> bool) (l : list A) (a : A) :
  find f l = Some a -> exists t, filter f l = a :: t.
Proof.
  induction l as [|x tl IH]; [discriminate|]. cbn [find filter].
  destruct (f x); [|exact IH]. intros E. inversion E; subst. eexists; reflexivity.
Qed.

Lemma find_none_filter {A : Type} (f : A -> bool) (l : list A) :
  find f l = None -> filter f l = [].
Proof.
  induction l as [|x tl IH]; [reflexivity|]. cbn [find filter].
  destruct (f x); [discriminate|exact IH].
Qed.

(** X20.  With [top_k >= 1], the first suggestion of [compute_suggestions]
    is the first candidate that wins at once, as a ["win"], if there is one;
    if there is none, it is the first candidate at which the opponent would
    win, as a ["block"], if there is one. *)
Theorem compute_suggestions_head (fuel : nat) (s : State) (player difficulty : string)
    (top_k : Z) :
  wf_board s = true -> (count_empty s < fuel)%nat -> 1 <= top_k ->
  exists l,
    compute_suggestions fuel s player top_k difficulty = Some (l, s)
    /\ (forall m, find (wins_now s player) (candidate_moves s) = Some m ->
          exists t, l = (fst m, snd m, 1000000000, "win") :: t)
    /\ (forall m, find (wins_now s player) (candidate_moves s) = None ->
          find (wins_now s (other_color player)) (candidate_moves s) = Some m ->
          exists t, l = (fst m, snd m, 100000000, "block") :: t).
Proof.
  intros Hwf Hfuel Hk. unfold compute_suggestions.
  eexists. split; [now apply suggest_moves_value|].
  assert (Hwin : tier_moves s player Win (candidate_moves s)
                 = filter (wins_now s player) (candidate_moves s)).
  { unfold tier_moves. apply filter_ext. intros m. unfold tier.
    destruct (wins_now s player m); [reflexivity|].
    destruct (wins_now s (other_color player) m); [reflexivity|].
    destruct (is_open_threat s (fst m) (snd m) (other_color player) 3); reflexivity. }
  unfold forcing_entries. cbv zeta. rewrite Hwin. split.
  - intros m Hf. apply find_filter in Hf. destruct Hf as [t ->].
    cbn [map app]. apply py_take_head. exact Hk.
  - intros m Hn Hf. rewrite (find_none_filter _ _ Hn). cbn [map app].
    assert (Hblock : tier_moves s player Block (candidate_moves s)
                     = filter (wins_now s (other_color player)) (candidate_moves s)).
    { unfold tier_moves. apply filter_ext_in. intros a Ha. unfold tier.
      destruct (wins_now s player a) eqn:Ew.
      - exfalso. apply (find_none _ _ Hn) in Ha. congruence.
      - destruct (wins_now s (other_color player) a); [reflexivity|].
        destruct (is_open_threat s (fst a) (snd a) (other_color player) 3); reflexivity. }
    rewrite Hblock. apply find_filter in Hf. destruct Hf as [t ->].
    cbn [map app]. apply py_take_head. exact Hk.
Qed.

Lemma compute_suggestions_head_witness :
  exists l t,
    compute_suggestions 222 four_in_row "white" 6 "Hard" = Some (l, four_in_row)
    /\ l = (7, 2, 100000000, "block") :: t.
Proof.
  destruct (compute_suggestions_head 222 four_in_row "white" "Hard" 6)
    as [l [E [_ H]]].
  - reflexivity.
  - apply Nat.ltb_lt. vm_compute. reflexivity.
  - lia.
  - destruct (H (7, 2)) as [t Ht].
    + vm_compute. reflexivity.
    + vm_compute. reflexivity.
    + exists l, t. split; [exact E|exact Ht].
Defined.

(** ** The [check_winner] methods *)

Lemma is_win_at_five (s : State) (row col : Z) (color : string) :
  is_win_at s row col color = true <-> five_through s row col color.
Proof.
  unfold is_win_at, five_through. rewrite existsb_exists. split.
  - intros [d [Hin H]]. exists d. split; [exact Hin|].
    apply (axis_five s row col color d Hin).
    destruct (axis_scan s row col color d) as [[cnt f] b]. cbn [fst].
    now apply Z.leb_le.
  - intros [d [Hin H]]. exists d. split; [exact Hin|].
    apply (axis_five s row col color d Hin) in H.
    destruct (axis_scan s row col color d) as [[cnt f] b]. cbn [fst] in H.
    now apply Z.leb_le.
Qed.

Lemma count_while_ext (test1 test2 : Z -> Z -> bool) (dx dy : Z) :
  (forall r c, in_bounds r c = true -> test1 r c = test2 r c) ->
  forall fuel count r c,
    count_while fuel test1 dx dy count r c = count_while fuel test2 dx dy count r c.
Proof.
  intros H. induction fuel as [|k IH]; intros count r c; [reflexivity|].
  cbn [count_while]. destruct (in_bounds r c) eqn:Hb; cbn [andb]; [|reflexivity].
  rewrite (H r c Hb). destruct (test2 r c); [apply IH|reflexivity].
Qed.

Lemma count_while_walk (s : State) (color : string) (dx dy : Z) :
  forall fuel count r c,
    count_while fuel (fun r c => cell_is (cell s r c) color) dx dy count r c
    = walk fuel s color dx dy count r c.
Proof.
  induction fuel as [|k IH]; intros count r c; [reflexivity|].
  cbn [count_while walk].
  destruct (in_bounds r c && cell_is (cell s r c) color); [apply IH|reflexivity].
Qed.

Lemma line_of_five_ext (test1 test2 : Z -> Z -> bool) (row col : Z) :
  (forall r c, in_bounds r c = true -> test1 r c = test2 r c) ->
  line_of_five test1 row col = line_of_five test2 row col.
Proof.
  intros H. unfold line_of_five. apply existsb_ext_in. intros [dx dy] _.
  rewrite (count_while_ext test1 test2 dx dy H).
  destruct (count_while walk_fuel test2 dx dy 1 (row + dx) (col + dy)) as [[n rf] cf].
  now rewrite (count_while_ext test1 test2 (- dx) (- dy) H).
Qed.

Lemma line_of_five_is_win_at (s : State) (row col : Z) (color : string) :
  line_of_five (fun r c => cell_is (cell s r c) color) row col
  = is_win_at s row col color.
Proof.
  unfold line_of_five, is_win_at, axis_scan. apply existsb_ext_in. intros [dx dy] _.
  rewrite count_while_walk.
  destruct (walk walk_fuel s color dx dy 1 (row + dx) (col + dy)) as [[n rf] cf].
  rewrite count_while_walk.
  destruct (walk walk_fuel s color (- dx) (- dy) n (row - dx) (col - dy)) as [[n' rb] cb].
  reflexivity.
Qed.

Lemma nth_zrange (lo hi : Z) (k : nat) (d : Z) :
  (k < Z.to_nat (hi - lo))%nat -> nth k (zrange lo hi) d = lo + Z.of_nat k.
Proof.
  intros Hk. unfold zrange.
  rewrite (nth_indep _ d (lo + Z.of_nat 0))
    by (rewrite length_map, length_seq; exact Hk).
  rewrite (map_nth (fun k => lo + Z.of_nat k) _ 0%nat k).
  rewrite seq_nth by exact Hk. reflexivity.
Qed.

Lemma cell_painted (test : Z -> Z -> bool) (r c : Z) :
  in_bounds r c = true ->
  cell (painted test) r c = if test r c then Some "x" else None.
Proof.
  intros Hb. apply in_bounds_spec in Hb. unfold cell, painted.
  set (f := fun r => map (fun c => if test r c then Some "x" else None) (zrange 0 15)).
  rewrite (nth_indep _ [] (f 0)) by (rewrite length_map, zrange_length; lia).
  rewrite (map_nth f _ 0 (Z.to_nat r)). rewrite nth_zrange by lia. unfold f.
  set (g := fun c => if test (0 + Z.of_nat (Z.to_nat r)) c then Some "x" else None).
  rewrite (nth_indep _ None (g 0)) by (rewrite length_map, zrange_length; lia).
  rewrite (map_nth g _ 0 (Z.to_nat c)). rewrite nth_zrange by lia. unfold g.
  replace (0 + Z.of_nat (Z.to_nat r)) with r by lia.
  replace (0 + Z.of_nat (Z.to_nat c)) with c by lia. reflexivity.
Qed.

(** The loops answer [True] exactly at five cells in a row. *)
Lemma line_of_five_spec (test : Z -> Z -> bool) (row col : Z) :
  line_of_five test row col = true <-> five_line test row col.
Proof.
  assert (Hp : forall r c, in_bounds r c = true ->
                 test r c = cell_is (cell (painted test) r c) "x").
  { intros r c Hb. rewrite cell_painted by assumption.
    destruct (test r c); reflexivity. }
  rewrite (line_of_five_ext _ _ row col Hp), line_of_five_is_win_at, is_win_at_five.
  unfold five_through, five_line, holds_at, walk_test.
  split; intros [d [Hd [k [Hk H]]]]; exists d; (split; [exact Hd|]); exists k;
    (split; [exact Hk|]); intros j Hj Hne; specialize (H j Hj Hne).
  - apply andb_true_iff in H. destruct H as [Hb H]. split; [exact Hb|].
    now rewrite Hp.
  - destruct H as [Hb H]. apply andb_true_iff. split; [exact Hb|].
    now rewrite <- Hp.
Qed.

Lemma check_winner_value (state : State) (row col : Z) :
  wf_board state = true -> in_bounds row col = true ->
  SinglePlayer.check_winner state row col
  = Some (line_of_five (fun r c => cell_eqb (cell state r c) (cell state row col))
                       row col)
  /\ (forall color, cell state row col = Some color ->
        line_of_five (fun r c => cell_eqb (cell state r c) (cell state row col)) row col
        = is_win_at state row col color)
  /\ (cell state row col = None ->
      line_of_five (fun r c => cell_eqb (cell state r c) (cell state row col)) row col
      = line_of_five (fun r c => is_empty (cell state r c)) row col).
Proof.
  intros Hwf Hb. unfold SinglePlayer.check_winner.
  rewrite getitem_in_bounds by assumption. split; [reflexivity|]. split.
  - intros color Ec. rewrite Ec. rewrite <- line_of_five_is_win_at.
    apply line_of_five_ext. intros r c _.
    destruct (cell state r c); reflexivity.
  - intros Ec. rewrite Ec. apply line_of_five_ext.
    intros r c _. destruct (cell state r c); reflexivity.
Qed.

(** X21.  [check_winner] of the single-player window, on a 15x15 board and
    a cell of the board: it answers, and it answers [True] exactly when five
    cells in a row through [(row, col)] hold the same as [(row, col)] does.
    On a stone this is the answer of [is_win_at] for the stone's colour; on
    an empty cell it is [True] for five empty cells in a row. *)
Theorem check_winner_single_player (state : State) (row col : Z) :
  wf_board state = true -> in_bounds row col = true ->
  exists b,
    SinglePlayer.check_winner state row col = Some b
    /\ (b = true <->
        five_line (fun r c => cell_eqb (cell state r c) (cell state row col)) row col)
    /\ (forall color, cell state row col = Some color ->
          b = is_win_at state row col color)
    /\ (cell state row col = None ->
        (b = true <-> five_line (fun r c => is_empty (cell state r c)) row col)).
Proof.
  intros Hwf Hb.
  destruct (check_winner_value state row col Hwf Hb) as [E [Hs He]].
  eexists. split; [exact E|]. split; [apply line_of_five_spec|]. split.
  - intros color Ec. now apply Hs.
  - intros Ec. rewrite <- line_of_five_spec. now rewrite (He Ec).
Qed.

Lemma check_winner_single_player_witness :
  SinglePlayer.check_winner four_in_row 7 3 = Some (is_win_at four_in_row 7 3 "black").
Proof.
  destruct (check_winner_single_player four_in_row 7 3 eq_refl eq_refl)
    as [b [E [_ [H _]]]].
  rewrite E. f_equal. apply H. reflexivity.
Defined.

(** X22.  [check_winner] of the two-player window never looks at a colour:
    it answers [True] exactly when five cells in a row through
    [(row, col)] have the other four on the board and holding a stone,
    whatever the colours.  So when [self.board] and [self.state] hold
    stones at the same cells, it answers [True] wherever [is_win_at] does
    for some colour. *)
Theorem check_winner_pvp (board : PvP.Board) (row col : Z) :
  (PvP.check_winner board row col = true <-> five_line (PvP.occupied board) row col)
  /\ forall state color,
       in_step board state ->
       is_win_at state row col color = true -> PvP.check_winner board row col = true.
Proof.
  split; [apply line_of_five_spec|].
  intros state color Hs Hw. apply line_of_five_spec.
  apply is_win_at_five in Hw. destruct Hw as [d [Hd [k [Hk H]]]].
  exists d. split; [exact Hd|]. exists k. split; [exact Hk|].
  intros j Hj Hne. specialize (H j Hj Hne). unfold holds_at, walk_test in H.
  apply andb_true_iff in H. destruct H as [Hb Hc]. split; [exact Hb|].
  unfold PvP.occupied.
  destruct (PvP.item_at board _ _) eqn:E; [reflexivity|].
  apply (Hs _ _ Hb) in E. rewrite E in Hc. discriminate.
Qed.

Lemma in_step_drawn (state : State) : in_step (drawn state) state.
Proof.
  intros r c _. unfold PvP.item_at, drawn, cell.
  set (g := fun v : Cell => match v with Some _ => Some 1 | None => None end).
  change (@nil (option Z)) with (map g []).
  rewrite map_nth. change (@None Z) with (g None). rewrite map_nth.
  destruct (nth (Z.to_nat c) (nth (Z.to_nat r) state []) None); cbn; split; congruence.
Qed.

Lemma check_winner_pvp_witness :
  PvP.check_winner (drawn five_in_row) 7 7 = true.
Proof.
  apply (proj2 (check_winner_pvp (drawn five_in_row) 7 7) five_in_row "black").
  - apply in_step_drawn.
  - vm_compute. reflexivity.
Defined.

(** Five stones of two colours in a row end the two-player game, though
    neither colour has five. *)
Example check_winner_pvp_mixed_row :
  PvP.check_winner (drawn mixed_row) 7 7 = true
  /\ is_win_at mixed_row 7 7 "black" = false
  /\ is_win_at mixed_row 7 7 "white" = false
  /\ SinglePlayer.check_winner mixed_row 7 7 = Some false.
Proof. repeat split; vm_compute; reflexivity. Qed.

(** ** The game windows *)

Lemma wf_items_spec (b : PvP.Board) :
  wf_items b = true <->
  (length b = 15%nat /\ forall row, In row b -> length row = 15%nat).
Proof.
  unfold wf_items, BOARD_SIZE. rewrite andb_true_iff, Nat.eqb_eq, forallb_forall.
  change (Z.to_nat 15) with 15%nat.
  split; intros [H1 H2]; split; auto; intros row Hrow.
  - apply Nat.eqb_eq. auto.
  - apply Nat.eqb_eq. auto.
Qed.

Lemma wf_set_item (b : PvP.Board) (r c : Z) (v : option Z) :
  wf_items b = true -> wf_items (set_item b r c v) = true.
Proof.
  intros Hwf. unfold set_item. destruct (in_bounds r c) eqn:Hb; auto.
  apply wf_items_spec in Hwf. destruct Hwf as [Hlen Hrows].
  apply in_bounds_spec in Hb.
  apply wf_items_spec. split.
  - now rewrite list_set_length.
  - intros row Hrow. apply in_list_set in Hrow. destruct Hrow as [->|Hrow]; auto.
    rewrite list_set_length. apply Hrows. apply nth_In. lia.
Qed.

Lemma item_set_same (b : PvP.Board) (r c : Z) (v : option Z) :
  wf_items b = true -> in_bounds r c = true -> PvP.item_at (set_item b r c v) r c = v.
Proof.
  intros Hwf Hb. unfold set_item, PvP.item_at. rewrite Hb.
  apply wf_items_spec in Hwf. destruct Hwf as [Hlen Hrows].
  apply in_bounds_spec in Hb.
  rewrite nth_list_set_same by lia.
  apply nth_list_set_same. rewrite (Hrows (nth (Z.to_nat r) b [])); [lia|].
  apply nth_In. lia.
Qed.

Lemma item_set_other (b : PvP.Board) (r c r' c' : Z) (v : option Z) :
  in_bounds r' c' = true -> (r', c') <> (r, c) ->
  PvP.item_at (set_item b r c v) r' c' = PvP.item_at b r' c'.
Proof.
  intros Hb' Hne. unfold set_item. destruct (in_bounds r c) eqn:Hb; auto.
  unfold PvP.item_at. apply in_bounds_spec in Hb, Hb'.
  destruct (Z.eq_dec r r') as [->|Hr].
  - destruct (Nat.lt_ge_cases (Z.to_nat r') (length b)) as [Hlt|Hge].
    + rewrite nth_list_set_same by lia.
      apply nth_list_set_other. intros E. apply Hne. f_equal. lia.
    + rewrite (nth_overflow (list_set _ _ _)) by (rewrite list_set_length; lia).
      now rewrite (nth_overflow b) by lia.
  - rewrite nth_list_set_other by lia. reflexivity.
Qed.

Lemma set_item_twice (b : PvP.Board) (r c : Z) (v w : option Z) :
  wf_items b = true ->
  set_item (set_item b r c v) r c w = set_item b r c w.
Proof.
  intros Hwf. unfold set_item. destruct (in_bounds r c) eqn:Hb; auto.
  apply wf_items_spec in Hwf. destruct Hwf as [Hlen _].
  apply in_bounds_spec in Hb.
  rewrite nth_list_set_same by lia.
  now rewrite !list_set_twice.
Qed.

Lemma set_item_same (b : PvP.Board) (r c : Z) :
  set_item b r c (PvP.item_at b r c) = b.
Proof.
  unfold set_item, PvP.item_at. destruct (in_bounds r c); auto.
  now rewrite !list_set_same.
Qed.

Lemma cells_down_rev : cells_down = rev all_cells.
Proof. vm_compute. reflexivity. Qed.

Lemma row_major_total (a b : Move) : a = b \/ row_major a b \/ row_major b a.
Proof.
  destruct a as [r c], b as [r' c']. unfold row_major. cbn [fst snd].
  destruct (Z.lt_trichotomy r r') as [H|[H|H]]; [tauto| |tauto].
  destruct (Z.lt_trichotomy c c') as [H'|[H'|H']].
  - right. left. right. split; assumption.
  - left. congruence.
  - right. right. right. split; [symmetry|]; assumption.
Qed.

Lemma find_append {A : Type} (p : A -> bool) (l1 l2 : list A) :
  find p (l1 ++ l2) = match find p l1 with Some x => Some x | None => find p l2 end.
Proof.
  induction l1 as [|x t IH]; [reflexivity|]. cbn [app find].
  destruct (p x); [reflexivity|exact IH].
Qed.

(** A search from the end of a list in row-major order stops at the last
    cell that passes the test. *)
Lemma find_rev_sorted (p : Move -> bool) (l : list Move) :
  StronglySorted row_major l ->
  match find p (rev l) with
  | Some m => In m l /\ p m = true /\ forall m', In m' l -> row_major m m' -> p m' = false
  | None => forall m', In m' l -> p m' = false
  end.
Proof.
  induction l as [|x t IH]; intros Hs; [intros m' []|].
  inversion Hs as [|? ? Ht Hx]; subst. specialize (IH Ht).
  rewrite Forall_forall in Hx. cbn [rev].
  destruct (find p (rev t)) as [m|] eqn:E.
  - rewrite find_append, E. destruct IH as [Hin [Hp Hlast]].
    split; [now right|]. split; [exact Hp|].
    intros m' [<-|Hm'] Hr; [|now apply Hlast].
    exfalso. specialize (Hx m Hin). unfold row_major in *. lia.
  - rewrite find_append, E. cbn [find].
    destruct (p x) eqn:Ex.
    + split; [now left|]. split; [exact Ex|].
      intros m' [<-|Hm'] Hr; [exfalso; unfold row_major in Hr; lia|now apply IH].
    + intros m' [<-|Hm']; [exact Ex|now apply IH].
Qed.

Lemma find_rev_some (p : Move -> bool) (l : list Move) (m : Move) :
  StronglySorted row_major l -> find p (rev l) = Some m ->
  In m l /\ p m = true /\ forall m', In m' l -> row_major m m' -> p m' = false.
Proof. intros Hs E. pose proof (find_rev_sorted p l Hs) as H. now rewrite E in H. Qed.

Lemma find_rev_none (p : Move -> bool) (l : list Move) :
  StronglySorted row_major l -> find p (rev l) = None ->
  forall m', In m' l -> p m' = false.
Proof. intros Hs E. pose proof (find_rev_sorted p l Hs) as H. now rewrite E in H. Qed.

Section UndoMove.

Context {Canvas : Type} {tk : Tk Canvas}.
Variable w : Window Canvas.

Lemma undo_move_none :
  (forall r c, in_bounds r c = true -> PvP.occupied (board w) r c = false) ->
  undo_move w = w.
Proof.
  intros Hnone. unfold undo_move.
  destruct (find (fun m => PvP.occupied (board w) (fst m) (snd m)) cells_down)
    as [[r c]|] eqn:E; [|reflexivity].
  apply find_some in E. destruct E as [Hin Hocc]. cbn [fst snd] in Hocc.
  rewrite cells_down_rev in Hin. apply in_rev, in_all_cells in Hin.
  rewrite Hnone in Hocc by exact Hin. discriminate.
Qed.

Lemma undo_move_last (r c : Z) :
  in_bounds r c = true -> PvP.occupied (board w) r c = true ->
  (forall r' c', in_bounds r' c' = true -> row_major (r, c) (r', c') ->
                 PvP.occupied (board w) r' c' = false) ->
  exists item,
    PvP.item_at (board w) r c = Some item
    /\ undo_move w
       = {| board_canvas := delete (board_canvas w) item;
            board := set_item (board w) r c None;
            state := set_cell (state w) r c None;
            current_player := other_color (current_player w);
            timer_seconds := timer_seconds w;
            move_log := move_log w |}.
Proof.
  intros Hb Hocc Hlast. unfold undo_move.
  rewrite cells_down_rev.
  destruct (find (fun m => PvP.occupied (board w) (fst m) (snd m)) (rev all_cells))
    as [[r0 c0]|] eqn:E.
  - apply (find_rev_some _ _ _ all_cells_sorted) in E.
    destruct E as [Hin [Hp Hafter]]. cbn [fst snd] in Hp.
    assert (E : (r0, c0) = (r, c)).
    { destruct (row_major_total (r0, c0) (r, c)) as [E|[Hr|Hr]]; [exact E| |].
      - specialize (Hafter (r, c) (proj2 (in_all_cells (r, c)) Hb) Hr).
        cbn [fst snd] in Hafter. congruence.
      - apply in_all_cells in Hin. cbn [fst snd] in Hin.
        specialize (Hlast r0 c0 Hin Hr). congruence. }
    inversion E; subst r0 c0. unfold PvP.occupied in Hocc.
    destruct (PvP.item_at (board w) r c) as [item|]; [|discriminate].
    exists item. split; reflexivity.
  - pose proof (find_rev_none _ _ all_cells_sorted E (r, c)
                  (proj2 (in_all_cells (r, c)) Hb)) as H.
    cbn [fst snd] in H. congruence.
Qed.

End UndoMove.

Lemma row_major_asym (a b : Move) : row_major a b -> row_major b a -> False.
Proof. unfold row_major. lia. Qed.

Section Windows.

Context {Canvas : Type} {tk : Tk Canvas}.
Variable w : Window Canvas.
Hypothesis Hwf : wf_board (state w) = true.
Hypothesis Hwfi : wf_items (board w) = true.

Lemma place_stone_fields (row col : Z) (color : string) :
  exists stone canvas,
    board (place_stone w row col color) = set_item (board w) row col (Some stone)
    /\ state (place_stone w row col color) = set_cell (state w) row col (Some color)
    /\ board_canvas (place_stone w row col color) = canvas
    /\ current_player (place_stone w row col color) = current_player w
    /\ move_log (place_stone w row col color)
       = move_log w ++ [{| entry_move_no := zlen (move_log w) + 1;
                           entry_player := color;
                           entry_row := row;
                           entry_col := col;
                           entry_elapsed_seconds := timer_seconds w |}].
Proof.
  unfold place_stone. cbv zeta.
  destruct (create_oval _ _ _ _ _) as [stone canvas].
  exists stone, canvas. cbn. repeat split; reflexivity.
Qed.

Lemma in_step_set (r c : Z) (item : option Z) (v : Cell) :
  (item = None <-> v = None) ->
  in_step (board w) (state w) ->
  in_step (set_item (board w) r c item) (set_cell (state w) r c v).
Proof.
  intros Hv Hs r' c' Hb'.
  destruct (in_bounds r c) eqn:Hb.
  - destruct (Z.eq_dec r' r) as [->|Hr]; [destruct (Z.eq_dec c' c) as [->|Hc]|].
    + rewrite item_set_same, cell_set_same by assumption. exact Hv.
    + rewrite item_set_other, cell_set_other by (try assumption; congruence).
      now apply Hs.
    + rewrite item_set_other, cell_set_other by (try assumption; congruence).
      now apply Hs.
  - unfold set_item, set_cell. rewrite Hb. now apply Hs.
Qed.

(** [undo_move] either finds no item and does nothing, or clears the
    last cell in row-major order that holds one. *)
Lemma undo_move_cases :
  (undo_move w = w
   /\ forall r c, in_bounds r c = true -> PvP.occupied (board w) r c = false)
  \/ exists r c item,
       in_bounds r c = true
       /\ PvP.item_at (board w) r c = Some item
       /\ (forall r' c', in_bounds r' c' = true -> row_major (r, c) (r', c') ->
                         PvP.occupied (board w) r' c' = false)
       /\ undo_move w
          = {| board_canvas := delete (board_canvas w) item;
               board := set_item (board w) r c None;
               state := set_cell (state w) r c None;
               current_player := other_color (current_player w);
               timer_seconds := timer_seconds w;
               move_log := move_log w |}.
Proof.
  destruct (find (fun m => PvP.occupied (board w) (fst m) (snd m)) (rev all_cells))
    as [[r c]|] eqn:E.
  - right. apply (find_rev_some _ _ _ all_cells_sorted) in E.
    destruct E as [Hin [Hp Hafter]]. cbn [fst snd] in Hp.
    apply in_all_cells in Hin. cbn [fst snd] in Hin.
    assert (Hlast : forall r' c', in_bounds r' c' = true -> row_major (r, c) (r', c') ->
                      PvP.occupied (board w) r' c' = false).
    { intros r' c' Hb' Hr.
      exact (Hafter (r', c') (proj2 (in_all_cells (r', c')) Hb') Hr). }
    destruct (undo_move_last w r c Hin Hp Hlast) as [item [Ei Eu]].
    exists r, c, item. repeat split; assumption.
  - left. assert (Hnone : forall r c, in_bounds r c = true ->
                            PvP.occupied (board w) r c = false).
    { intros r c Hb.
      exact (find_rev_none _ _ all_cells_sorted E (r, c)
               (proj2 (in_all_cells (r, c)) Hb)). }
    split; [now apply undo_move_none|exact Hnone].
Qed.

End Windows.

(** X23.  A stone placed with [place_stone] at a cell of the board ends the
    single-player game exactly when the engine's test [try_move_is_win]
    holds for that cell and colour on the position before the move.  In the
    two-player window, where [self.board] and [self.state] hold stones at
    the same cells before and after the move, the stone ends the game
    whenever that test holds. *)
Theorem place_stone_check_winner {Canvas : Type} {tk : Tk Canvas} (w : Window Canvas)
    (row col : Z) (color : string) :
  wf_board (state w) = true -> wf_items (board w) = true ->
  in_bounds row col = true ->
  let w1 := place_stone w row col color in
  SinglePlayer.check_winner (state w1) row col
  = Some (wins_now (state w) color (row, col))
  /\ (in_step (board w) (state w) ->
      in_step (board w1) (state w1)
      /\ (wins_now (state w) color (row, col) = true ->
          PvP.check_winner (board w1) row col = true)).
Proof.
  intros Hwf Hwfi Hb w1. subst w1.
  destruct (place_stone_fields w row col color) as [stone [canvas [Eb [Es _]]]].
  rewrite Eb, Es. split.
  - destruct (check_winner_value (set_cell (state w) row col (Some color)) row col)
      as [E [Hs _]]; [now apply wf_set_cell|exact Hb|].
    rewrite E. f_equal. apply Hs. now apply cell_set_same.
  - intros Hstep.
    assert (Hstep1 : in_step (set_item (board w) row col (Some stone))
                             (set_cell (state w) row col (Some color))).
    { apply in_step_set; try assumption. split; discriminate. }
    split; [exact Hstep1|].
    intros Hw. apply line_of_five_spec.
    unfold wins_now, place in Hw. cbn [fst snd] in Hw.
    apply is_win_at_five in Hw. destruct Hw as [d [Hd [k [Hk H]]]].
    exists d. split; [exact Hd|]. exists k. split; [exact Hk|].
    intros j Hj Hne. specialize (H j Hj Hne). unfold holds_at, walk_test in H.
    apply andb_true_iff in H. destruct H as [Hbj Hc]. split; [exact Hbj|].
    unfold PvP.occupied.
    destruct (PvP.item_at _ _ _) eqn:E; [reflexivity|].
    apply (Hstep1 _ _ Hbj) in E. rewrite E in Hc. discriminate.
Qed.

Lemma wf_items_drawn (s : State) : wf_board s = true -> wf_items (drawn s) = true.
Proof.
  intros Hwf. apply wf_board_spec in Hwf. destruct Hwf as [Hlen Hrows].
  apply wf_items_spec. unfold drawn. split; [now rewrite length_map|].
  intros row Hrow. apply in_map_iff in Hrow. destruct Hrow as [x [<- Hx]].
  rewrite length_map. now apply Hrows.
Qed.

Lemma place_stone_check_winner_witness :
  SinglePlayer.check_winner
    (state (place_stone (window_of four_in_row "black") 7 7 "black")) 7 7
  = Some (wins_now four_in_row "black" (7, 7)).
Proof.
  exact (proj1 (place_stone_check_winner (window_of four_in_row "black") 7 7 "black"
                  eq_refl eq_refl eq_refl)).
Defined.

(** X24.  [undo_move] does not take back the last move played: it clears
    the last cell in row-major order that holds a stone, in [self.board] and
    in [self.state], and flips the player to move; [self.move_log] is left
    as it is.  With no stone on the board it changes nothing, the player to
    move included.  [self.board] and [self.state] keep holding stones at
    the same cells. *)
Theorem undo_move_last_cell {Canvas : Type} {tk : Tk Canvas} (w : Window Canvas) :
  wf_board (state w) = true -> wf_items (board w) = true ->
  ((forall r c, in_bounds r c = true -> PvP.occupied (board w) r c = false) ->
   undo_move w = w)
  /\ (forall r c,
        in_bounds r c = true -> PvP.occupied (board w) r c = true ->
        (forall r' c', in_bounds r' c' = true -> row_major (r, c) (r', c') ->
                       PvP.occupied (board w) r' c' = false) ->
        board (undo_move w) = set_item (board w) r c None
        /\ state (undo_move w) = set_cell (state w) r c None
        /\ current_player (undo_move w) = other_color (current_player w)
        /\ move_log (undo_move w) = move_log w)
  /\ (in_step (board w) (state w) ->
      in_step (board (undo_move w)) (state (undo_move w))).
Proof.
  intros Hwf Hwfi. split; [apply undo_move_none|]. split.
  - intros r c Hb Hocc Hlast.
    destruct (undo_move_last w r c Hb Hocc Hlast) as [item [_ ->]].
    cbn. repeat split; reflexivity.
  - intros Hstep. destruct (undo_move_cases w) as [[-> _]|[r [c [item [_ [_ [_ ->]]]]]]];
      [exact Hstep|].
    cbn [board state]. apply in_step_set; try assumption. tauto.
Qed.

Lemma undo_move_last_cell_witness :
  state (undo_move (window_of four_in_row "white")) = set_cell four_in_row 7 6 None
  /\ current_player (undo_move (window_of four_in_row "white")) = "black".
Proof.
  destruct (undo_move_last_cell (window_of four_in_row "white") eq_refl eq_refl)
    as [_ [H _]].
  destruct (H 7 6) as [_ [Hs [Hc _]]].
  - reflexivity.
  - vm_compute. reflexivity.
  - intros r' c' Hb Hr.
    assert (Hall : forallb (fun m => negb (row_majorb (7, 6) m)
                                     || negb (PvP.occupied (drawn four_in_row)
                                                (fst m) (snd m)))
                           all_cells = true) by (vm_compute; reflexivity).
    rewrite forallb_forall in Hall.
    specialize (Hall (r', c') (proj2 (in_all_cells (r', c')) Hb)).
    apply (proj2 (row_majorb_spec (7, 6) (r', c'))) in Hr.
    rewrite Hr in Hall. cbn [negb orb fst snd] in Hall.
    apply negb_true_iff in Hall. exact Hall.
  - split; [exact Hs|exact Hc].
Defined.

(** X25.  [undo_move] right after [place_stone] on an empty cell: when
    every stone already on the board lies before the new one in row-major
    order, the position is restored (while [self.move_log] keeps the entry
    of the move); when some stone lies after it, the new stone stays on the
    board and an older stone is removed instead. *)
Theorem undo_after_place {Canvas : Type} {tk : Tk Canvas} (w : Window Canvas)
    (row col : Z) (color : string) :
  wf_board (state w) = true -> wf_items (board w) = true ->
  in_step (board w) (state w) ->
  in_bounds row col = true -> cell (state w) row col = None ->
  let w2 := undo_move (place_stone w row col color) in
  ((forall r c, in_bounds r c = true -> PvP.occupied (board w) r c = true ->
                row_major (r, c) (row, col)) ->
   state w2 = state w /\ board w2 = board w
   /\ current_player w2 = other_color (current_player w)
   /\ zlen (move_log w2) = zlen (move_log w) + 1)
  /\ (forall r c, in_bounds r c = true -> PvP.occupied (board w) r c = true ->
        row_major (row, col) (r, c) ->
        cell (state w2) row col = Some color
        /\ exists r' c', in_bounds r' c' = true /\ cell (state w) r' c' <> None
                         /\ cell (state w2) r' c' = None).
Proof.
  intros Hwf Hwfi Hstep Hb He w2. subst w2.
  destruct (place_stone_fields w row col color)
    as [stone [canvas [Eb [Es [_ [Ep El]]]]]].
  set (w1 := place_stone w row col color) in *.
  assert (Hwf1 : wf_board (state w1) = true) by (rewrite Es; now apply wf_set_cell).
  assert (Hwfi1 : wf_items (board w1) = true) by (rewrite Eb; now apply wf_set_item).
  assert (Hi : PvP.item_at (board w) row col = None) by now apply (Hstep row col Hb).
  assert (Hocc1 : PvP.occupied (board w1) row col = true).
  { unfold PvP.occupied. rewrite Eb, item_set_same by assumption. reflexivity. }
  assert (Hother : forall r c, in_bounds r c = true -> (r, c) <> (row, col) ->
                     PvP.occupied (board w1) r c = PvP.occupied (board w) r c).
  { intros r c Hbr Hne. unfold PvP.occupied. rewrite Eb.
    now rewrite item_set_other by assumption. }
  split.
  - intros Hbefore.
    destruct (undo_move_last w1 row col Hb Hocc1) as [item [_ Eu]].
    { intros r' c' Hb' Hr.
      assert (Hne : (r', c') <> (row, col)).
      { intros E. rewrite E in Hr. exact (row_major_irrefl _ Hr). }
      rewrite Hother by assumption.
      destruct (PvP.occupied (board w) r' c') eqn:Eo; [|reflexivity].
      exfalso. exact (row_major_asym _ _ Hr (Hbefore r' c' Hb' Eo)). }
    rewrite Eu. cbn [state board current_player move_log].
    rewrite Es, Eb, Ep, El. split; [now apply place_undo|]. split.
    + rewrite set_item_twice by assumption. rewrite <- Hi at 1. apply set_item_same.
    + split; [reflexivity|]. unfold zlen. rewrite length_app. cbn [length]. lia.
  - intros r c Hbr Hocc Hafter.
    assert (Hne : (r, c) <> (row, col)).
    { intros E. rewrite E in Hafter. exact (row_major_irrefl _ Hafter). }
    destruct (undo_move_cases w1) as [[_ Hnone]|[r0 [c0 [item [Hb0 [Ei [Hlast Eu]]]]]]].
    { rewrite Hnone in Hocc1 by assumption. discriminate. }
    assert (Hne0 : (r0, c0) <> (row, col)).
    { intros E. inversion E; subst r0 c0.
      specialize (Hlast r c Hbr Hafter). rewrite Hother in Hlast by assumption.
      congruence. }
    rewrite Eu. cbn [state]. rewrite Es. split.
    + rewrite cell_set_other by (try assumption; congruence).
      now apply cell_set_same.
    + exists r0, c0. split; [exact Hb0|]. split.
      * assert (Ho : PvP.occupied (board w) r0 c0 = true).
        { rewrite <- Hother by assumption. unfold PvP.occupied. now rewrite Ei. }
        intros Ec. apply (Hstep r0 c0 Hb0) in Ec. unfold PvP.occupied in Ho.
        rewrite Ec in Ho. discriminate.
      * apply cell_set_same; [now apply wf_set_cell|exact Hb0].
Qed.

Lemma undo_after_place_witness :
  cell (state (undo_move (place_stone (window_of four_in_row "white") 7 2 "white")))
       7 2 = Some "white".
Proof.
  destruct (undo_after_place (window_of four_in_row "white") 7 2 "white")
    as [_ H].
  - reflexivity.
  - reflexivity.
  - apply in_step_drawn.
  - reflexivity.
  - reflexivity.
  - destruct (H 7 3) as [Hc _].
    + reflexivity.
    + vm_compute. reflexivity.
    + unfold row_major. cbn [fst snd]. lia.
    + exact Hc.
Defined.

(** ** The worker of [computer_move] *)

(** With no cap or a cap of at least 1, [ai_search] returns a candidate
    move, or [None] when there is no candidate. *)
Lemma ai_search_move (fuel : nat) (s : State) (ai_color opp_color : string)
    (depth : Z) (use_ab : bool) (cap : option Z) :
  wf_board s = true -> (count_empty s < fuel)%nat -> cap_positive cap ->
  exists bm,
    ai_search fuel s ai_color opp_color depth use_ab cap = Some (bm, s)
    /\ (bm = None <-> candidate_moves s = [])
    /\ (forall m, bm = Some m -> In m (candidate_moves s)).
Proof.
  intros Hwf Hfuel Hcap.
  destruct (ai_search_scored_restores fuel s ai_color opp_color depth use_ab cap Hwf Hfuel)
    as [bm [bs [E Hroot]]].
  exists bm. split; [unfold ai_search; now rewrite E|].
  assert (Hempty : forall m, In m (node_moves s ai_color opp_color cap) -> empty_cell s m).
  { intros m Hm. apply candidate_moves_empty_cells.
    eapply node_moves_candidates; eassumption. }
  assert (Hin : forall m, bm = Some m -> In m (candidate_moves s)).
  { intros m Em.
    destruct (root_loop_restores
                (fun st a b => minimax fuel st (depth - 1) false ai_color opp_color
                                       a b use_ab cap)
                use_ab ai_color s Hwf (node_moves s ai_color opp_color cap) Hempty)
      with (best_move := @None Move) (best_score := - INF) (alpha := - INF) (beta := INF)
      as [bm' [bs' [E' Hbm]]].
    { intros [r c] Hm a b. cbn [fst snd]. apply minimax_restores.
      - now apply wf_set_cell.
      - pose proof (count_empty_place s r c ai_color Hwf (Hempty _ Hm)). lia. }
    rewrite Hroot in E'. inversion E'; subst bm' bs'.
    destruct Hbm as [Hn|[m' [Em' Hm']]]; [congruence|].
    rewrite Em in Em'. inversion Em'; subst m'.
    eapply node_moves_candidates; eassumption. }
  split; [|exact Hin].
  destruct (candidate_moves s) as [|m0 l0] eqn:Ecm.
  - split; [reflexivity|]. intros _. destruct bm as [m|]; [|reflexivity].
    destruct (Hin m eq_refl).
  - assert (Hne : node_moves s ai_color opp_color cap <> []).
    { apply node_moves_nonempty; try assumption. rewrite Ecm. discriminate. }
    destruct (root_loop_some
                (fun st a b => minimax fuel st (depth - 1) false ai_color opp_color
                                       a b use_ab cap)
                use_ab ai_color s Hwf (node_moves s ai_color opp_color cap) Hempty)
      with (best_move := @None Move) (best_score := - INF) (alpha := - INF) (beta := INF)
      as [m [bs' Hsome]].
    + intros [r c] Hm a b. cbn [fst snd]. apply minimax_bounded; [| |assumption].
      * now apply wf_set_cell.
      * pose proof (count_empty_place s r c ai_color Hwf (Hempty _ Hm)). lia.
    + right. split; [exact Hne|]. unfold INF, SCORE_BOUND. lia.
    + rewrite Hsome in Hroot. inversion Hroot. split; discriminate.
Qed.

(** X26.  The move the worker of [computer_move] computes, for every
    difficulty: the board is left as it was; the move is [None] exactly when
    the board is full, and otherwise a candidate move, so an empty cell.
    The fallback [random.choice(empties)] never supplies the move: its draw
    does not change the result. *)
Theorem computer_move_worker (fuel draw draw' : nat) (s : State)
    (difficulty ai_color player_color : string) :
  wf_board s = true -> (count_empty s < fuel)%nat ->
  exists move,
    worker fuel draw draw' s difficulty ai_color player_color = Some (move, s)
    /\ (move = None <-> get_empty_cells s = [])
    /\ (forall m, move = Some m -> In m (candidate_moves s) /\ empty_cell s m)
    /\ (forall draw'', worker fuel draw draw'' s difficulty ai_color player_color
                       = Some (move, s)).
Proof.
  intros Hwf Hfuel.
  assert (Hgen : exists bm,
             (if String.eqb difficulty "Easy" then
                Some (ai_easy draw s ai_color player_color)
              else if String.eqb difficulty "Hard" then
                ai_search fuel s ai_color player_color 3 true (Some 12)
              else
                ai_search fuel s ai_color player_color 2 false (Some 10))
             = Some (bm, s)
             /\ (bm = None <-> candidate_moves s = [])
             /\ (forall m, bm = Some m -> In m (candidate_moves s))).
  { destruct (String.eqb difficulty "Easy").
    - rewrite ai_easy_value by assumption. eexists. split; [reflexivity|].
      assert (Hfind : forall color m,
                 find (wins_now s color) (candidate_moves s) = Some m ->
                 In m (candidate_moves s))
        by (intros color m H; apply find_some in H; tauto).
      destruct (find (wins_now s ai_color) (candidate_moves s)) as [m1|] eqn:E1.
      { split.
        - split; [discriminate|]. intros H. apply Hfind in E1. rewrite H in E1.
          destruct E1.
        - intros m Em. inversion Em; subst. eapply Hfind; eassumption. }
      destruct (find (wins_now s player_color) (candidate_moves s)) as [m2|] eqn:E2.
      { split.
        - split; [discriminate|]. intros H. apply Hfind in E2. rewrite H in E2.
          destruct E2.
        - intros m Em. inversion Em; subst. eapply Hfind; eassumption. }
      destruct (candidate_moves s) as [|m0 l] eqn:Ec; cbn [is_nil].
      + split; [tauto|discriminate].
      + split; [split; discriminate|].
        intros m Em. inversion Em. apply random_choice_in. discriminate.
    - destruct (String.eqb difficulty "Hard");
        apply ai_search_move; try assumption; intros k E; inversion E; lia. }
  destruct Hgen as [bm [E [Hnone Hin]]].
  exists bm. unfold worker. rewrite E.
  destruct bm as [m|].
  - split; [reflexivity|]. split.
    + rewrite <- candidate_moves_nil. exact Hnone.
    + split; [|reflexivity]. intros m' Em. split; [now apply Hin|].
      apply candidate_moves_empty_cells. now apply Hin.
  - assert (Hfull : get_empty_cells s = [])
      by (apply candidate_moves_nil; now apply Hnone).
    cbv zeta. rewrite Hfull. cbn [is_nil]. split; [reflexivity|].
    split; [tauto|]. split; [discriminate|reflexivity].
Qed.

Lemma computer_move_worker_witness :
  exists move,
    worker 225 0 0 one_stone "Medium" "white" "black" = Some (move, one_stone)
    /\ (move = None <-> get_empty_cells one_stone = []).
Proof.
  destruct (computer_move_worker 225 0 0 one_stone "Medium" "white" "black")
    as [move [E [H _]]].
  - reflexivity.
  - apply Nat.ltb_lt. vm_compute. reflexivity.
  - exists move. split; [exact E|exact H].
Defined.

(** ** [_infer_move_facts] *)

(** What the loop leaves in [played_in_suggestions] and
    [played_score_rank]: kind and index of the last entry at [(row, col)]. *)
Lemma facts_loop_played (row col : Z) (l : list Suggestion) :
  forall idx played rank better,
    let '(p, k, _) := facts_loop row col l idx played rank better in
    (forall x, In x l -> sug_move x <> (row, col)) /\ p = played /\ k = rank
    \/ exists x i, In x l /\ sug_move x = (row, col) /\ p = Some (sug_kind x)
                   /\ k = Some i /\ idx <= i < idx + zlen l
                   /\ nth_error l (Z.to_nat (i - idx)) = Some x.
Proof.
  induction l as [|[[[sr sc] score] kind] tl IH]; intros idx played rank better.
  - cbn. left. split; [intros x []|split; reflexivity].
  - cbn [facts_loop].
    destruct ((sr =? row) && (sc =? col)) eqn:E.
    + apply andb_true_iff in E. destruct E as [E1 E2].
      apply Z.eqb_eq in E1, E2. subst sr sc.
      specialize (IH (idx + 1) (Some kind) (Some idx)
                     (if String.eqb kind "win" || String.eqb kind "block"
                      then better ++ [(row, col, kind)] else better)).
      destruct (facts_loop row col tl (idx + 1) (Some kind) (Some idx) _)
        as [[p k] b].
      right. destruct IH as [[Hno [-> ->]]|[x [i [Hx [Hm [-> [-> [Hi Hn]]]]]]]].
      * exists (row, col, score, kind), idx.
        split; [now left|]. split; [reflexivity|]. split; [reflexivity|].
        split; [reflexivity|]. unfold zlen. cbn [length].
        split; [lia|]. replace (idx - idx) with 0 by lia. reflexivity.
      * exists x, i. split; [now right|]. split; [exact Hm|].
        split; [reflexivity|]. split; [reflexivity|].
        unfold zlen in *. cbn [length]. split; [lia|].
        replace (Z.to_nat (i - idx)) with (S (Z.to_nat (i - (idx + 1)))) by lia.
        exact Hn.
    + specialize (IH (idx + 1) played rank
                     (if String.eqb kind "win" || String.eqb kind "block"
                      then better ++ [(sr, sc, kind)] else better)).
      destruct (facts_loop row col tl (idx + 1) played rank _) as [[p k] b].
      destruct IH as [[Hno [-> ->]]|[x [i [Hx [Hm [-> [-> [Hi Hn]]]]]]]].
      * left. split; [|split; reflexivity].
        intros x [<-|Hx]; [|now apply Hno].
        cbn [sug_move]. intros Em. inversion Em; subst.
        rewrite !Z.eqb_refl in E. discriminate.
      * right. exists x, i. split; [now right|]. split; [exact Hm|].
        split; [reflexivity|]. split; [reflexivity|].
        unfold zlen in *. cbn [length]. split; [lia|].
        replace (Z.to_nat (i - idx)) with (S (Z.to_nat (i - (idx + 1)))) by lia.
        exact Hn.
Qed.

(** [facts["better_moves"]]: the win and block entries, in order. *)
Lemma facts_loop_better (row col : Z) (l : list Suggestion) :
  forall idx played rank better,
    snd (facts_loop row col l idx played rank better)
    = better ++ map (fun x => (fst (sug_move x), snd (sug_move x), sug_kind x))
                    (filter (fun x => String.eqb (sug_kind x) "win"
                                      || String.eqb (sug_kind x) "block") l).
Proof.
  induction l as [|[[[sr sc] score] kind] tl IH]; intros idx played rank better.
  - cbn. now rewrite app_nil_r.
  - cbn [facts_loop filter sug_kind].
    destruct ((sr =? row) && (sc =? col)); rewrite IH;
      destruct (String.eqb kind "win" || String.eqb kind "block");
      cbn [map sug_move sug_kind fst snd]; try reflexivity;
      now rewrite <- app_assoc.
Qed.

Lemma tier_moves_win (s : State) (mover : string) (l : list Move) :
  tier_moves s mover Win l = filter (wins_now s mover) l.
Proof.
  unfold tier_moves. apply filter_ext. intros m. unfold tier.
  destruct (wins_now s mover m); [reflexivity|].
  destruct (wins_now s (other_color mover) m); [reflexivity|].
  destruct (is_open_threat s (fst m) (snd m) (other_color mover) 3); reflexivity.
Qed.

Lemma tier_win_iff (s : State) (mover : string) (m : Move) :
  tier s mover m = Win <-> wins_now s mover m = true.
Proof.
  unfold tier. destruct (wins_now s mover m); [tauto|].
  destruct (wins_now s (other_color mover) m); [split; discriminate|].
  destruct (is_open_threat s (fst m) (snd m) (other_color mover) 3);
    split; discriminate.
Qed.

Lemma tier_block_iff (s : State) (mover : string) (m : Move) :
  tier s mover m = Block
  <-> wins_now s mover m = false /\ wins_now s (other_color mover) m = true.
Proof.
  unfold tier. destruct (wins_now s mover m); [split; [discriminate|intros [H _]; discriminate]|].
  destruct (wins_now s (other_color mover) m); [tauto|].
  destruct (is_open_threat s (fst m) (snd m) (other_color mover) 3);
    (split; [discriminate|intros [_ H]; discriminate]).
Qed.

Lemma in_firstn_app {A : Type} (n : nat) (l1 l2 : list A) (x : A) :
  In x (firstn n l1) -> In x (firstn n (l1 ++ l2)).
Proof. intros H. rewrite firstn_app. apply in_app_iff. now left. Qed.

Section Facts.

Variables (fuel : nat) (s : State) (mover difficulty : string).
Hypothesis Hwf : wf_board s = true.
Hypothesis Hfuel : (count_empty s < fuel)%nat.

Lemma suggested_value :
  compute_suggestions fuel s mover 6 difficulty
  = Some (suggested fuel s mover difficulty, s).
Proof. unfold compute_suggestions. now apply suggest_moves_value. Qed.

Lemma suggested_kind (x : Suggestion) :
  In x (suggested fuel s mover difficulty) ->
  In (sug_move x) (candidate_moves s)
  /\ (sug_kind x = "win" <-> tier s mover (sug_move x) = Win)
  /\ (sug_kind x = "block" <-> tier s mover (sug_move x) = Block)
  /\ (sug_kind x = "score" \/ sug_kind x = "search" ->
      tier s mover (sug_move x) = Rest).
Proof.
  intros Hx. apply in_py_take in Hx.
  destruct (ranked_entry fuel s mover difficulty (Some 12) Hwf x Hx) as [Hc He].
  split; [exact Hc|].
  assert (Hk : sug_kind (scored_entry fuel s mover difficulty (Some 12) (sug_move x))
               = "score"
               \/ sug_kind (scored_entry fuel s mover difficulty (Some 12) (sug_move x))
                  = "search").
  { rewrite scored_entry_kind. unfold scored_kind.
    destruct (String.eqb difficulty "Easy"); [now left|].
    destruct (String.eqb difficulty "Medium"); [now left|now right]. }
  destruct (tier s mover (sug_move x)) eqn:Et; rewrite He; cbn [sug_kind];
    destruct (sug_move x) as [r c];
    cbn [win_entry block_entry defensive_entry sug_kind fst snd];
    try (split; [split; congruence|split; [split; congruence|intros [H|H]; congruence]]).
  unfold scored_entry in *.
  destruct Hk as [Hk|Hk]; rewrite Hk;
    (split; [split; congruence|split; [split; congruence|reflexivity]]).
Qed.

Lemma has_win_iff :
  existsb (fun x => String.eqb (sug_kind x) "win")
          (suggested fuel s mover difficulty) = true
  <-> exists m, In m (candidate_moves s) /\ wins_now s mover m = true.
Proof.
  split.
  - intros H. apply existsb_exists in H. destruct H as [x [Hx Hk]].
    apply String.eqb_eq in Hk.
    destruct (suggested_kind x Hx) as [Hc [Hw _]].
    exists (sug_move x). split; [exact Hc|]. apply tier_win_iff. now apply Hw.
  - intros [m [Hm Hw]].
    assert (Hin : In m (tier_moves s mover Win (candidate_moves s))).
    { apply (in_tier_moves s mover). split; [exact Hm|now apply tier_win_iff]. }
    destruct (tier_moves s mover Win (candidate_moves s)) as [|m0 t] eqn:Et;
      [destruct Hin|].
    unfold suggested, forcing_entries. cbv zeta. rewrite Et. cbn [map app].
    match goal with
    | |- existsb _ (py_take 6 (?x :: ?l)) = true =>
        destruct (py_take_head 6 x l) as [t' Ht']; [lia|rewrite Ht']
    end.
    destruct m0; reflexivity.
Qed.

Lemma first_wins_suggested (m : Move) :
  In m (firstn 6 (filter (wins_now s mover) (candidate_moves s))) ->
  In (win_entry m) (suggested fuel s mover difficulty).
Proof.
  intros H. rewrite <- tier_moves_win in H.
  unfold suggested, py_take, forcing_entries. cbv zeta.
  change (0 <=? 6) with true. cbv iota. change (Z.to_nat 6) with 6%nat.
  apply in_firstn_app, in_firstn_app. rewrite firstn_map. now apply in_map.
Qed.

(** The facts of [_infer_move_facts] about a move at [(row, col)]. *)
Lemma infer_move_facts_value (row col : Z) :
  exists facts,
    infer_move_facts fuel s mover row col difficulty = Some (facts, s)
    /\ missed_win facts
       = existsb (fun x => String.eqb (sug_kind x) "win")
                 (suggested fuel s mover difficulty)
         && negb (kind_is (played_kind facts) "win")
    /\ missed_block facts
       = existsb (fun x => String.eqb (sug_kind x) "block")
                 (suggested fuel s mover difficulty)
         && negb (kind_is (played_kind facts) "win"
                  || kind_is (played_kind facts) "block")
    /\ (low_value facts = true ->
        kind_is (played_kind facts) "score" = true
        \/ kind_is (played_kind facts) "search" = true)
    /\ (weak_edge facts = true ->
        is_edge_move row col 15 1 = true /\ played_kind facts = None)
    /\ ((forall x, In x (suggested fuel s mover difficulty) ->
                   sug_move x <> (row, col))
        /\ played_kind facts = None
        \/ exists x, In x (suggested fuel s mover difficulty)
                     /\ sug_move x = (row, col)
                     /\ played_kind facts = Some (sug_kind x)).
Proof.
  unfold infer_move_facts. rewrite suggested_value. cbv zeta.
  pose proof (facts_loop_played row col (suggested fuel s mover difficulty)
                0 None None []) as Hp.
  destruct (facts_loop row col (suggested fuel s mover difficulty) 0 None None [])
    as [[p k] b].
  eexists. split; [reflexivity|]. cbn [missed_win missed_block low_value weak_edge
                                       played_kind].
  split; [reflexivity|]. split; [reflexivity|]. split; [|split].
  - intros H. apply andb_true_iff in H. destruct H as [H _].
    now apply orb_true_iff in H.
  - intros H. apply andb_true_iff in H. destruct H as [H1 H2].
    split; [exact H1|]. destruct p; [discriminate|reflexivity].
  - destruct Hp as [[Hno [-> _]]|[x [i [Hx [Hm [-> _]]]]]].
    + left. split; [exact Hno|reflexivity].
    + right. exists x. repeat split; assumption.
Qed.

End Facts.

(** X27.  [_infer_move_facts] on a 15x15 board leaves the board as it was,
    and its flags follow the engine's tests.  [missed_win] is raised only
    when some candidate wins at once; it is raised whenever one does and
    the played move does not win; it is not raised when the played move is
    among the first six winning candidates.  [missed_block] is raised only
    when some candidate stops a win of the opponent without winning itself.
    [low_value] is raised only for a candidate that is neither a win, a
    block nor a defensive move. *)
Theorem infer_move_facts_flags (fuel : nat) (s : State) (mover : string) (row col : Z)
    (difficulty : string) :
  wf_board s = true -> (count_empty s < fuel)%nat ->
  exists facts,
    infer_move_facts fuel s mover row col difficulty = Some (facts, s)
    /\ (missed_win facts = true ->
        exists m, In m (candidate_moves s) /\ wins_now s mover m = true)
    /\ (wins_now s mover (row, col) = false ->
        (exists m, In m (candidate_moves s) /\ wins_now s mover m = true) ->
        missed_win facts = true)
    /\ (In (row, col) (firstn 6 (filter (wins_now s mover) (candidate_moves s))) ->
        missed_win facts = false /\ played_kind facts = Some "win")
    /\ (missed_block facts = true ->
        exists m, In m (candidate_moves s) /\ tier s mover m = Block)
    /\ (low_value facts = true ->
        In (row, col) (candidate_moves s) /\ tier s mover (row, col) = Rest).
Proof.
  intros Hwf Hfuel.
  destruct (infer_move_facts_value fuel s mover difficulty Hwf Hfuel row col)
    as [facts [E [Emw [Emb [Hlow [_ Hplayed]]]]]].
  exists facts. split; [exact E|].
  pose proof (has_win_iff fuel s mover difficulty Hwf) as Hhas.
  pose proof (suggested_kind fuel s mover difficulty Hwf) as Hkind.
  set (suggested := suggested fuel s mover difficulty) in *.
  split; [|split; [|split; [|split]]].
  - intros H. rewrite Emw in H. apply andb_true_iff in H. destruct H as [H _].
    now apply Hhas.
  - intros Hnw Hex. rewrite Emw. apply andb_true_iff. split; [now apply Hhas|].
    apply negb_true_iff.
    destruct Hplayed as [[_ ->]|[x [Hx [Hm ->]]]]; [reflexivity|].
    cbn [kind_is]. destruct (String.eqb (sug_kind x) "win") eqn:Ek; [|reflexivity].
    apply String.eqb_eq in Ek. destruct (Hkind x Hx) as [_ [Hw _]].
    apply Hw in Ek. rewrite Hm in Ek. apply tier_win_iff in Ek. congruence.
  - intros Hin.
    pose proof (first_wins_suggested fuel s mover difficulty (row, col) Hin) as Hentry.
    fold suggested in Hentry.
    assert (Hwin : tier s mover (row, col) = Win).
    { apply in_firstn in Hin. apply filter_In in Hin. now apply tier_win_iff. }
    assert (Hp : played_kind facts = Some "win").
    { destruct Hplayed as [[Hno _]|[x [Hx [Hm ->]]]].
      - exfalso. apply (Hno _ Hentry). reflexivity.
      - f_equal. destruct (Hkind x Hx) as [_ [Hw _]]. apply Hw. now rewrite Hm. }
    split; [|exact Hp]. rewrite Emw, Hp. cbn [kind_is].
    change (String.eqb "win" "win") with true. cbn [negb]. apply andb_false_r.
  - intros H. rewrite Emb in H. apply andb_true_iff in H. destruct H as [H _].
    apply existsb_exists in H. destruct H as [x [Hx Hk]].
    apply String.eqb_eq in Hk. destruct (Hkind x Hx) as [Hc [_ [Hb _]]].
    exists (sug_move x). split; [exact Hc|now apply Hb].
  - intros H. apply Hlow in H.
    destruct Hplayed as [[_ Hn]|[x [Hx [Hm Hp]]]].
    + rewrite Hn in H. cbn [kind_is] in H. destruct H; discriminate.
    + rewrite Hp in H. cbn [kind_is] in H.
      destruct (Hkind x Hx) as [Hc [_ [_ Hr]]]. rewrite Hm in Hc, Hr.
      split; [exact Hc|]. apply Hr.
      destruct H as [H|H]; apply String.eqb_eq in H; tauto.
Qed.

Lemma infer_move_facts_flags_witness :
  exists facts,
    infer_move_facts 222 winning_board "white" 0 0 "Easy" = Some (facts, winning_board)
    /\ missed_win facts = true.
Proof.
  destruct (infer_move_facts_flags 222 winning_board "white" 0 0 "Easy")
    as [facts [E [_ [H _]]]].
  - reflexivity.
  - apply Nat.ltb_lt. vm_compute. reflexivity.
  - exists facts. split; [exact E|]. apply H.
    + vm_compute. reflexivity.
    + exists (5, 5). split; [apply mem_In|]; vm_compute; reflexivity.
Defined.

(** ** [minimax] one ply above the leaves *)

Section DepthOne.

Variables (rec : State -> Z -> Z -> option (Z * State)) (use_ab : bool).
Variables (s : State) (ai opp : string).
Hypothesis Hwf : wf_board s = true.
Hypothesis Hrec : forall st a b, rec st a b = Some (evaluate st ai, st).

Lemma min_loop_depth_one (oc : list Move) :
  (forall m, In m oc -> empty_cell s m) ->
  forall value alpha beta,
    use_ab = false \/ (alpha < - SCORE_BOUND /\ alpha < beta /\ alpha < value) ->
    min_loop rec use_ab opp oc s value alpha beta
    = Some (fold_left (fun v m => Z.min v (reply_score s ai opp m)) oc value, s).
Proof.
  induction oc as [|[r c] tl IH]; intros He value alpha beta Hab; [reflexivity|].
  assert (Hc : cell s r c = None) by (apply (He (r, c)); left; reflexivity).
  assert (Htl : forall m, In m tl -> empty_cell s m)
    by (intros m Hm; apply He; now right).
  cbn [min_loop fold_left]. cbv zeta.
  assert (Ev : (if is_win_at (set_cell s r c (Some opp)) r c opp
                then Some (- WIN_VALUE, set_cell s r c (Some opp))
                else rec (set_cell s r c (Some opp)) alpha beta)
               = Some (reply_score s ai opp (r, c), set_cell s r c (Some opp))).
  { unfold reply_score, wins_now, place. cbn [fst snd].
    destruct (is_win_at (set_cell s r c (Some opp)) r c opp); [reflexivity|].
    apply Hrec. }
  rewrite Ev. rewrite place_undo by assumption.
  assert (Hrange : - SCORE_BOUND <= reply_score s ai opp (r, c)).
  { unfold reply_score. destruct (wins_now s opp (r, c)).
    - unfold SCORE_BOUND. lia.
    - exact (proj1 (evaluate_range (place opp s (r, c)) ai)). }
  assert (Emin : (if reply_score s ai opp (r, c) <? value
                  then reply_score s ai opp (r, c) else value)
                 = Z.min value (reply_score s ai opp (r, c))).
  { destruct (Z.ltb_spec (reply_score s ai opp (r, c)) value); lia. }
  rewrite Emin.
  destruct use_ab.
  - destruct Hab as [Hab|[Ha [Hb Hv]]]; [discriminate|].
    set (v := Z.min value (reply_score s ai opp (r, c))).
    assert (Hv' : alpha < v) by (unfold v; lia).
    destruct (Z.leb_spec (if v <? beta then v else beta) alpha) as [Hle|Hgt].
    + exfalso. destruct (Z.ltb_spec v beta); lia.
    + apply IH; [assumption|]. right.
      destruct (Z.ltb_spec v beta); lia.
  - apply IH; [assumption|now left].
Qed.

End DepthOne.

Lemma minimax_depth_one_value (fuel : nat) (s : State) (ai_color opp_color : string)
    (alpha beta : Z) (use_ab : bool) (cap : option Z) :
  wf_board s = true -> (count_empty s < fuel)%nat ->
  use_ab = false \/ (alpha < - 79200000 /\ alpha < beta) ->
  minimax fuel s 1 false ai_color opp_color alpha beta use_ab cap
  = Some (if is_nil (candidate_moves s) then evaluate s ai_color
          else fold_left (fun v m => Z.min v (reply_score s ai_color opp_color m))
                         (node_moves s opp_color ai_color cap) 1000000000,
          s).
Proof.
  intros Hwf Hfuel Hab. destruct fuel as [|k]; [lia|].
  rewrite minimax_unfold_min by assumption. change (1 =? 0) with false. cbn [orb].
  destruct (candidate_moves s) as [|m0 l0] eqn:Ecm; cbn [is_nil]; [reflexivity|].
  assert (Hk : exists k', k = S k').
  { destruct k as [|k']; [|now exists k'].
    exfalso. assert (Hin : In m0 (candidate_moves s)) by (rewrite Ecm; now left).
    apply candidate_moves_empty_cells, in_get_empty_cells in Hin.
    unfold count_empty in Hfuel. destruct (get_empty_cells s); [destruct Hin|].
    cbn [length] in Hfuel. lia. }
  destruct Hk as [k' ->].
  apply min_loop_depth_one.
  - exact Hwf.
  - intros st a b. reflexivity.
  - intros m Hm. apply candidate_moves_empty_cells.
    eapply node_moves_candidates; eassumption.
  - destruct Hab as [Hab|[Ha Hb]]; [now left|right].
    unfold SCORE_BOUND, INF. lia.
Qed.

(** X28.  [minimax] at depth 1 at a minimizing node, without pruning or
    with a window whose [alpha] lies below every value: on a board with a
    candidate it returns the least value over the replies the node iterates
    over, each reply counting [-100000] if it completes five for the
    opponent and the evaluation of the board after it otherwise (and [10**9]
    if a cap leaves no reply); on a full board it returns the evaluation.
    The board is left as it was. *)
Theorem minimax_depth_one_min (fuel : nat) (s : State) (ai_color opp_color : string)
    (alpha beta : Z) (use_ab : bool) (cap : option Z) :
  wf_board s = true -> (count_empty s < fuel)%nat ->
  use_ab = false \/ (alpha < - 79200000 /\ alpha < beta) ->
  minimax fuel s 1 false ai_color opp_color alpha beta use_ab cap
  = Some (if is_nil (candidate_moves s) then evaluate s ai_color
          else fold_left (fun v m => Z.min v (reply_score s ai_color opp_color m))
                         (node_moves s opp_color ai_color cap) 1000000000,
          s).
Proof.
  exact (minimax_depth_one_value fuel s ai_color opp_color alpha beta use_ab cap).
Qed.

Lemma minimax_depth_one_min_witness :
  minimax 225 one_stone 1 false "white" "black" (- 1000000000) 1000000000 true (Some 12)
  = Some (fold_left (fun v m => Z.min v (reply_score one_stone "white" "black" m))
                    (node_moves one_stone "black" "white" (Some 12)) 1000000000,
          one_stone).
Proof.
  apply (minimax_depth_one_min 225 one_stone "white" "black" (- 1000000000) 1000000000
           true (Some 12)).
  - reflexivity.
  - apply Nat.ltb_lt. vm_compute. reflexivity.
  - right. lia.
Defined.

(** ** The Medium computer player *)

(** X29.  On Medium (any difficulty other than Easy and Hard) the worker of
    [computer_move] plays a two-ply search without pruning, with the cap of
    10: on a board with an empty cell it returns the first move, in the
    order of the capped ordered candidates, whose value two plies deep is
    greatest, where the value of a move is the least score over the
    opponent's capped replies. *)
Theorem computer_move_medium (fuel draw draw' : nat) (s : State)
    (difficulty ai_color player_color : string) :
  wf_board s = true -> (count_empty s < fuel)%nat ->
  String.eqb difficulty "Easy" = false -> String.eqb difficulty "Hard" = false ->
  get_empty_cells s <> [] ->
  exists pre m post,
    node_moves s ai_color player_color (Some 10) = pre ++ m :: post
    /\ worker fuel draw draw' s difficulty ai_color player_color = Some (Some m, s)
    /\ (forall x, In x pre ->
          two_ply_value s ai_color player_color (Some 10) x
          < two_ply_value s ai_color player_color (Some 10) m)
    /\ (forall x, In x post ->
          two_ply_value s ai_color player_color (Some 10) x
          <= two_ply_value s ai_color player_color (Some 10) m).
Proof.
  intros Hwf Hfuel He Hh Hne.
  assert (Hcap : cap_positive (Some 10)) by (intros k E; inversion E; lia).
  assert (Hempty : forall m, In m (node_moves s ai_color player_color (Some 10)) ->
                     empty_cell s m).
  { intros m Hm. apply candidate_moves_empty_cells.
    eapply node_moves_candidates; eassumption. }
  assert (Hval : forall m, In m (node_moves s ai_color player_color (Some 10)) ->
            minimax fuel (set_cell s (fst m) (snd m) (Some ai_color)) (2 - 1) false
                    ai_color player_color (- INF) INF false (Some 10)
            = Some (two_ply_value s ai_color player_color (Some 10) m,
                    set_cell s (fst m) (snd m) (Some ai_color))).
  { intros [r c] Hm. cbn [fst snd]. change (2 - 1) with 1.
    apply minimax_depth_one_value; [now apply wf_set_cell| |now left].
    pose proof (count_empty_place s r c ai_color Hwf (Hempty _ Hm)). lia. }
  assert (Hin : forall m, In m (node_moves s ai_color player_color (Some 10)) ->
            in_range (two_ply_value s ai_color player_color (Some 10) m)).
  { intros [r c] Hm.
    destruct (minimax_bounded fuel (set_cell s r c (Some ai_color)) (2 - 1) false
                ai_color player_color (- INF) INF false (Some 10)) as [v [E Hr]].
    - now apply wf_set_cell.
    - pose proof (count_empty_place s r c ai_color Hwf (Hempty _ Hm)). lia.
    - exact Hcap.
    - pose proof (Hval (r, c) Hm) as E'. cbn [fst snd] in E'. rewrite E in E'.
      inversion E'. now subst. }
  destruct (ai_search_scored_restores fuel s ai_color player_color 2 false (Some 10)
              Hwf Hfuel) as [bm [bs [E Hroot]]].
  destruct (root_loop_first
              (fun st a b => minimax fuel st (2 - 1) false ai_color player_color
                                     a b false (Some 10))
              ai_color s (two_ply_value s ai_color player_color (Some 10)) (- INF) INF Hwf
              (node_moves s ai_color player_color (Some 10)) Hempty Hval None (- INF))
    as [bm' [bs' [E' Hcase]]].
  rewrite Hroot in E'. inversion E'; subst bm' bs'. clear E'.
  destruct Hcase as [[_ [_ Hall]]|[pre [m [post [Hsplit [-> [-> [_ [Hpre Hpost]]]]]]]]].
  - exfalso.
    assert (Hnm : node_moves s ai_color player_color (Some 10) <> []).
    { apply node_moves_nonempty; try assumption.
      intros Hc. apply candidate_moves_nil in Hc. contradiction. }
    destruct (node_moves s ai_color player_color (Some 10)) as [|m l] eqn:En;
      [congruence|].
    specialize (Hall m (or_introl eq_refl)).
    specialize (Hin m (or_introl eq_refl)).
    unfold in_range, SCORE_BOUND, INF in *. lia.
  - exists pre, m, post. split; [exact Hsplit|]. split; [|split; assumption].
    unfold worker. rewrite He, Hh. unfold ai_search. rewrite E. reflexivity.
Qed.

Lemma computer_move_medium_witness :
  exists m, worker 225 0 0 one_stone "Medium" "white" "black" = Some (Some m, one_stone).
Proof.
  destruct (computer_move_medium 225 0 0 one_stone "Medium" "white" "black")
    as [pre [m [post [_ [E _]]]]].
  - reflexivity.
  - apply Nat.ltb_lt. vm_compute. reflexivity.
  - reflexivity.
  - reflexivity.
  - vm_compute. discriminate.
  - exists m. exact E.
Defined.
